(** * docuAI browser client: upload / progress / chat orchestration

    A shallow embedding of the two variants of the client script
    ([src/frontend/script.js] and [src/unnamed/part_000]) together with the
    properties of the session orchestrator that [spec.md] states.

    The script is event driven: handlers run to completion, and the only
    suspension points are the two network requests and the timers.  The
    embedding therefore keeps an explicit page state (script variables, the
    DOM properties the script reads and writes, the chat log as a heap of
    element nodes, the timer queue and the requests in flight) and one
    transition function per event.  Closures that the script hands to
    [setTimeout] / [setInterval] are represented by first-order callbacks
    carrying their captured variables, and the code that follows an
    [await] by the handler of the event that resumes it.

    The theme toggle and its stored preference share no state with the
    orchestrator and are modelled on their own.  Left out are the parts of
    the script that nothing reads back: the session time in the header,
    scroll positions and the drag-and-drop highlighting (a drop dispatches
    the same [change] event as a file selection).  The markup of
    the page is not part of the repository; what the script depends on (the
    initial DOM properties, the children of the chat, the welcome message)
    is a parameter of the model. *)

From Stdlib Require Import String Ascii NArith.
From stdpp Require Import gmap list.

Local Open Scope N_scope.

(** ** JavaScript strings

    A JavaScript string is a sequence of UTF-16 code units; [length] and
    [slice] count code units.  Literals of the script are written with [lit]
    when they are ASCII, non-ASCII characters are given by their code
    units. *)

Abbreviation jsstring := (list N).

Definition lit (s : string) : jsstring :=
  map N_of_ascii (list_ascii_of_string s).

(** [String.prototype.trim]: white space and line terminators of ECMAScript. *)
Definition isWhiteSpace (c : N) : bool :=
  ((9 <=? c) && (c <=? 13)) || (c =? 32) || (c =? 160) || (c =? 5760)
  || ((8192 <=? c) && (c <=? 8202)) || (c =? 8232) || (c =? 8233)
  || (c =? 8239) || (c =? 8287) || (c =? 12288) || (c =? 65279).

Fixpoint trimStart (s : jsstring) : jsstring :=
  match s with
  | c :: rest => if isWhiteSpace c then trimStart rest else s
  | [] => []
  end.

Definition trimEnd (s : jsstring) : jsstring := rev (trimStart (rev s)).

Definition trim (s : jsstring) : jsstring := trimEnd (trimStart s).

(** [text.slice(0, i)] for [0 <= i]. *)
Definition slice0 (text : jsstring) (i : nat) : jsstring := take i text.

(** [encodeURIComponent] throws a [URIError] exactly on strings holding a
    lone surrogate; [uriEncodable] tells whether it returns. *)
Definition isHighSurrogate (c : N) : bool := (55296 <=? c) && (c <=? 56319).
Definition isLowSurrogate (c : N) : bool := (56320 <=? c) && (c <=? 57343).

Fixpoint uriEncodable (s : jsstring) : bool :=
  match s with
  | [] => true
  | c :: rest =>
      if isHighSurrogate c then
        match rest with
        | d :: rest' => isLowSurrogate d && uriEncodable rest'
        | [] => false
        end
      else if isLowSurrogate c then false
      else uriEncodable rest
  end.

(** ** [escapeHtml]

    The script builds a detached [div], assigns [textContent] and reads
    [innerHTML] back.  The result is the HTML serialisation of one text node:
    ampersand, no-break space, less-than and greater-than are replaced by
    character references, every other code unit is kept. *)

Definition unitAmp : N := 38.
Definition unitLt : N := 60.
Definition unitGt : N := 62.
Definition unitNbsp : N := 160.
Definition unitNewline : N := 10.

Definition escapeUnit (c : N) : jsstring :=
  if c =? unitAmp then lit "&amp;"
  else if c =? unitLt then lit "&lt;"
  else if c =? unitGt then lit "&gt;"
  else if c =? unitNbsp then lit "&nbsp;"
  else [c].

Definition escapeHtml (text : jsstring) : jsstring :=
  flat_map escapeUnit text.

(** [s.replace(/\n/g, "<br>")]. *)
Definition replaceNewlines (s : jsstring) : jsstring :=
  flat_map (fun c => if c =? unitNewline then lit "<br>" else [c]) s.

(** What the HTML parser makes of a string assigned to [innerHTML], as far
    as plain text is concerned: a string without [<] is a single text node
    whose data is the string with its character references decoded.  Only
    the four references that [escapeHtml] emits are decoded here. *)
Fixpoint dropPrefix (p s : jsstring) : option jsstring :=
  match p, s with
  | [], _ => Some s
  | a :: p', b :: s' => if a =? b then dropPrefix p' s' else None
  | _ :: _, [] => None
  end.

Definition references : list (jsstring * N) :=
  [ (lit "amp;", unitAmp); (lit "lt;", unitLt); (lit "gt;", unitGt);
    (lit "nbsp;", unitNbsp) ].

Fixpoint matchReference (refs : list (jsstring * N)) (s : jsstring)
  : option (N * jsstring) :=
  match refs with
  | [] => None
  | (name, c) :: refs' =>
      match dropPrefix name s with
      | Some rest => Some (c, rest)
      | None => matchReference refs' s
      end
  end.

Fixpoint decodeReferences (fuel : nat) (s : jsstring) : jsstring :=
  match fuel, s with
  | O, _ => s
  | _, [] => []
  | S fuel', c :: rest =>
      if c =? unitAmp then
        match matchReference references rest with
        | Some (d, rest') => d :: decodeReferences fuel' rest'
        | None => c :: decodeReferences fuel' rest
        end
      else c :: decodeReferences fuel' rest
  end.

Definition parsedText (html : jsstring) : option jsstring :=
  if existsb (fun c => c =? unitLt) html then None
  else Some (decodeReferences (length html) html).


Local Close Scope N_scope.

(** ** Page state *)

(** [el.style.display]: the inline value, empty when the markup sets none. *)
Inductive display := DisplayUnset | DisplayNone | DisplayBlock | DisplayFlex.

Inductive avatar := FaRobot | FaInfoCircle.

(** The content of a message bubble records the property through which it
    was last written. *)
Inductive content :=
| TextContent (s : jsstring)
| InnerHTML (html : jsstring).

(** Children of [#chatMessages]: the [div]s the script creates, and the
    elements that come with the markup of the page. *)
Inductive element :=
| MessageUser (bubble : content)
| MessageAi (icon : avatar) (bubble : content)
| Markup (welcome : bool) (html : jsstring).

(** [Math.floor(Math.random() * responses.length)] for the four canned
    responses. *)
Inductive randomIndex := R0 | R1 | R2 | R3.

(** Parsed response bodies: a JSON object whose [summary] and [answer], when
    present, are strings. *)
Record data := { summary : option jsstring; answer : option jsstring }.

(** How a [fetch] settles: the promise rejects, or it resolves with a status
    and a body that [res.json()] parses ([Some]) or rejects ([None]). *)
Inductive response :=
| NetworkError
| Http (ok : bool) (body : option data).

Inductive request :=
| UploadRequest (file : jsstring)
| AskRequest (aiBubble : nat) (question : jsstring).

(** The code after [await simulateProgress()]. *)
Inductive continuation := AfterProgress (file : jsstring).

(** Timer callbacks with their captured variables. *)
Inductive callback :=
| UpdateProgress (progress seconds : nat)
| Update (progress : nat) (resolve : continuation)
| ShowSuccess (d : data)
| ShowResults (d : data)
| TypeTick (container : nat) (text : jsstring) (i : nat)
| UpdateSessionTime.

Record timer := {
  timer_id : nat;
  due : N;
  interval : option N;
  timer_callback : callback }.

(** What the user and the network can observe of a run. *)
Inductive obs :=
| Progress (percent : nat)
| Alert (msg : jsstring)
| Fetch (id : nat) (r : request)
| Settled (id : nat) (r : response).

(** DOM properties the script reads or writes.  The progress indicator
    ([progressFill.style.width] in script.js, [progressPercent.textContent]
    in part_000) always holds a percentage and is kept as its number;
    [fileTime] is the number of seconds shown. *)
Record dom := {
  uploadArea_display : display;
  processingOverlay_display : display;
  successMessage_display : display;
  resultsContainer_display : display;
  progressPercent : nat;
  fileName_text : jsstring;
  fileTime : nat;
  summaryContent : jsstring;
  chatInput_disabled : bool;
  chatInput_value : jsstring;
  sendButton_disabled : bool;
  fileInput_value : jsstring }.

(** What the script finds when the page loads: the optional markdown
    library, the source of random numbers, and the markup.  The children
    that [#chatMessages] has in the markup are given by their HTML and by
    whether they carry the class [welcome-message]; [welcome_before] and
    [welcome_after] are the first elements of that class before and after
    [#chatMessages] in document order. *)
Record environment := {
  window_marked : option (jsstring -> jsstring);
  Math_random : nat -> randomIndex;
  markup_dom : dom;
  markup_chat : list (bool * jsstring);
  welcome_before : option jsstring;
  welcome_after : option jsstring }.

(** The page: the script variables [isTyping] and [currentFileName], the
    DOM properties, the element nodes that exist ([nodes]) and those that
    are children of [#chatMessages], in order ([chatMessages]); the clock,
    the scheduled timers and the requests in flight, with the next handle
    of each kind; the number of calls of [Math.random]; the observations so
    far, latest first. *)
Record state := {
  env : environment;
  isTyping : bool;
  currentFileName : jsstring;
  page : dom;
  nodes : gmap nat element;
  chatMessages : list nat;
  nextNode : nat;
  clock : N;
  timers : list timer;
  nextTimer : nat;
  requests : list (nat * request);
  nextRequest : nat;
  randomCalls : nat;
  trace : list obs }.

(** *** Assignments *)

Definition upd_page (f : dom -> dom) (st : state) : state :=
  Build_state (env st) (isTyping st) (currentFileName st) (f (page st))
    (nodes st) (chatMessages st) (nextNode st) (clock st) (timers st)
    (nextTimer st) (requests st) (nextRequest st) (randomCalls st)
    (trace st).

Definition set_isTyping (x : bool) (st : state) : state :=
  Build_state (env st) x (currentFileName st) (page st) (nodes st)
    (chatMessages st) (nextNode st) (clock st) (timers st) (nextTimer st)
    (requests st) (nextRequest st) (randomCalls st) (trace st).

Definition set_currentFileName (x : jsstring) (st : state) : state :=
  Build_state (env st) (isTyping st) x (page st) (nodes st)
    (chatMessages st) (nextNode st) (clock st) (timers st) (nextTimer st)
    (requests st) (nextRequest st) (randomCalls st) (trace st).

Definition set_nodes (x : gmap nat element) (st : state) : state :=
  Build_state (env st) (isTyping st) (currentFileName st) (page st) x
    (chatMessages st) (nextNode st) (clock st) (timers st) (nextTimer st)
    (requests st) (nextRequest st) (randomCalls st) (trace st).

Definition set_chatMessages (x : list nat) (st : state) : state :=
  Build_state (env st) (isTyping st) (currentFileName st) (page st)
    (nodes st) x (nextNode st) (clock st) (timers st) (nextTimer st)
    (requests st) (nextRequest st) (randomCalls st) (trace st).

Definition set_nextNode (x : nat) (st : state) : state :=
  Build_state (env st) (isTyping st) (currentFileName st) (page st)
    (nodes st) (chatMessages st) x (clock st) (timers st) (nextTimer st)
    (requests st) (nextRequest st) (randomCalls st) (trace st).

Definition set_clock (x : N) (st : state) : state :=
  Build_state (env st) (isTyping st) (currentFileName st) (page st)
    (nodes st) (chatMessages st) (nextNode st) x (timers st) (nextTimer st)
    (requests st) (nextRequest st) (randomCalls st) (trace st).

Definition set_timers (x : list timer) (st : state) : state :=
  Build_state (env st) (isTyping st) (currentFileName st) (page st)
    (nodes st) (chatMessages st) (nextNode st) (clock st) x (nextTimer st)
    (requests st) (nextRequest st) (randomCalls st) (trace st).

Definition set_nextTimer (x : nat) (st : state) : state :=
  Build_state (env st) (isTyping st) (currentFileName st) (page st)
    (nodes st) (chatMessages st) (nextNode st) (clock st) (timers st) x
    (requests st) (nextRequest st) (randomCalls st) (trace st).

Definition set_requests (x : list (nat * request)) (st : state) : state :=
  Build_state (env st) (isTyping st) (currentFileName st) (page st)
    (nodes st) (chatMessages st) (nextNode st) (clock st) (timers st)
    (nextTimer st) x (nextRequest st) (randomCalls st) (trace st).

Definition set_nextRequest (x : nat) (st : state) : state :=
  Build_state (env st) (isTyping st) (currentFileName st) (page st)
    (nodes st) (chatMessages st) (nextNode st) (clock st) (timers st)
    (nextTimer st) (requests st) x (randomCalls st) (trace st).

Definition set_randomCalls (x : nat) (st : state) : state :=
  Build_state (env st) (isTyping st) (currentFileName st) (page st)
    (nodes st) (chatMessages st) (nextNode st) (clock st) (timers st)
    (nextTimer st) (requests st) (nextRequest st) x (trace st).

Definition observe (o : obs) (st : state) : state :=
  Build_state (env st) (isTyping st) (currentFileName st) (page st)
    (nodes st) (chatMessages st) (nextNode st) (clock st) (timers st)
    (nextTimer st) (requests st) (nextRequest st) (randomCalls st)
    (o :: trace st).

Definition set_uploadArea_display (x : display) : state -> state :=
  upd_page (fun p =>
    Build_dom x (processingOverlay_display p) (successMessage_display p)
      (resultsContainer_display p) (progressPercent p) (fileName_text p)
      (fileTime p) (summaryContent p) (chatInput_disabled p)
      (chatInput_value p) (sendButton_disabled p) (fileInput_value p)).

Definition set_processingOverlay_display (x : display) : state -> state :=
  upd_page (fun p =>
    Build_dom (uploadArea_display p) x (successMessage_display p)
      (resultsContainer_display p) (progressPercent p) (fileName_text p)
      (fileTime p) (summaryContent p) (chatInput_disabled p)
      (chatInput_value p) (sendButton_disabled p) (fileInput_value p)).

Definition set_successMessage_display (x : display) : state -> state :=
  upd_page (fun p =>
    Build_dom (uploadArea_display p) (processingOverlay_display p) x
      (resultsContainer_display p) (progressPercent p) (fileName_text p)
      (fileTime p) (summaryContent p) (chatInput_disabled p)
      (chatInput_value p) (sendButton_disabled p) (fileInput_value p)).

Definition set_resultsContainer_display (x : display) : state -> state :=
  upd_page (fun p =>
    Build_dom (uploadArea_display p) (processingOverlay_display p)
      (successMessage_display p) x (progressPercent p) (fileName_text p)
      (fileTime p) (summaryContent p) (chatInput_disabled p)
      (chatInput_value p) (sendButton_disabled p) (fileInput_value p)).

Definition write_progressPercent (x : nat) : state -> state :=
  upd_page (fun p =>
    Build_dom (uploadArea_display p) (processingOverlay_display p)
      (successMessage_display p) (resultsContainer_display p) x
      (fileName_text p) (fileTime p) (summaryContent p)
      (chatInput_disabled p) (chatInput_value p) (sendButton_disabled p)
      (fileInput_value p)).

Definition set_fileName_text (x : jsstring) : state -> state :=
  upd_page (fun p =>
    Build_dom (uploadArea_display p) (processingOverlay_display p)
      (successMessage_display p) (resultsContainer_display p)
      (progressPercent p) x (fileTime p) (summaryContent p)
      (chatInput_disabled p) (chatInput_value p) (sendButton_disabled p)
      (fileInput_value p)).

Definition set_fileTime (x : nat) : state -> state :=
  upd_page (fun p =>
    Build_dom (uploadArea_display p) (processingOverlay_display p)
      (successMessage_display p) (resultsContainer_display p)
      (progressPercent p) (fileName_text p) x (summaryContent p)
      (chatInput_disabled p) (chatInput_value p) (sendButton_disabled p)
      (fileInput_value p)).

Definition set_summaryContent (x : jsstring) : state -> state :=
  upd_page (fun p =>
    Build_dom (uploadArea_display p) (processingOverlay_display p)
      (successMessage_display p) (resultsContainer_display p)
      (progressPercent p) (fileName_text p) (fileTime p) x
      (chatInput_disabled p) (chatInput_value p) (sendButton_disabled p)
      (fileInput_value p)).

Definition set_chatInput_disabled (x : bool) : state -> state :=
  upd_page (fun p =>
    Build_dom (uploadArea_display p) (processingOverlay_display p)
      (successMessage_display p) (resultsContainer_display p)
      (progressPercent p) (fileName_text p) (fileTime p) (summaryContent p)
      x (chatInput_value p) (sendButton_disabled p) (fileInput_value p)).

Definition set_chatInput_value (x : jsstring) : state -> state :=
  upd_page (fun p =>
    Build_dom (uploadArea_display p) (processingOverlay_display p)
      (successMessage_display p) (resultsContainer_display p)
      (progressPercent p) (fileName_text p) (fileTime p) (summaryContent p)
      (chatInput_disabled p) x (sendButton_disabled p) (fileInput_value p)).

Definition set_sendButton_disabled (x : bool) : state -> state :=
  upd_page (fun p =>
    Build_dom (uploadArea_display p) (processingOverlay_display p)
      (successMessage_display p) (resultsContainer_display p)
      (progressPercent p) (fileName_text p) (fileTime p) (summaryContent p)
      (chatInput_disabled p) (chatInput_value p) x (fileInput_value p)).

Definition set_fileInput_value (x : jsstring) : state -> state :=
  upd_page (fun p =>
    Build_dom (uploadArea_display p) (processingOverlay_display p)
      (successMessage_display p) (resultsContainer_display p)
      (progressPercent p) (fileName_text p) (fileTime p) (summaryContent p)
      (chatInput_disabled p) (chatInput_value p) (sendButton_disabled p) x).

(** The progress indicator is observable: every write is recorded. *)
Definition set_progressPercent (n : nat) (st : state) : state :=
  observe (Progress n) (write_progressPercent n st).

(** A sequence of statements. *)
Definition block (body : list (state -> state)) (st : state) : state :=
  foldl (fun s stmt => stmt s) st body.

(** ** Functions shared by the two variants *)

(** [renderMarkdown]: the markdown library when the page loaded it, escaped
    text with line breaks otherwise. *)
Definition renderMarkdown (e : environment) (text : jsstring) : jsstring :=
  match window_marked e with
  | Some parse => parse text
  | None => replaceNewlines (escapeHtml text)
  end.

(** [v || dflt] for an optional string field: an absent field and the empty
    string are both falsy. *)
Definition orElse (v : option jsstring) (dflt : jsstring) : jsstring :=
  match v with
  | Some (c :: s) => c :: s
  | _ => dflt
  end.

(** The scroll position is not part of the state. *)
Definition scrollBottom (st : state) : state := st.

(** [chatMessages.appendChild(div)] for a node that was just created. *)
Definition appendChild (e : element) (st : state) : nat * state :=
  let id := nextNode st in
  (id, block [ set_nodes (<[id := e]> (nodes st));
               set_chatMessages (chatMessages st ++ [id]);
               set_nextNode (S id) ] st).

Definition addUserMessage (text : jsstring) (st : state) : state :=
  let '(_, st) := appendChild (MessageUser (InnerHTML (escapeHtml text))) st in
  scrollBottom st.

Definition createAIBubble (st : state) : nat * state :=
  let '(div, st) := appendChild (MessageAi FaRobot (InnerHTML [])) st in
  (div, scrollBottom st).

Definition addSystemMessage (text : jsstring) (st : state) : state :=
  let '(_, st) :=
    appendChild (MessageAi FaInfoCircle (InnerHTML (escapeHtml text))) st in
  scrollBottom st.

(** Writing [textContent] or [innerHTML] of the bubble of a message node;
    the node is written whether or not it is still attached. *)
Definition writeBubble (v : content) (e : element) : element :=
  match e with
  | MessageUser _ => MessageUser v
  | MessageAi icon _ => MessageAi icon v
  | Markup w h => Markup w h
  end.

Definition setBubble (container : nat) (v : content) (st : state) : state :=
  set_nodes (alter (writeBubble v) container (nodes st)) st.

(** Timers and requests. *)
Definition setTimeout (cb : callback) (delay : N) (st : state) : state :=
  block [ set_timers ({| timer_id := nextTimer st; due := (clock st + delay)%N;
                         interval := None; timer_callback := cb |}
                      :: timers st);
          set_nextTimer (S (nextTimer st)) ] st.

Definition setInterval (cb : callback) (delay : N) (st : state) : state :=
  block [ set_timers ({| timer_id := nextTimer st; due := (clock st + delay)%N;
                         interval := Some delay; timer_callback := cb |}
                      :: timers st);
          set_nextTimer (S (nextTimer st)) ] st.

Definition clearInterval (id : nat) (st : state) : state :=
  set_timers (filter (fun t => timer_id t <> id) (timers st)) st.

Fixpoint takeTimer (id : nat) (ts : list timer) : option (timer * list timer) :=
  match ts with
  | [] => None
  | t :: rest =>
      if Nat.eqb (timer_id t) id then Some (t, rest)
      else match takeTimer id rest with
           | Some (found, rest') => Some (found, t :: rest')
           | None => None
           end
  end.

Fixpoint takeRequest (id : nat) (rs : list (nat * request))
  : option (request * list (nat * request)) :=
  match rs with
  | [] => None
  | (k, r) :: rest =>
      if Nat.eqb k id then Some (r, rest)
      else match takeRequest id rest with
           | Some (found, rest') => Some (found, (k, r) :: rest')
           | None => None
           end
  end.

Definition fetch (r : request) (st : state) : state :=
  block [ set_requests (requests st ++ [(nextRequest st, r)]);
          set_nextRequest (S (nextRequest st));
          observe (Fetch (nextRequest st) r) ] st.

Definition alert (msg : jsstring) : state -> state := observe (Alert msg).

Definition drawRandom (st : state) : randomIndex * state :=
  (Math_random (env st) (randomCalls st),
   set_randomCalls (S (randomCalls st)) st).

(** [typeText]: the reveal effect.  [typeTick] is the body of the interval
    callback; [interval_id] is the handle it closes over and [t] the timer
    that fired.  While the reveal lasts the interval is put back with the
    advanced counter, at the end it is cleared. *)
Definition typeText (period : N) (container : nat) (text : jsstring)
  : state -> state :=
  block [ setBubble container (InnerHTML []);
          setInterval (TypeTick container text 0) period ].

Definition reschedule (t : timer) (cb : callback) (st : state) : state :=
  match interval t with
  | Some period =>
      set_timers ({| timer_id := timer_id t; due := (due t + period)%N;
                     interval := Some period; timer_callback := cb |}
                  :: timers st) st
  | None => st
  end.

Definition typeTick (t : timer) (container : nat) (text : jsstring) (i : nat)
    (st : state) : state :=
  let st := setBubble container (TextContent (slice0 text i)) st in
  let i := S i in
  let st := scrollBottom st in
  if length text <? i then
    block [ clearInterval (timer_id t);
            setBubble container (InnerHTML (renderMarkdown (env st) text));
            set_isTyping false;
            set_sendButton_disabled false ] st
  else reschedule t (TypeTick container text i) st.

(** [document.querySelector('.welcome-message')]: the first match in
    document order, before, inside or after [#chatMessages]. *)
Definition isWelcome (e : element) : bool :=
  match e with
  | Markup true _ => true
  | _ => false
  end.

Fixpoint firstWelcome (m : gmap nat element) (children : list nat)
  : option element :=
  match children with
  | [] => None
  | id :: rest =>
      match m !! id with
      | Some e => if isWelcome e then Some e else firstWelcome m rest
      | None => firstWelcome m rest
      end
  end.

Definition querySelector_welcome (st : state) : option element :=
  match welcome_before (env st) with
  | Some html => Some (Markup true html)
  | None =>
      match firstWelcome (nodes st) (chatMessages st) with
      | Some e => Some e
      | None => option_map (Markup true) (welcome_after (env st))
      end
  end.

(** [clearChat] has the same body in both variants up to the text of the
    notice: empty the log, put a clone of the welcome message back, reset
    the input field, add the notice. *)
Definition clearChatWith (notice : jsstring) (st : state) : state :=
  let welcomeMsg := querySelector_welcome st in
  let st := set_chatMessages [] st in
  let st := match welcomeMsg with
            | Some w => snd (appendChild w st)
            | None => st
            end in
  let st := set_chatInput_value [] st in
  addSystemMessage notice st.

(** The page as the browser builds it from the markup, before any script
    runs; [t0] and [tr] carry the wall clock and the observations over a
    reload. *)
Definition loaded (e : environment) (t0 : N) (tr : list obs) : state :=
  {| env := e; isTyping := false; currentFileName := [];
     page := markup_dom e;
     nodes := map_seq 0 (map (fun m => Markup m.1 m.2) (markup_chat e));
     chatMessages := seq 0 (length (markup_chat e));
     nextNode := length (markup_chat e);
     clock := t0; timers := []; nextTimer := 0;
     requests := []; nextRequest := 0; randomCalls := 0; trace := tr |}.

(** The chat log as displayed: the attached nodes in order. *)
Definition chatLog (st : state) : list element :=
  omap (fun id => nodes st !! id) (chatMessages st).

(** The observations in order of occurrence. *)
Definition history (st : state) : list obs := rev (trace st).

Definition shownProgress (h : list obs) : list nat :=
  omap (fun o => match o with Progress n => Some n | _ => None end) h.

Definition isEmpty (s : jsstring) : bool :=
match s with
| [] => true
| _ :: _ => false
end.

(** The session time shown in the header is not part of the state. *)
Definition updateSessionTime (st : state) : state := st.

(** ** src/frontend/script.js *)
Module ScriptJs.

Definition typingPeriod : N := 15.

Definition uploadFailedText : jsstring :=
  lit "Upload failed. Please try again.".
Definition documentUploadedText : jsstring :=
  [55357%N; 56516%N] ++ lit " Document uploaded successfully".
Definition errorText : jsstring :=
  [10060%N] ++ lit " Error getting response".
Definition noResponseText : jsstring := lit "No response.".
Definition uploadFirstText : jsstring :=
  [9888%N; 65039%N] ++ lit " Please upload a document first".
Definition chatClearedText : jsstring :=
  [55357%N; 56492%N] ++ lit " Chat cleared".

Definition resetUploadUI : state -> state :=
  block [ set_uploadArea_display DisplayBlock;
          set_processingOverlay_display DisplayNone;
          set_resultsContainer_display DisplayNone;
          set_progressPercent 0 ].

(** The [catch] clause of the upload handler. *)
Definition uploadFailed : state -> state :=
  block [ alert uploadFailedText; resetUploadUI ].

(** The [change] handler of the file input, up to [await fetch]. *)
Definition fileInput_change (file : option jsstring) (st : state) : state :=
  match file with
  | None => st
  | Some file =>
      block [ set_uploadArea_display DisplayNone;
              set_processingOverlay_display DisplayFlex;
              set_progressPercent 30;
              fetch (UploadRequest file) ] st
  end.

(** The rest of the handler, once the request has settled. *)
Definition upload_settled (r : response) (st : state) : state :=
  match r with
  | NetworkError => uploadFailed st
  | Http _ None => uploadFailed st
  | Http ok (Some d) =>
      let st := set_progressPercent 100 st in
      if negb ok then uploadFailed st
      else
        block [ set_processingOverlay_display DisplayNone;
                set_resultsContainer_display DisplayBlock;
                set_summaryContent
                  (renderMarkdown (env st) (orElse (summary d) []));
                set_chatInput_disabled false;
                set_sendButton_disabled false;
                updateSessionTime;
                addSystemMessage documentUploadedText ] st
  end.

(** The [catch] clause of [sendMessage]. *)
Definition askFailed (aiBubble : nat) : state -> state :=
  typeText typingPeriod aiBubble errorText.

(** [sendMessage] up to [await fetch]; [encodeURIComponent] may throw
    inside the [try]. *)
Definition sendMessage (st : state) : state :=
  let question := trim (chatInput_value (page st)) in
  if isEmpty question || isTyping st then st
  else
    let st := block [ addUserMessage question;
                      set_chatInput_value [];
                      set_isTyping true;
                      set_sendButton_disabled true ] st in
    let '(aiBubble, st) := createAIBubble st in
    if uriEncodable question then fetch (AskRequest aiBubble question) st
    else askFailed aiBubble st.

(** The rest of [sendMessage], once the request has settled. *)
Definition ask_settled (aiBubble : nat) (r : response) (st : state)
  : state :=
  match r with
  | NetworkError => askFailed aiBubble st
  | Http _ None => askFailed aiBubble st
  | Http _ (Some d) =>
      typeText typingPeriod aiBubble (orElse (answer d) noResponseText) st
  end.

Definition sendQuickPrompt (prompt : jsstring) (st : state) : state :=
  if chatInput_disabled (page st) then addSystemMessage uploadFirstText st
  else sendMessage (set_chatInput_value prompt st).

Definition clearChat : state -> state := clearChatWith chatClearedText.

(** [window.location.reload()]: a fresh page; timers and requests of the
    old page are gone. *)
Definition startNewSession (st : state) : state :=
  loaded (env st) (clock st) (trace st).

(** The page once the script has run and [DOMContentLoaded] has fired. *)
Definition load (e : environment) : state := loaded e 0%N [].

End ScriptJs.

(** ** src/unnamed/part_000 *)
Module Part000.

Definition typingPeriod : N := 20.

Definition uploadFailedText : jsstring :=
  lit "Upload failed. Please try again.".
Definition documentProcessedText : jsstring :=
  lit "Document processed successfully!".
Definition documentUploadedText : jsstring :=
  [55357%N; 56516%N] ++ lit " Document uploaded and analyzed successfully".
Definition noAnswerText : jsstring :=
  lit "I couldn't find an answer to that question.".
Definition uploadFirstText : jsstring :=
  [9888%N; 65039%N]
  ++ lit " Please upload a document first to start chatting".
Definition chatClearedText : jsstring :=
  [55357%N; 56492%N]
  ++ lit " Chat cleared. You can continue asking questions about your document.".
Definition summaryPlaceholder : jsstring :=
  lit "<p>Your AI-generated summary will appear here...</p>".
Definition newSessionText : jsstring :=
  [55357%N; 56580%N]
  ++ lit " New session started. Upload a document to begin.".

Definition responses (r : randomIndex) : jsstring :=
  match r with
  | R0 => lit "Based on the document, I can see this is a forensic report detailing evidence from a crime scene. The key findings include DNA evidence from multiple individuals and ballistic analysis."
  | R1 => lit "The document shows that the crime scene had signs of forced entry. Security camera footage from nearby locations is being analyzed as part of the investigation."
  | R2 => lit "From my analysis, I can tell that three different sets of fingerprints were found at the scene. The time of death is estimated to be between 10 PM and 1 AM based on forensic evidence."
  | R3 => lit "The report indicates that no robbery occurred - valuables were left undisturbed. This suggests the incident may have been targeted rather than random."
  end.

Definition startSessionTimer : state -> state :=
  block [ updateSessionTime; setInterval UpdateSessionTime 60000%N ].

(** [simulateSideLoading]; [updateProgress] is its timer callback, with
    the closure variables [progress] and [seconds]. *)
Definition simulateSideLoading : state -> state :=
  setTimeout (UpdateProgress 10 5) 500%N.

Definition updateProgress (progress seconds : nat) (st : state) : state :=
  let progress := progress + 1 in
  let progress := if 100 <? progress then 100 else progress in
  let st := set_progressPercent progress st in
  let '(seconds, st) :=
    if progress mod 5 =? 0 then (S seconds, set_fileTime (S seconds) st)
    else (seconds, st) in
  if progress <? 80 then setTimeout (UpdateProgress progress seconds) 80%N st
  else st.

(** [simulateProgress]; [update] is its timer callback and [resolve] the
    code that awaits the promise. *)
Definition simulateProgress (resolve : continuation) : state -> state :=
  setTimeout (Update 80 resolve) 1000%N.

Definition resume (k : continuation) : state -> state :=
  match k with
  | AfterProgress file => fetch (UploadRequest file)
  end.

Definition update (progress : nat) (resolve : continuation) (st : state)
  : state :=
  let progress := progress + 1 in
  if 100 <? progress then
    block [ set_progressPercent 100; resume resolve ] st
  else
    block [ set_progressPercent progress;
            setTimeout (Update progress resolve) 60%N ] st.

Definition resetUploadUI : state -> state :=
  block [ set_uploadArea_display DisplayBlock;
          set_processingOverlay_display DisplayNone;
          set_successMessage_display DisplayNone;
          set_resultsContainer_display DisplayNone;
          set_progressPercent 10;
          set_fileInput_value [] ].

(** The [catch] clause of the upload handler. *)
Definition uploadFailed : state -> state :=
  block [ alert uploadFailedText; resetUploadUI ].

(** The [change] handler of the file input, up to
    [await simulateProgress()]. *)
Definition fileInput_change (file : option jsstring) (st : state) : state :=
  match file with
  | None => st
  | Some file =>
      block [ set_currentFileName file;
              set_fileName_text file;
              set_fileTime 0;
              set_uploadArea_display DisplayNone;
              set_processingOverlay_display DisplayFlex;
              simulateSideLoading;
              simulateProgress (AfterProgress file) ] st
  end.

(** The two nested [setTimeout] callbacks of a successful upload. *)
Definition showResults (d : data) (st : state) : state :=
  block [ set_successMessage_display DisplayNone;
          set_resultsContainer_display DisplayBlock;
          set_summaryContent
            (renderMarkdown (env st)
               (orElse (summary d) documentProcessedText));
          set_chatInput_disabled false;
          set_sendButton_disabled false;
          addSystemMessage documentUploadedText ] st.

Definition showSuccess (d : data) : state -> state :=
  block [ set_processingOverlay_display DisplayNone;
          set_successMessage_display DisplayFlex;
          setTimeout (ShowResults d) 2000%N ].

(** The handler once the request has settled. *)
Definition upload_settled (r : response) (st : state) : state :=
  match r with
  | NetworkError => uploadFailed st
  | Http ok body =>
      if negb ok then uploadFailed st
      else match body with
           | None => uploadFailed st
           | Some d =>
               block [ set_progressPercent 100;
                       setTimeout (ShowSuccess d) 1000%N ] st
           end
  end.

(** The [catch] clause of [sendMessage]: one of the canned responses. *)
Definition askFailed (aiBubble : nat) (st : state) : state :=
  let '(randomResponse, st) := drawRandom st in
  typeText typingPeriod aiBubble (responses randomResponse) st.

Definition sendMessage (st : state) : state :=
  let question := trim (chatInput_value (page st)) in
  if isEmpty question || isTyping st then st
  else
    let st := block [ addUserMessage question;
                      set_chatInput_value [];
                      set_isTyping true;
                      set_sendButton_disabled true ] st in
    let '(aiBubble, st) := createAIBubble st in
    if uriEncodable question then fetch (AskRequest aiBubble question) st
    else askFailed aiBubble st.

Definition ask_settled (aiBubble : nat) (r : response) (st : state)
  : state :=
  match r with
  | NetworkError => askFailed aiBubble st
  | Http ok body =>
      if negb ok then askFailed aiBubble st
      else match body with
           | None => askFailed aiBubble st
           | Some d =>
               typeText typingPeriod aiBubble
                 (orElse (answer d) noAnswerText) st
           end
  end.

Definition sendQuickPrompt (prompt : jsstring) (st : state) : state :=
  if chatInput_disabled (page st) then addSystemMessage uploadFirstText st
  else sendMessage (set_chatInput_value prompt st).

Definition clearChat : state -> state := clearChatWith chatClearedText.

Definition startNewSession : state -> state :=
  block [ set_uploadArea_display DisplayBlock;
          set_processingOverlay_display DisplayNone;
          set_successMessage_display DisplayNone;
          set_resultsContainer_display DisplayNone;
          set_fileInput_value [];
          clearChat;
          set_chatInput_disabled true;
          set_sendButton_disabled true;
          set_summaryContent summaryPlaceholder;
          addSystemMessage newSessionText;
          startSessionTimer ].

(** The page once the script has run and [DOMContentLoaded] has fired. *)
Definition load (e : environment) : state :=
  block [ set_chatInput_disabled true;
          set_sendButton_disabled true;
          startSessionTimer ] (loaded e 0%N []).

End Part000.

(** ** The event loop *)

Inductive script := script_js | part_000.

(** What can happen to the page: time passes, the user acts, a request
    settles, a timer fires.  The browser delivers no click to a disabled
    button and no key to a disabled input. *)
Inductive event :=
| Elapse (ms : N)
| FileChange (file : option jsstring)
| UserTypes (s : jsstring)
| ClickSend
| KeydownEnter (shiftKey : bool)
| QuickPrompt (prompt : jsstring)
| ClickClear
| ClickNewSession
| Response (id : nat) (r : response)
| TimerFires (id : nat).

Definition runCallback (t : timer) (st : state) : state :=
  match timer_callback t with
  | UpdateProgress progress seconds => Part000.updateProgress progress seconds st
  | Update progress resolve => Part000.update progress resolve st
  | ShowSuccess d => Part000.showSuccess d st
  | ShowResults d => Part000.showResults d st
  | TypeTick container text i => typeTick t container text i st
  | UpdateSessionTime => reschedule t UpdateSessionTime (updateSessionTime st)
  end.

(** A timer fires: it leaves the queue (an interval is put back by
    [reschedule]) and its callback runs, no earlier than it is due. *)
Definition fire (id : nat) (st : state) : state :=
  match takeTimer id (timers st) with
  | None => st
  | Some (t, rest) =>
      runCallback t (set_clock (N.max (clock st) (due t)) (set_timers rest st))
  end.

Definition sendMessage (v : script) : state -> state :=
  match v with
  | script_js => ScriptJs.sendMessage
  | part_000 => Part000.sendMessage
  end.

Definition sendQuickPrompt (v : script) : jsstring -> state -> state :=
  match v with
  | script_js => ScriptJs.sendQuickPrompt
  | part_000 => Part000.sendQuickPrompt
  end.

Definition clearChat (v : script) : state -> state :=
  match v with
  | script_js => ScriptJs.clearChat
  | part_000 => Part000.clearChat
  end.

Definition startNewSession (v : script) : state -> state :=
  match v with
  | script_js => ScriptJs.startNewSession
  | part_000 => Part000.startNewSession
  end.

Definition fileInput_change (v : script) : option jsstring -> state -> state :=
  match v with
  | script_js => ScriptJs.fileInput_change
  | part_000 => Part000.fileInput_change
  end.

Definition upload_settled (v : script) : response -> state -> state :=
  match v with
  | script_js => ScriptJs.upload_settled
  | part_000 => Part000.upload_settled
  end.

Definition ask_settled (v : script) : nat -> response -> state -> state :=
  match v with
  | script_js => ScriptJs.ask_settled
  | part_000 => Part000.ask_settled
  end.

Definition load (v : script) : environment -> state :=
  match v with
  | script_js => ScriptJs.load
  | part_000 => Part000.load
  end.

(** The [keydown] listener of the chat input. *)
Definition chatInput_keydown (v : script) (shiftKey : bool) (st : state)
  : state :=
  match v with
  | script_js => ScriptJs.sendMessage st
  | part_000 => if negb shiftKey then Part000.sendMessage st else st
  end.

(** A request settles: the awaiting handler resumes. *)
Definition settle (v : script) (id : nat) (r : response) (st : state)
  : state :=
  match takeRequest id (requests st) with
  | None => st
  | Some (rq, rest) =>
      let st := observe (Settled id r) (set_requests rest st) in
      match rq with
      | UploadRequest _ => upload_settled v r st
      | AskRequest aiBubble _ => ask_settled v aiBubble r st
      end
  end.

Definition handle (v : script) (ev : event) (st : state) : state :=
  match ev with
  | Elapse ms => set_clock (clock st + ms)%N st
  | FileChange file => fileInput_change v file st
  | UserTypes s =>
      if chatInput_disabled (page st) then st else set_chatInput_value s st
  | ClickSend =>
      if sendButton_disabled (page st) then st else sendMessage v st
  | KeydownEnter shiftKey =>
      if chatInput_disabled (page st) then st
      else chatInput_keydown v shiftKey st
  | QuickPrompt prompt => sendQuickPrompt v prompt st
  | ClickClear => clearChat v st
  | ClickNewSession => startNewSession v st
  | Response id r => settle v id r st
  | TimerFires id => fire id st
  end.

(** The states a page can be in: those that events lead to from the loaded
    page.  Timers may fire in any order here, which covers every schedule of
    a browser. *)
Inductive reachable (v : script) (e : environment) : state -> Prop :=
| reachable_load : reachable v e (load v e)
| reachable_step st ev :
    reachable v e st -> reachable v e (handle v ev st).

(** *** Timed runs

    A browser fires timers in the order in which they fall due.  [advance]
    lets the clock run to [T] and fires what falls due on the way;
    [run] plays a script of external events with their arrival times. *)
Definition earlier (a b : timer) : bool :=
  (due a <? due b)%N || ((due a =? due b)%N && (timer_id a <=? timer_id b)).

Fixpoint earliest (ts : list timer) : option timer :=
  match ts with
  | [] => None
  | t :: rest =>
      match earliest rest with
      | None => Some t
      | Some u => Some (if earlier t u then t else u)
      end
  end.

Fixpoint advance (fuel : nat) (T : N) (st : state) : state :=
  match fuel with
  | O => st
  | S fuel' =>
      match earliest (timers st) with
      | Some t =>
          if (due t <=? T)%N then advance fuel' T (fire (timer_id t) st)
          else st
      | None => st
      end
  end.

(** Nothing is left to fire up to time [T]. *)
Definition settledUntil (T : N) (st : state) : bool :=
  match earliest (timers st) with
  | Some t => (T <? due t)%N
  | None => true
  end.

Definition arrive (v : script) (fuel : nat) (T : N) (ev : event)
    (st : state) : state :=
  let st := advance fuel T st in
  handle v ev (set_clock (N.max (clock st) T) st).

Fixpoint run (v : script) (fuel : nat) (evs : list (N * event))
    (st : state) : state :=
  match evs with
  | [] => st
  | (T, ev) :: rest => run v fuel rest (arrive v fuel T ev st)
  end.

(** The fuel was enough: at every arrival all timers that had fallen due
    had fired. *)
Fixpoint punctual (v : script) (fuel : nat) (evs : list (N * event))
    (st : state) : bool :=
  match evs with
  | [] => true
  | (T, ev) :: rest =>
      settledUntil T (advance fuel T st)
      && punctual v fuel rest (arrive v fuel T ev st)
  end.

(** *** Reveals in progress *)

Definition isTick (t : timer) : bool :=
  match timer_callback t with
  | TypeTick _ _ _ => true
  | _ => false
  end.

Definition isAsk (r : nat * request) : bool :=
  match snd r with
  | AskRequest _ _ => true
  | UploadRequest _ => false
  end.

(** The reveal timers. *)
Definition reveals (st : state) : list timer :=
  List.filter isTick (timers st).

(** [n] consecutive firings of timer [id]. *)
Fixpoint fireTimes (n id : nat) (st : state) : state :=
  match n with
  | O => st
  | S n' => fireTimes n' id (fire id st)
  end.

Definition bubbleOf (e : element) : option content :=
  match e with
  | MessageUser b => Some b
  | MessageAi _ b => Some b
  | Markup _ _ => None
  end.

Definition bubble (container : nat) (st : state) : option content :=
  nodes st !! container ≫= bubbleOf.

(** ** Auxiliary definitions for the properties below *)

(** The interval timer of a reveal that is about to show the prefix of
    length [i]. *)
Definition tickTimer (id : nat) (period : N) (container : nat)
    (text : jsstring) (i : nat) (d : N) : timer :=
  {| timer_id := id; due := d; interval := Some period;
     timer_callback := TypeTick container text i |}.

(** A page on which the reveal has written [v] into its bubble and is about
    to show the prefix of length [i]. *)
Definition revealing (id : nat) (period : N) (container : nat)
    (text : jsstring) (base : state) (rest : list timer) (i : nat)
    (d now : N) (v : content) : state :=
  set_timers (tickTimer id period container text i d :: rest)
    (set_clock now (setBubble container v base)).

(** The page once that reveal is over. *)
Definition revealed (id : nat) (container : nat) (text : jsstring)
    (base : state) (rest : list timer) (now : N) : state :=
  set_sendButton_disabled false
    (set_isTyping false
       (set_timers (filter (fun t => timer_id t <> id) rest)
          (set_clock now
             (setBubble container
                (InnerHTML (renderMarkdown (env base) text)) base)))).

(** What the bubble shows [k] ticks after it showed [v], when the next
    prefix to show had length [i]. *)
Definition shownAfter (text : jsstring) (i k : nat) (v : content) : content :=
  match k with
  | O => v
  | S _ => TextContent (take (i + k - 1) text)
  end.

(** The constants on which the two variants differ. *)
Definition floorValue (v : script) : nat :=
  match v with
  | script_js => 0
  | part_000 => 10
  end.

Definition summaryDefault (v : script) : jsstring :=
  match v with
  | script_js => []
  | part_000 => Part000.documentProcessedText
  end.

Definition uploadFirstText (v : script) : jsstring :=
  match v with
  | script_js => ScriptJs.uploadFirstText
  | part_000 => Part000.uploadFirstText
  end.

Definition chatClearedText (v : script) : jsstring :=
  match v with
  | script_js => ScriptJs.chatClearedText
  | part_000 => Part000.chatClearedText
  end.

Definition typingPeriod (v : script) : N :=
  match v with
  | script_js => ScriptJs.typingPeriod
  | part_000 => Part000.typingPeriod
  end.

(** The responses on which the upload handler reaches its [catch] clause:
    the same in both variants. *)
Definition uploadFails (r : response) : bool :=
  match r with
  | Http true (Some _) => false
  | _ => true
  end.

(** The responses on which [sendMessage] reaches its [catch] clause. *)
Definition askFails (v : script) (r : response) : bool :=
  match v, r with
  | _, NetworkError => true
  | _, Http _ None => true
  | script_js, Http _ (Some _) => false
  | part_000, Http ok (Some _) => negb ok
  end.

(** The text that the [catch] clause of [sendMessage] reveals. *)
Definition fallbackText (v : script) (st : state) : jsstring :=
  match v with
  | script_js => ScriptJs.errorText
  | part_000 => Part000.responses (Math_random (env st) (randomCalls st))
  end.

(** A successful upload as the user sees it complete: in part_000 the two
    delayed callbacks follow the response. *)
Definition uploadShown (v : script) (id : nat) (d : data) (st : state)
  : state :=
  let st1 := handle v (Response id (Http true (Some d))) st in
  match v with
  | script_js => st1
  | part_000 => fire (S (nextTimer st)) (fire (nextTimer st) st1)
  end.

(** Chat submissions and their guards. *)
Definition isSubmission (ev : event) : bool :=
  match ev with
  | ClickSend | KeydownEnter _ | QuickPrompt _ => true
  | _ => false
  end.

Definition questionOf (ev : event) (st : state) : jsstring :=
  match ev with
  | QuickPrompt prompt => prompt
  | _ => chatInput_value (page st)
  end.

Definition chatDisabled (st : state) : bool :=
  chatInput_disabled (page st) && sendButton_disabled (page st).

Definition blocked (ev : event) (st : state) : bool :=
  chatDisabled st || isEmpty (trim (questionOf ev st)) || isTyping st.

(** Progress shows 100 only once a response has been observed. *)
Fixpoint fullOnlyAfterResponse (known : bool) (h : list obs) : bool :=
  match h with
  | [] => true
  | Settled _ _ :: h' => fullOnlyAfterResponse true h'
  | Progress n :: h' =>
      (if n =? 100 then known else true) && fullOnlyAfterResponse known h'
  | _ :: h' => fullOnlyAfterResponse known h'
  end.

Fixpoint nondecreasing (l : list nat) : bool :=
  match l with
  | a :: (b :: _) as rest => (a <=? b) && nondecreasing rest
  | _ => true
  end.

(** [n] firings of consecutively numbered timers, the first being [id]: a
    chain of [setTimeout] callbacks each of which schedules the next. *)
Fixpoint fireChain (n id : nat) (st : state) : state :=
  match n with
  | O => st
  | S n' => fireChain n' (S id) (fire id st)
  end.

(** The number of reveals in progress and of answers awaited. *)
Definition ticking (ts : list timer) : nat := length (List.filter isTick ts).

Definition asking (rs : list (nat * request)) : nat :=
  length (List.filter isAsk rs).

(** The typing flag is set exactly while an answer is awaited or revealed,
    and there is never more than one of either. *)
Definition singleReveal (st : state) : Prop :=
  ticking (timers st) + asking (requests st)
  = (if isTyping st then 1 else 0).

(** A reveal timer is an interval whose counter has not passed the end of
    its text. *)
Definition tickOk (t : timer) : Prop :=
  match timer_callback t with
  | TypeTick _ text i => is_Some (interval t) /\ i <= length text
  | _ => True
  end.

Definition revealInv (st : state) : Prop :=
  singleReveal st /\ Forall tickOk (timers st).

(** The handles of the scheduled timers are distinct and below the next
    handle to be given out. *)
Definition timerPool (next : nat) (ts : list timer) : Prop :=
  Forall (fun t => timer_id t < next) ts /\ NoDup (map timer_id ts).

(** The environment stays, and the timers form a pool. *)
Definition poolInv (e : environment) (st : state) : Prop :=
  env st = e /\ timerPool (nextTimer st) (timers st).

(** What the bubble of an assistant message can hold: nothing yet, a prefix
    shown by the reveal, or a rendered answer. *)
Definition robotContent (e : environment) (v : content) : Prop :=
  v = InnerHTML []
  \/ (exists s, v = TextContent s)
  \/ (exists text, v = InnerHTML (renderMarkdown e text)).

(** What a node of the chat can hold: user and system messages hold
    escaped text. *)
Definition nodeOk (e : environment) (el : element) : Prop :=
  match el with
  | MessageUser b => exists text, b = InnerHTML (escapeHtml text)
  | MessageAi FaInfoCircle b => exists text, b = InnerHTML (escapeHtml text)
  | MessageAi FaRobot b => robotContent e b
  | Markup _ _ => True
  end.

Definition isRobot (o : option element) : Prop :=
  exists b, o = Some (MessageAi FaRobot b).

(** Reveals and pending questions refer to assistant bubbles. *)
Definition targetsRobot (m : gmap nat element) (t : timer) : Prop :=
  match timer_callback t with
  | TypeTick container _ _ => isRobot (m !! container)
  | _ => True
  end.

Definition asksRobot (m : gmap nat element) (r : nat * request) : Prop :=
  match r.2 with
  | AskRequest aiBubble _ => isRobot (m !! aiBubble)
  | UploadRequest _ => True
  end.

Definition heapInv (e : environment) (m : gmap nat element) (next : nat)
    (ts : list timer) (rs : list (nat * request)) : Prop :=
  (forall id el, m !! id = Some el -> id < next /\ nodeOk e el)
  /\ Forall (targetsRobot m) ts
  /\ Forall (asksRobot m) rs.

Definition nodeInv (e : environment) (st : state) : Prop :=
  heapInv e (nodes st) (nextNode st) (timers st) (requests st).

(** The children of the chat are nodes that exist. *)
Definition below (next : nat) (children : list nat) : Prop :=
  Forall (fun id => id < next) children.

Definition childrenInv (st : state) : Prop :=
  below (nextNode st) (chatMessages st).

(** On a trace (latest observation first): whenever the upload request is
    issued, the observation just before it is the indicator showing 100. *)
Fixpoint fetchAfterFull (tr : list obs) : bool :=
  match tr with
  | [] => true
  | Fetch _ (UploadRequest _) :: rest =>
      match rest with
      | Progress n :: _ => (n =? 100) && fetchAfterFull rest
      | _ => false
      end
  | _ :: rest => fetchAfterFull rest
  end.

(** On a trace (latest observation first): whenever the indicator shows
    100, the observation just before it is a response that has settled. *)
Fixpoint fullAfterSettled (tr : list obs) : bool :=
  match tr with
  | [] => true
  | Progress n :: rest =>
      (if n =? 100
       then match rest with
            | Settled _ _ :: _ => true
            | _ => false
            end
       else true)
      && fullAfterSettled rest
  | _ :: rest => fullAfterSettled rest
  end.

(** The timers of script.js are those of reveals. *)
Definition scriptJsInv (st : state) : Prop :=
  fullAfterSettled (trace st) = true
  /\ Forall (fun t => isTick t = true) (timers st).

(** *** Sample pages *)

Definition blankDom : dom :=
  {| uploadArea_display := DisplayUnset;
     processingOverlay_display := DisplayUnset;
     successMessage_display := DisplayUnset;
     resultsContainer_display := DisplayUnset;
     progressPercent := 10; fileName_text := []; fileTime := 0;
     summaryContent := []; chatInput_disabled := true;
     chatInput_value := []; sendButton_disabled := true;
     fileInput_value := [] |}.

(** A page without the markdown library, whose chat starts with a welcome
    message and whose random numbers select the first canned response, then
    the second. *)
Definition plainEnv : environment :=
  {| window_marked := None;
     Math_random := fun n => match n with O => R0 | _ => R1 end;
     markup_dom := blankDom;
     markup_chat := [(true, lit "Welcome")];
     welcome_before := None; welcome_after := None |}.

Definition reportPdf : jsstring := lit "report.pdf".

Definition caseClosed : data :=
  {| summary := Some (lit "Case closed."); answer := None |}.

Definition johnDoe : data :=
  {| summary := None; answer := Some (lit "John Doe") |}.

Definition noFields : data := {| summary := None; answer := None |}.

Definition isSettled (o : obs) : bool :=
  match o with
  | Settled _ _ => true
  | _ => false
  end.

(** The one-shot timer of [simulateProgress] that is about to show
    [progress + 1]. *)
Definition updateTimer (id : nat) (progress : nat) (resolve : continuation)
    (d : N) : timer :=
  {| timer_id := id; due := d; interval := None;
     timer_callback := Update progress resolve |}.

(** What the upload handler shows once the request has settled. *)
Definition shownOnSettle (v : script) (r : response) : list obs :=
  match v, r with
  | _, Http true (Some _) => [Progress 100]
  | script_js, Http false (Some _) =>
      [Progress 100; Alert ScriptJs.uploadFailedText; Progress 0]
  | script_js, _ => [Alert ScriptJs.uploadFailedText; Progress 0]
  | part_000, _ => [Alert Part000.uploadFailedText; Progress 10]
  end.

(** Sample runs. *)
Definition question : jsstring := lit "Who is the suspect?".

(** part_000: a file is selected and the clock runs for 2.2 seconds; no
    response has arrived, the request has just been issued. *)
Definition rampOnly : state :=
  advance 200 2200
    (handle part_000 (FileChange (Some reportPdf)) (load part_000 plainEnv)).

(** part_000: an upload that succeeds after seven seconds. *)
Definition uploaded000 (d : data) : state :=
  run part_000 200
    [ (0%N, FileChange (Some reportPdf));
      (7000%N, Response 0 (Http true (Some d)));
      (11000%N, Elapse 0) ]
    (load part_000 plainEnv).

(** script.js: an upload that succeeds after three seconds. *)
Definition uploadedJs (d : data) : state :=
  run script_js 200
    [ (0%N, FileChange (Some reportPdf));
      (3000%N, Response 0 (Http true (Some d))) ]
    (load script_js plainEnv).

(** A question is put, and the request settles with [r] half a second
    later. *)
Definition asked (v : script) (T : N) (id : nat) (r : response)
    (st : state) : state :=
  run v 400
    [ (T, UserTypes question);
      ((T + 1)%N, ClickSend);
      ((T + 500)%N, Response id r) ]
    st.

(** ** Theme

    [applyTheme], [updateThemeIcon] and the click listener of the theme
    toggle are the same in both variants.  They touch the class list of
    [document.body], one key of [localStorage] and the opacity of the two
    icons of the toggle button, and nothing of the page state above.  The
    button may be missing from the page; when it is there it holds both
    icons. *)

Record themeState := {
  body_classList : gset jsstring;
  localStorage_theme : option jsstring;
  themeToggleBtn : bool;
  sunIcon_opacity : jsstring;
  moonIcon_opacity : jsstring }.

Definition darkMode : jsstring := lit "dark-mode".
Definition lightMode : jsstring := lit "light-mode".
Definition dark : jsstring := lit "dark".
Definition light : jsstring := lit "light".

Definition applyTheme (theme : jsstring) (ts : themeState) : themeState :=
  let classes := body_classList ts ∖ {[ darkMode; lightMode ]} in
  let classes :=
    if bool_decide (theme = dark) then classes ∪ {[ darkMode ]}
    else classes ∪ {[ lightMode ]} in
  {| body_classList := classes;
     localStorage_theme := Some theme;
     themeToggleBtn := themeToggleBtn ts;
     sunIcon_opacity := sunIcon_opacity ts;
     moonIcon_opacity := moonIcon_opacity ts |}.

Definition updateThemeIcon (theme : jsstring) (ts : themeState)
  : themeState :=
  if negb (themeToggleBtn ts) then ts
  else
    {| body_classList := body_classList ts;
       localStorage_theme := localStorage_theme ts;
       themeToggleBtn := themeToggleBtn ts;
       sunIcon_opacity :=
         if bool_decide (theme = dark) then lit "0" else lit "1";
       moonIcon_opacity :=
         if bool_decide (theme = dark) then lit "1" else lit "0" |}.

(** Loading the saved theme: [localStorage.getItem("theme") || "dark"]. *)
Definition loadTheme (ts : themeState) : themeState :=
  let savedTheme := orElse (localStorage_theme ts) dark in
  updateThemeIcon savedTheme (applyTheme savedTheme ts).

(** The click listener of the toggle; it is attached only when the button
    exists. *)
Definition themeToggle_click (ts : themeState) : themeState :=
  if negb (themeToggleBtn ts) then ts
  else
    let isDark := bool_decide (darkMode ∈ body_classList ts) in
    let newTheme := if isDark then light else dark in
    updateThemeIcon newTheme (applyTheme newTheme ts).

(** A page whose theme was set by the script to [theme]. *)
Definition themed (theme : jsstring) (ts : themeState) : themeState :=
  updateThemeIcon theme (applyTheme theme ts).

(** ** Reading rendered text back

    What the HTML parser makes of a string assigned to [innerHTML] of a
    [div], for strings that hold text and [<br>] elements only.  The input
    stream is preprocessed first: a CR LF pair and a lone CR each become one
    LF.  Then, in the data state of the tokenizer, [<br>] gives a line break
    element, an ampersand starts a character reference, and every other
    unit is a character token; the tree builder drops U+0000 and keeps the
    rest as text.  [fragmentText] is the text of the fragment so built, each
    line break element read as a newline.  It is partial: it answers only
    for strings with no other tag and no character reference other than
    the four that [escapeHtml] writes. *)
Definition unitCr : N := 13%N.
Definition unitNull : N := 0%N.
Definition unitHash : N := 35%N.

Fixpoint normalizeNewlines (s : jsstring) : jsstring :=
  match s with
  | [] => []
  | c :: rest =>
      if (c =? unitCr)%N then
        unitNewline ::
          match rest with
          | d :: rest' =>
              if (d =? unitNewline)%N then normalizeNewlines rest'
              else normalizeNewlines rest
          | [] => []
          end
      else c :: normalizeNewlines rest
  end.

Definition isAsciiAlphanumeric (c : N) : bool :=
  ((48 <=? c) && (c <=? 57) || (65 <=? c) && (c <=? 90)
   || (97 <=? c) && (c <=? 122))%N.

(** After an ampersand the tokenizer looks for a reference when an ASCII
    alphanumeric or a number sign follows. *)
Definition startsReference (s : jsstring) : bool :=
  match s with
  | c :: _ => isAsciiAlphanumeric c || (c =? unitHash)%N
  | [] => false
  end.

Fixpoint textOfTokens (fuel : nat) (s : jsstring) : option jsstring :=
  match fuel, s with
  | _, [] => Some []
  | O, _ :: _ => None
  | S fuel', c :: rest =>
      if (c =? unitLt)%N then
        match dropPrefix (lit "br>") rest with
        | Some rest' => option_map (cons unitNewline) (textOfTokens fuel' rest')
        | None => None
        end
      else if (c =? unitAmp)%N then
        match matchReference references rest with
        | Some (d, rest') => option_map (cons d) (textOfTokens fuel' rest')
        | None =>
            if startsReference rest then None
            else option_map (cons c) (textOfTokens fuel' rest)
        end
      else if (c =? unitNull)%N then textOfTokens fuel' rest
      else option_map (cons c) (textOfTokens fuel' rest)
  end.

Definition fragmentText (html : jsstring) : option jsstring :=
  let s := normalizeNewlines html in
  textOfTokens (length s) s.

(** What the parser makes of the units of a text that went through
    [escapeHtml] and the replacement of newlines: CR becomes LF and U+0000
    is lost. *)
Definition crToLf (c : N) : N :=
  if (c =? unitCr)%N then unitNewline else c.

Definition parserText (text : jsstring) : jsstring :=
  flat_map (fun c => if (c =? unitNull)%N then [] else [crToLf c]) text.

Definition noCrNull (text : jsstring) : bool :=
  forallb (fun c => negb ((c =? unitNull)%N || (c =? unitCr)%N)) text.

Definition isSpecial (c : N) : bool :=
  (c =? unitAmp)%N || (c =? unitLt)%N || (c =? unitGt)%N
  || (c =? unitNbsp)%N.

Definition noSpecial (text : jsstring) : bool :=
  forallb (fun c => negb (isSpecial c)) text.

(** A question as [sendMessage] sends it: not empty, no white space at
    either end. *)
Definition cleanQuestion (q : jsstring) : Prop :=
  q <> []
  /\ (forall c, head q = Some c -> isWhiteSpace c = false)
  /\ (forall c, last q = Some c -> isWhiteSpace c = false).

(** ** The progress indicator of script.js

    The amended claim about script.js as two functions of the event and
    the page it meets: what the event writes to the indicator, and what the
    indicator shows once the event has been handled.  Only the selection of
    a file and the settlement of an upload request write to it; a new
    session reloads the page, which shows the value of the markup again. *)
Definition progressOf (ev : event) (st : state) : list nat :=
  match ev with
  | FileChange (Some _) => [30]
  | Response id r =>
      match takeRequest id (requests st) with
      | Some (UploadRequest _, _) =>
          shownProgress (shownOnSettle script_js r)
      | _ => []
      end
  | _ => []
  end.

Definition progressAfter (ev : event) (st : state) : nat :=
  match ev with
  | ClickNewSession => progressPercent (markup_dom (env st))
  | _ =>
      match last (progressOf ev st) with
      | Some n => n
      | None => progressPercent (page st)
      end
  end.

(** A sequence of events, and what it writes to the indicator of
    script.js. *)
Definition handles (v : script) (evs : list event) (st : state) : state :=
  foldl (fun s ev => handle v ev s) st evs.

Fixpoint progressOfAll (evs : list event) (st : state) : list nat :=
  match evs with
  | [] => []
  | ev :: rest =>
      progressOf ev st ++ progressOfAll rest (handle script_js ev st)
  end.

(** More constants on which the two variants differ. *)
Definition answerDefault (v : script) : jsstring :=
  match v with
  | script_js => ScriptJs.noResponseText
  | part_000 => Part000.noAnswerText
  end.

Definition documentUploadedText (v : script) : jsstring :=
  match v with
  | script_js => ScriptJs.documentUploadedText
  | part_000 => Part000.documentUploadedText
  end.

(** ** Further invariants *)

(** What the script shows and sends, and the progress its timers carry. *)
Definition obsOk (v : script) (o : obs) : Prop :=
  match o with
  | Progress n => floorValue v <= n <= 100
  | Fetch _ (AskRequest _ q) => cleanQuestion q
  | _ => True
  end.

Definition timerRange (t : timer) : Prop :=
  match timer_callback t with
  | UpdateProgress progress _ => 10 <= progress < 80
  | Update progress _ => 80 <= progress <= 100
  | _ => True
  end.

Definition traceInv (v : script) (st : state) : Prop :=
  Forall (obsOk v) (trace st) /\ Forall timerRange (timers st).

(** An upload has succeeded. *)
Definition isSuccess (o : obs) : bool :=
  match o with
  | Settled _ (Http true (Some _)) => true
  | _ => false
  end.

Definition uploadSucceeded (st : state) : bool :=
  existsb isSuccess (trace st).

(** Before any upload has succeeded in part_000: the chat controls are
    disabled, nothing is asked or revealed, no callback of a successful
    upload is scheduled, and the chat holds markup and notices only. *)
Definition quietTimer (t : timer) : Prop :=
  match timer_callback t with
  | UpdateProgress _ _ | Update _ _ | UpdateSessionTime => True
  | _ => False
  end.

Definition quietNode (el : element) : Prop :=
  match el with
  | Markup _ _ | MessageAi FaInfoCircle _ => True
  | _ => False
  end.

Definition quietObs (o : obs) : Prop :=
  match o with
  | Fetch _ (AskRequest _ _) => False
  | _ => True
  end.

Definition gated (st : state) : Prop :=
  chatInput_disabled (page st) = true
  /\ sendButton_disabled (page st) = true
  /\ isTyping st = false
  /\ Forall quietTimer (timers st)
  /\ Forall (fun r => isAsk r = false) (requests st)
  /\ map_Forall (fun _ el => quietNode el) (nodes st)
  /\ Forall quietObs (trace st).

Definition gatedInv (st : state) : Prop :=
  uploadSucceeded st = false -> gated st.

(** The intervals that [startSessionTimer] has set. *)
Definition isSessionClock (t : timer) : bool :=
  match timer_callback t with
  | UpdateSessionTime => true
  | _ => false
  end.

Definition sessionClocks (ts : list timer) : nat :=
  length (List.filter isSessionClock ts).

Definition clockOk (t : timer) : Prop :=
  isSessionClock t = true -> is_Some (interval t).

Definition newSessions (ev : event) : nat :=
  match ev with
  | ClickNewSession => 1
  | _ => 0
  end.

(** The shape of the chat log: which entries are questions of the user and
    which are assistant bubbles. *)
Inductive shape := ShapeUser | ShapeRobot | ShapeOther.

Definition shapeOf (el : element) : shape :=
  match el with
  | MessageUser _ => ShapeUser
  | MessageAi FaRobot _ => ShapeRobot
  | _ => ShapeOther
  end.

Definition logShapes (m : gmap nat element) (children : list nat)
  : list shape :=
  map shapeOf (omap (fun id => m !! id) children).

(** Every question is followed at once by its assistant bubble, and no
    assistant bubble stands without its question. *)
Fixpoint paired (l : list shape) : bool :=
  match l with
  | [] => true
  | ShapeUser :: ShapeRobot :: rest => paired rest
  | ShapeUser :: _ => false
  | ShapeRobot :: _ => false
  | ShapeOther :: rest => paired rest
  end.

Definition pairedInv (st : state) : Prop :=
  paired (logShapes (nodes st) (chatMessages st)) = true.

(** A sample theme state: the markup sets no class and no opacity, nothing
    is stored. *)
Definition freshTheme : themeState :=
  {| body_classList := {[ lit "app" ]};
     localStorage_theme := None;
     themeToggleBtn := true;
     sunIcon_opacity := [];
     moonIcon_opacity := [] |}.

(** The same page when an earlier version of the site has stored a theme
    that this script does not know. *)
Definition sepiaTheme : themeState :=
  {| body_classList := {[ lit "app" ]};
     localStorage_theme := Some (lit "sepia");
     themeToggleBtn := true;
     sunIcon_opacity := [];
     moonIcon_opacity := [] |}.

(** * Properties *)

(** Case analysis on the conditions of a handler, the typing flag apart. *)
Ltac case_cond :=
  repeat match goal with
  | |- context [if ?c then _ else _] =>
      lazymatch c with
      | isTyping _ => fail
      | _ => destruct c
      end
  end.

(** ** Strings *)

Example trim_example : trim (lit "  hi there  ") = lit "hi there".
Proof. reflexivity. Qed.

Example trim_blank : isEmpty (trim (lit "   ")) = true.
Proof. reflexivity. Qed.

Example uriEncodable_pair : uriEncodable [55357%N; 56516%N] = true.
Proof. reflexivity. Qed.

Example uriEncodable_lone : uriEncodable [97%N; 55357%N] = false.
Proof. reflexivity. Qed.

Example escapeHtml_example :
  escapeHtml (lit "<b>a & b</b>") = lit "&lt;b&gt;a &amp; b&lt;/b&gt;".
Proof. reflexivity. Qed.

(** ** Escaping *)

Section Escaping.

Local Open Scope N_scope.

Lemma escapeHtml_cons c text :
  escapeHtml (c :: text) = escapeUnit c ++ escapeHtml text.
Proof. reflexivity. Qed.

(** The four ways a code unit is escaped. *)
Lemma escapeUnit_cases c :
  (c = unitAmp /\ escapeUnit c = lit "&amp;")
  \/ (c = unitLt /\ escapeUnit c = lit "&lt;")
  \/ (c = unitGt /\ escapeUnit c = lit "&gt;")
  \/ (c = unitNbsp /\ escapeUnit c = lit "&nbsp;")
  \/ (c <> unitAmp /\ c <> unitLt /\ escapeUnit c = [c]).
Proof.
  unfold escapeUnit.
  destruct (N.eqb_spec c unitAmp); [tauto|].
  destruct (N.eqb_spec c unitLt); [tauto|].
  destruct (N.eqb_spec c unitGt); [tauto|].
  destruct (N.eqb_spec c unitNbsp); tauto.
Qed.

Lemma escapeHtml_no_tag text :
  existsb (fun c => c =? unitLt) (escapeHtml text) = false.
Proof.
  induction text as [|c text IH]; [reflexivity|].
  rewrite escapeHtml_cons, existsb_app, IH, orb_false_r.
  destruct (escapeUnit_cases c)
    as [[_ ->]|[[_ ->]|[[_ ->]|[[_ ->]|(_ & Hlt & ->)]]]];
    try reflexivity.
  cbn. rewrite orb_false_r. now apply N.eqb_neq.
Qed.

Lemma decodeReferences_escapeHtml text : forall fuel,
  (length (escapeHtml text) <= fuel)%nat ->
  decodeReferences fuel (escapeHtml text) = text.
Proof.
  induction text as [|c text IH]; intros fuel Hfuel.
  - destruct fuel; reflexivity.
  - rewrite escapeHtml_cons in *. rewrite length_app in Hfuel.
    destruct (escapeUnit_cases c)
      as [[-> E]|[[-> E]|[[-> E]|[[-> E]|(Hamp & _ & E)]]]];
      rewrite E in *; cbn in Hfuel;
      (destruct fuel as [|fuel]; [lia|]); cbn.
    1-4: f_equal; apply IH; lia.
    apply N.eqb_neq in Hamp. rewrite Hamp.
    f_equal. apply IH. lia.
Qed.

(** Escaped text holds no markup: the parser reads it back as the very
    text that was escaped. *)
Lemma parsedText_escapeHtml text :
  parsedText (escapeHtml text) = Some text.
Proof.
  unfold parsedText. rewrite escapeHtml_no_tag.
  f_equal. now apply decodeReferences_escapeHtml.
Qed.

End Escaping.

(** ** Timed runs are runs *)

Lemma reachable_fire v e id st : reachable v e st -> reachable v e (fire id st).
Proof. intros H. exact (reachable_step v e st (TimerFires id) H). Qed.

Lemma reachable_advance v e fuel T : forall st,
  reachable v e st -> reachable v e (advance fuel T st).
Proof.
  induction fuel as [|fuel IH]; intros st H; [exact H|].
  cbn [advance]. destruct (earliest (timers st)) as [t|]; [|exact H].
  destruct (due t <=? T)%N; [|exact H].
  apply IH. now apply reachable_fire.
Qed.

Lemma reachable_wait v e T st :
  reachable v e st -> reachable v e (set_clock (N.max (clock st) T) st).
Proof.
  intros H.
  replace (N.max (clock st) T)
    with (clock st + (N.max (clock st) T - clock st))%N by lia.
  exact (reachable_step v e st (Elapse _) H).
Qed.

Lemma reachable_run v e fuel evs : forall st,
  reachable v e st -> reachable v e (run v fuel evs st).
Proof.
  induction evs as [|[T ev] evs IH]; intros st H; [exact H|].
  cbn [run]. apply IH. unfold arrive.
  apply reachable_step, reachable_wait, reachable_advance, H.
Qed.

(** ** More on escaping and rendering *)

Section Rendering.

Local Open Scope N_scope.

Lemma escapeUnit_special c :
  isSpecial c = true ->
  exists name, escapeUnit c = unitAmp :: name /\ name <> [].
Proof.
  unfold isSpecial, escapeUnit.
  destruct (N.eqb_spec c unitAmp); [intros _; now eexists|].
  destruct (N.eqb_spec c unitLt); [intros _; now eexists|].
  destruct (N.eqb_spec c unitGt); [intros _; now eexists|].
  destruct (N.eqb_spec c unitNbsp); [intros _; now eexists|].
  discriminate.
Qed.

Lemma escapeUnit_plain c : isSpecial c = false -> escapeUnit c = [c].
Proof.
  unfold isSpecial, escapeUnit.
  destruct (c =? unitAmp); [discriminate|].
  destruct (c =? unitLt); [discriminate|].
  destruct (c =? unitGt); [discriminate|].
  destruct (c =? unitNbsp); [discriminate|reflexivity].
Qed.

Lemma escapeUnit_clean c :
  Forall (fun d => d <> unitLt /\ d <> unitGt /\ d <> unitNbsp)
    (escapeUnit c).
Proof.
  unfold escapeUnit.
  destruct (N.eqb_spec c unitAmp);
    [repeat constructor; discriminate|].
  destruct (N.eqb_spec c unitLt);
    [repeat constructor; discriminate|].
  destruct (N.eqb_spec c unitGt);
    [repeat constructor; discriminate|].
  destruct (N.eqb_spec c unitNbsp);
    [repeat constructor; discriminate|].
  repeat constructor; assumption.
Qed.

Lemma escapeHtml_length text :
  (length text <= length (escapeHtml text))%nat.
Proof.
  induction text as [|c text IH]; [reflexivity|].
  rewrite escapeHtml_cons, length_app. cbn [length].
  destruct (isSpecial c) eqn:Hc.
  - destruct (escapeUnit_special c Hc) as (name & -> & _). cbn [length]. lia.
  - rewrite (escapeUnit_plain c Hc). cbn [length]. lia.
Qed.

(** X5: [escapeHtml] is injective, so two different texts are never shown
    as the same markup; its result holds no less-than sign, no greater-than
    sign and no no-break space; and escaping a concatenation is the
    concatenation of the escaped parts. *)
Theorem escapeHtml_injective a b :
  (escapeHtml a = escapeHtml b <-> a = b)
  /\ Forall (fun d => d <> unitLt /\ d <> unitGt /\ d <> unitNbsp)
       (escapeHtml a)
  /\ escapeHtml (a ++ b) = escapeHtml a ++ escapeHtml b.
Proof.
  split; [|split].
  - split; [|now intros ->]. intros Heq.
    pose proof (parsedText_escapeHtml a) as Ha.
    rewrite Heq, parsedText_escapeHtml in Ha. congruence.
  - induction a as [|c a IH]; [constructor|].
    rewrite escapeHtml_cons. apply Forall_app.
    split; [apply escapeUnit_clean|exact IH].
  - apply flat_map_app.
Qed.

Lemma noSpecial_escapeHtml text :
  noSpecial (escapeHtml text) = noSpecial text.
Proof.
  unfold noSpecial. induction text as [|c text IH]; [reflexivity|].
  rewrite escapeHtml_cons, forallb_app, IH. cbn [forallb].
  destruct (isSpecial c) eqn:Hc.
  - destruct (escapeUnit_special c Hc) as (name & -> & _).
    reflexivity.
  - rewrite (escapeUnit_plain c Hc). cbn [forallb]. now rewrite Hc.
Qed.

Lemma escapeHtml_fixed text :
  escapeHtml text = text <-> noSpecial text = true.
Proof.
  unfold noSpecial. induction text as [|c text IH]; [easy|].
  rewrite escapeHtml_cons. cbn [forallb].
  destruct (isSpecial c) eqn:Hc.
  - split; [|discriminate]. intros Heq. exfalso.
    destruct (escapeUnit_special c Hc) as (name & Hname & Hne).
    rewrite Hname in Heq. injection Heq as Hhead Htail.
    pose proof (escapeHtml_length text) as Hlen.
    apply (f_equal (@length N)) in Htail. rewrite length_app in Htail.
    destruct name; [contradiction|]. cbn [length] in Htail. lia.
  - rewrite (escapeUnit_plain c Hc). cbn [negb andb app].
    rewrite <- IH. split; [now intros [= ->]|now intros ->].
Qed.

(** X6: escaping is not idempotent.  A text is left as it is exactly when
    it holds none of the four escaped units, and escaping a second time
    changes the result exactly when the first escaping had something to
    escape: each ampersand that it wrote is escaped again. *)
Theorem escapeHtml_twice text :
  (escapeHtml text = text <-> noSpecial text = true)
  /\ (escapeHtml (escapeHtml text) = escapeHtml text
      <-> noSpecial text = true).
Proof.
  split; [apply escapeHtml_fixed|].
  rewrite escapeHtml_fixed. now rewrite noSpecial_escapeHtml.
Qed.

Lemma replaceNewlines_cons c s :
  replaceNewlines (c :: s)
  = (if c =? unitNewline then lit "<br>" else [c]) ++ replaceNewlines s.
Proof. reflexivity. Qed.

(** After the replacement of newlines no LF is left, so every CR stands
    alone and preprocessing turns each into one LF. *)
Lemma replaceNewlines_no_newline s :
  Forall (fun c => c <> unitNewline) (replaceNewlines s).
Proof.
  induction s as [|c s IH]; [constructor|].
  rewrite replaceNewlines_cons. apply Forall_app. split; [|exact IH].
  destruct (N.eqb_spec c unitNewline).
  - repeat constructor; discriminate.
  - now repeat constructor.
Qed.

Lemma normalizeNewlines_lone s :
  Forall (fun c => c <> unitNewline) s ->
  normalizeNewlines s = map crToLf s.
Proof.
  induction 1 as [|c s Hc Hs IH]; [reflexivity|].
  cbn [normalizeNewlines map]. unfold crToLf at 1.
  destruct (c =? unitCr); [|now rewrite IH].
  f_equal. destruct Hs as [|d s Hd Hs]; [reflexivity|].
  apply N.eqb_neq in Hd. now rewrite Hd.
Qed.

(** The markup of one unit of the text, as the tokenizer meets it. *)
Lemma rendered_cons c text :
  map crToLf (replaceNewlines (escapeHtml (c :: text)))
  = map crToLf (replaceNewlines (escapeUnit c))
    ++ map crToLf (replaceNewlines (escapeHtml text)).
Proof.
  rewrite escapeHtml_cons. unfold replaceNewlines.
  now rewrite flat_map_app, map_app.
Qed.

(** The tokens of one escaped unit. *)
Lemma textOfTokens_reference name d fuel rest :
  In (name, d) references ->
  textOfTokens (S fuel) (unitAmp :: name ++ rest)
  = option_map (cons d) (textOfTokens fuel rest).
Proof.
  intros [[= <- <-]|[[= <- <-]|[[= <- <-]|[[= <- <-]|[]]]]]; reflexivity.
Qed.

Lemma textOfTokens_break fuel rest :
  textOfTokens (S fuel) (lit "<br>" ++ rest)
  = option_map (cons unitNewline) (textOfTokens fuel rest).
Proof. reflexivity. Qed.

Lemma textOfTokens_null fuel rest :
  textOfTokens (S fuel) (unitNull :: rest) = textOfTokens fuel rest.
Proof. reflexivity. Qed.

Lemma textOfTokens_plain c fuel rest :
  c <> unitLt -> c <> unitAmp -> c <> unitNull ->
  textOfTokens (S fuel) (c :: rest)
  = option_map (cons c) (textOfTokens fuel rest).
Proof.
  intros Hlt%N.eqb_neq Hamp%N.eqb_neq Hnull%N.eqb_neq.
  cbn [textOfTokens]. now rewrite Hlt, Hamp, Hnull.
Qed.

(** How one unit of the text is written and read back. *)
Lemma rendered_unit c :
  (exists name d,
     In (name, d) references /\ c = d
     /\ map crToLf (replaceNewlines (escapeUnit c)) = unitAmp :: name
     /\ parserText [c] = [c])
  \/ (c = unitNewline
      /\ map crToLf (replaceNewlines (escapeUnit c)) = lit "<br>"
      /\ parserText [c] = [c])
  \/ (c = unitCr
      /\ map crToLf (replaceNewlines (escapeUnit c)) = [unitNewline]
      /\ parserText [c] = [unitNewline])
  \/ (c = unitNull
      /\ map crToLf (replaceNewlines (escapeUnit c)) = [unitNull]
      /\ parserText [c] = [])
  \/ (c <> unitLt /\ c <> unitAmp /\ c <> unitNull
      /\ map crToLf (replaceNewlines (escapeUnit c)) = [c]
      /\ parserText [c] = [c]).
Proof.
  destruct (N.eqb_spec c unitAmp) as [->|Hamp].
  { left. exists (lit "amp;"), unitAmp. repeat split. now left. }
  destruct (N.eqb_spec c unitLt) as [->|Hlt].
  { left. exists (lit "lt;"), unitLt. repeat split. right. now left. }
  destruct (N.eqb_spec c unitGt) as [->|Hgt].
  { left. exists (lit "gt;"), unitGt. repeat split. do 2 right. now left. }
  destruct (N.eqb_spec c unitNbsp) as [->|Hnbsp].
  { left. exists (lit "nbsp;"), unitNbsp. repeat split.
    do 3 right. now left. }
  destruct (N.eqb_spec c unitNewline) as [->|Hnl].
  { right. left. repeat split. }
  destruct (N.eqb_spec c unitCr) as [->|Hcr].
  { do 2 right. left. repeat split. }
  destruct (N.eqb_spec c unitNull) as [->|Hnull].
  { do 3 right. left. repeat split. }
  do 4 right. do 3 (split; [assumption|]).
  assert (Hunit : escapeUnit c = [c]).
  { apply escapeUnit_plain. unfold isSpecial.
    apply N.eqb_neq in Hamp, Hlt, Hgt, Hnbsp.
    now rewrite Hamp, Hlt, Hgt, Hnbsp. }
  rewrite Hunit. unfold parserText, replaceNewlines, crToLf.
  cbn [flat_map map app].
  apply N.eqb_neq in Hnl, Hcr, Hnull. rewrite Hnl, Hnull.
  cbn [flat_map map app]. now rewrite Hcr.
Qed.

Lemma parserText_cons c text :
  parserText (c :: text) = parserText [c] ++ parserText text.
Proof. unfold parserText. cbn [flat_map]. now rewrite app_nil_r. Qed.

Lemma textOfTokens_unit c text fuel :
  (length (map crToLf (replaceNewlines (escapeUnit c))
           ++ map crToLf (replaceNewlines (escapeHtml text))) <= fuel)%nat ->
  (forall fuel',
     (length (map crToLf (replaceNewlines (escapeHtml text))) <= fuel')%nat ->
     textOfTokens fuel' (map crToLf (replaceNewlines (escapeHtml text)))
     = Some (parserText text)) ->
  textOfTokens fuel
    (map crToLf (replaceNewlines (escapeUnit c))
     ++ map crToLf (replaceNewlines (escapeHtml text)))
  = Some (parserText (c :: text)).
Proof.
  intros Hfuel IH. rewrite length_app in Hfuel. rewrite parserText_cons.
  destruct (rendered_unit c)
    as [(name & d & Hin & -> & Hr & ->)
       |[(-> & Hr & ->)|[(-> & Hr & ->)|[(-> & Hr & ->)
       |(Hlt & Hamp & Hnull & Hr & ->)]]]];
    rewrite Hr in *.
  - cbn [length app] in *. destruct fuel as [|fuel]; [lia|].
    rewrite (textOfTokens_reference name d _ _ Hin).
    rewrite IH by lia. reflexivity.
  - change (length (lit "<br>")) with 4%nat in Hfuel.
    destruct fuel as [|fuel]; [lia|].
    rewrite textOfTokens_break. rewrite IH by lia. reflexivity.
  - cbn [length app] in *. destruct fuel as [|fuel]; [lia|].
    rewrite textOfTokens_plain by discriminate.
    rewrite IH by lia. reflexivity.
  - cbn [length app] in *. destruct fuel as [|fuel]; [lia|].
    rewrite textOfTokens_null. apply IH. lia.
  - cbn [length app] in *. destruct fuel as [|fuel]; [lia|].
    rewrite textOfTokens_plain by assumption.
    rewrite IH by lia. reflexivity.
Qed.

Lemma textOfTokens_rendered text : forall fuel,
  (length (map crToLf (replaceNewlines (escapeHtml text))) <= fuel)%nat ->
  textOfTokens fuel (map crToLf (replaceNewlines (escapeHtml text)))
  = Some (parserText text).
Proof.
  induction text as [|c text IH]; intros fuel Hfuel.
  - now destruct fuel.
  - rewrite rendered_cons in *. now apply textOfTokens_unit.
Qed.

Lemma parserText_unit c :
  parserText [c] = if c =? unitNull then [] else [crToLf c].
Proof. unfold parserText. cbn [flat_map]. apply app_nil_r. Qed.

Lemma parserText_length text :
  (length (parserText text) <= length text)%nat.
Proof.
  induction text as [|c text IH]; [reflexivity|].
  rewrite parserText_cons, parserText_unit, length_app.
  destruct (c =? unitNull); cbn [length]; lia.
Qed.

Lemma parserText_fixed text :
  parserText text = text <-> noCrNull text = true.
Proof.
  unfold noCrNull. induction text as [|c text IH]; [easy|].
  rewrite parserText_cons, parserText_unit. cbn [forallb].
  pose proof (parserText_length text) as Hlen.
  destruct (N.eqb_spec c unitNull) as [->|Hnull].
  - cbn. split; [|discriminate]. intros Heq.
    apply (f_equal (@length N)) in Heq. cbn [length] in Heq. lia.
  - unfold crToLf. destruct (N.eqb_spec c unitCr) as [->|Hcr].
    + cbn. split; discriminate.
    + cbn [orb negb andb app]. rewrite <- IH.
      split; [now intros [= ->]|now intros ->].
Qed.

(** X7: without the markdown library, what [renderMarkdown] returns is
    read by the HTML parser as text and line break elements only, one line
    break for each newline of the input.  The text of the fragment, each
    line break read as a newline, is the input with every CR turned into LF
    and every U+0000 dropped, as the parser does with any text; so markup
    characters read back as themselves, and the fragment shows exactly the
    input if and only if the input holds neither CR nor U+0000. *)
Theorem renderMarkdown_fallback_round_trip e text :
  window_marked e = None ->
  fragmentText (renderMarkdown e text) = Some (parserText text)
  /\ (parserText text = text <-> noCrNull text = true)
  /\ (noCrNull text = true ->
      fragmentText (renderMarkdown e text) = Some text).
Proof.
  intros Hmarked.
  assert (Hfrag : fragmentText (renderMarkdown e text)
                  = Some (parserText text)).
  { unfold renderMarkdown, fragmentText. rewrite Hmarked. cbv zeta.
    rewrite normalizeNewlines_lone by apply replaceNewlines_no_newline.
    now apply textOfTokens_rendered. }
  split; [exact Hfrag|]. split; [apply parserText_fixed|].
  intros Hclean. rewrite Hfrag. f_equal. now apply parserText_fixed.
Qed.

Lemma renderMarkdown_fallback_round_trip_witness :
  let text := lit "a < b" ++ [unitNewline] ++ lit "<br>&" in
  let dos := lit "a" ++ [unitCr; unitNewline] ++ lit "b" in
  renderMarkdown plainEnv text = lit "a &lt; b<br>&lt;br&gt;&amp;"
  /\ fragmentText (renderMarkdown plainEnv text) = Some text
  /\ fragmentText (renderMarkdown plainEnv dos)
     = Some (lit "a" ++ [unitNewline; unitNewline] ++ lit "b").
Proof.
  cbv zeta. split; [reflexivity|]. split.
  - apply (renderMarkdown_fallback_round_trip plainEnv
             (lit "a < b" ++ [unitNewline] ++ lit "<br>&"));
      reflexivity.
  - apply (proj1 (renderMarkdown_fallback_round_trip plainEnv
                    (lit "a" ++ [unitCr; unitNewline] ++ lit "b")
                    eq_refl)).
Defined.

End Rendering.

(** ** Trimming *)

Section Trimming.

Lemma trimStart_head s c :
  head (trimStart s) = Some c -> isWhiteSpace c = false.
Proof.
  induction s as [|d s IH]; [discriminate|]. cbn [trimStart].
  destruct (isWhiteSpace d) eqn:Hd; [exact IH|].
  cbn. now intros [= <-].
Qed.

Lemma trimStart_clean s :
  (forall c, head s = Some c -> isWhiteSpace c = false) ->
  trimStart s = s.
Proof.
  destruct s as [|d s]; [reflexivity|]. intros Hhead. cbn [trimStart].
  now rewrite (Hhead d eq_refl).
Qed.

Lemma trimStart_snoc s c :
  isWhiteSpace c = false -> exists l, trimStart (s ++ [c]) = l ++ [c].
Proof.
  intros Hc. induction s as [|d s IH].
  - exists []. cbn. now rewrite Hc.
  - cbn [app trimStart]. destruct (isWhiteSpace d); [exact IH|].
    now exists (d :: s).
Qed.

Lemma trimStart_blank s :
  isEmpty (trimStart s) = forallb isWhiteSpace s.
Proof.
  induction s as [|d s IH]; [reflexivity|]. cbn [trimStart forallb].
  now destruct (isWhiteSpace d).
Qed.

Lemma head_of_rev {A} (l : list A) : head (rev l) = last l.
Proof.
  induction l as [|x l _] using rev_ind; [reflexivity|].
  now rewrite rev_unit, last_snoc.
Qed.

Lemma last_of_rev {A} (l : list A) : last (rev l) = head l.
Proof. now rewrite <- head_of_rev, rev_involutive. Qed.

(** [trim] keeps the first unit that is no white space. *)
Lemma trim_keeps_head s c r :
  trimStart s = c :: r -> exists r', trim s = c :: r'.
Proof.
  intros Hs. unfold trim, trimEnd. rewrite Hs. cbn [rev].
  assert (Hc : isWhiteSpace c = false)
    by (apply (trimStart_head s); now rewrite Hs).
  destruct (trimStart_snoc (rev r) c Hc) as (l & ->).
  rewrite rev_unit. now eexists.
Qed.

Lemma trim_head s c : head (trim s) = Some c -> isWhiteSpace c = false.
Proof.
  destruct (trimStart s) as [|d r] eqn:Hs.
  - unfold trim, trimEnd. rewrite Hs. discriminate.
  - destruct (trim_keeps_head s d r Hs) as (r' & ->).
    intros [= <-]. apply (trimStart_head s). now rewrite Hs.
Qed.

Lemma trim_last s c : last (trim s) = Some c -> isWhiteSpace c = false.
Proof.
  unfold trim, trimEnd. rewrite last_of_rev. apply trimStart_head.
Qed.

Lemma trim_all_blank s : isEmpty (trim s) = forallb isWhiteSpace s.
Proof.
  rewrite <- trimStart_blank.
  destruct (trimStart s) as [|d r] eqn:Hs.
  - unfold trim, trimEnd. now rewrite Hs.
  - now destruct (trim_keeps_head s d r Hs) as (r' & ->).
Qed.

Lemma trim_trim s : trim (trim s) = trim s.
Proof.
  unfold trim at 1. rewrite (trimStart_clean (trim s)) by apply trim_head.
  unfold trimEnd. rewrite trimStart_clean; [apply rev_involutive|].
  intros c. rewrite head_of_rev. apply trim_last.
Qed.

Lemma trim_cleanQuestion s :
  isEmpty (trim s) = false -> cleanQuestion (trim s).
Proof.
  intros Hne. split; [|split].
  - intros Heq. now rewrite Heq in Hne.
  - apply trim_head.
  - apply trim_last.
Qed.

End Trimming.

(** ** The chat log *)

Lemma chatLog_appendChild e st :
  chatLog (snd (appendChild e st)) =
  omap (fun id => <[nextNode st := e]> (nodes st) !! id) (chatMessages st)
  ++ [e].
Proof.
  unfold chatLog. cbn. rewrite omap_app. cbn.
  now rewrite lookup_insert_eq.
Qed.

Lemma last_chatLog_appendChild e st :
  last (chatLog (snd (appendChild e st))) = Some e.
Proof. rewrite chatLog_appendChild. apply last_snoc. Qed.

(** ** The reveal effect *)

Section Reveal.

Variables (id : nat) (period : N) (container : nat) (text : jsstring).

Lemma setBubble_twice v w st :
  setBubble container v (setBubble container w st)
  = setBubble container v st.
Proof.
  unfold setBubble. cbn [nodes set_nodes]. rewrite alter_alter_eq.
  rewrite (alter_ext (writeBubble v ∘ writeBubble w) (writeBubble v))
    by (intros [] _; reflexivity).
  reflexivity.
Qed.

Lemma typeText_revealing st :
  typeText period container text st
  = revealing (nextTimer st) period container text
      (set_nextTimer (S (nextTimer st)) st) (timers st) 0
      (clock st + period)%N (clock st) (InnerHTML []).
Proof. reflexivity. Qed.

Lemma fire_revealing_step base rest i d now v :
  i < length text ->
  fire id (revealing id period container text base rest i d now v)
  = revealing id period container text base rest (S i) (d + period)%N
      (N.max now d) (TextContent (take i text)).
Proof.
  intros Hi. unfold fire, revealing, tickTimer. cbn [timers set_timers].
  cbn [takeTimer timer_id]. rewrite Nat.eqb_refl.
  unfold runCallback. cbn [timer_callback]. unfold typeTick, scrollBottom. cbv zeta.
  assert ((length text <? S i) = false) as -> by (apply Nat.ltb_ge; lia).
  unfold reschedule. cbn [interval].
  rewrite <- (setBubble_twice (TextContent (take i text)) v base).
  reflexivity.
Qed.

Lemma fire_revealing_last base rest i d now v :
  length text <= i ->
  fire id (revealing id period container text base rest i d now v)
  = revealed id container text base rest (N.max now d).
Proof.
  intros Hi. unfold fire, revealing, tickTimer. cbn [timers set_timers].
  cbn [takeTimer timer_id]. rewrite Nat.eqb_refl.
  unfold runCallback. cbn [timer_callback]. unfold typeTick, scrollBottom. cbv zeta.
  assert ((length text <? S i) = true) as -> by (apply Nat.ltb_lt; lia).
  unfold revealed.
  rewrite <- (setBubble_twice (InnerHTML (renderMarkdown (env base) text))
                (TextContent (take i text)) base).
  rewrite <- (setBubble_twice (TextContent (take i text)) v base).
  reflexivity.
Qed.

(** [k] ticks into the reveal the interval is still scheduled and the
    bubble shows the last prefix written. *)
Lemma fireTimes_revealing base rest k : forall i d now v,
  i + k <= length text ->
  exists d' now',
    fireTimes k id (revealing id period container text base rest i d now v)
    = revealing id period container text base rest (i + k) d' now'
        (shownAfter text i k v).
Proof.
  induction k as [|k IH]; intros i d now v Hk.
  - exists d, now. now rewrite Nat.add_0_r.
  - cbn [fireTimes]. rewrite fire_revealing_step by lia.
    destruct (IH (S i) (d + period)%N (N.max now d)
                (TextContent (take i text))) as (d' & now' & E); [lia|].
    exists d', now'. rewrite E.
    replace (S i + k) with (i + S k) by lia. f_equal.
    destruct k as [|k]; cbn [shownAfter]; do 2 f_equal; lia.
Qed.

Lemma takeTimer_cleared (ts : list timer) :
  takeTimer id (filter (fun t => timer_id t <> id) ts) = None.
Proof.
  induction ts as [|t ts IH]; [reflexivity|].
  rewrite filter_cons. case_decide as Hne; [|exact IH].
  cbn [takeTimer]. apply Nat.eqb_neq in Hne. now rewrite Hne, IH.
Qed.

Lemma fire_absent st : takeTimer id (timers st) = None -> fire id st = st.
Proof. intros H. unfold fire. now rewrite H. Qed.

Lemma fireTimes_absent n : forall st,
  takeTimer id (timers st) = None -> fireTimes n id st = st.
Proof.
  induction n as [|n IH]; intros st H; [reflexivity|].
  cbn [fireTimes]. rewrite fire_absent by exact H. now apply IH.
Qed.

Lemma fireTimes_add n m st :
  fireTimes (n + m) id st = fireTimes m id (fireTimes n id st).
Proof.
  revert st. induction n as [|n IH]; intros st; [reflexivity|].
  cbn [fireTimes Nat.add]. apply IH.
Qed.

(** The whole reveal: from the prefix of length [i] on, the interval fires
    once per remaining prefix and once more to finish. *)
Lemma fireTimes_revealed base rest i d now v :
  i <= length text ->
  exists now',
    fireTimes (S (length text - i)) id
      (revealing id period container text base rest i d now v)
    = revealed id container text base rest now'.
Proof.
  intros Hi.
  destruct (fireTimes_revealing base rest (length text - i) i d now v)
    as (d' & now' & E); [lia|].
  replace (S (length text - i)) with (length text - i + 1) by lia.
  rewrite fireTimes_add, E. cbn [fireTimes].
  exists (N.max now' d'). apply fire_revealing_last. lia.
Qed.

End Reveal.

Lemma bubble_setBubble c v st b :
  bubble c st = Some b -> bubble c (setBubble c v st) = Some v.
Proof.
  unfold bubble, setBubble. cbn. rewrite lookup_alter_eq.
  destruct (nodes st !! c) as [[]|]; cbn; congruence.
Qed.

(** C3: for every answer string, the reveal ends with the bubble holding the
    markdown rendering of the whole string, however many prefixes were shown
    on the way; at that point the typing flag is cleared and the send button
    is enabled again, the interval is gone and further ticks change
    nothing.  Until then the [k]-th tick shows the prefix of length
    [k - 1], with the flag untouched and the interval still scheduled. *)
Theorem reveal_terminal_content (st : state) (period : N) (container : nat)
    (text : jsstring) (b : content) :
  bubble container st = Some b ->
  let id := nextTimer st in
  let st1 := typeText period container text st in
  let st2 := fireTimes (S (length text)) id st1 in
  (forall k, 0 < k <= length text ->
     bubble container (fireTimes k id st1)
       = Some (TextContent (take (k - 1) text))
     /\ isTyping (fireTimes k id st1) = isTyping st
     /\ is_Some (takeTimer id (timers (fireTimes k id st1))))
  /\ bubble container st2 = Some (InnerHTML (renderMarkdown (env st) text))
  /\ isTyping st2 = false
  /\ sendButton_disabled (page st2) = false
  /\ takeTimer id (timers st2) = None
  /\ (forall n, fireTimes n id st2 = st2).
Proof.
  intros Hb id st1 st2. subst st1 st2.
  rewrite typeText_revealing. fold id.
  set (base := set_nextTimer (S id) st).
  assert (Hbase : bubble container base = Some b) by exact Hb.
  split.
  - intros k Hk.
    destruct (fireTimes_revealing id period container text base (timers st)
                k 0 (clock st + period)%N (clock st) (InnerHTML []))
      as (d' & now' & ->); [lia|].
    destruct k as [|k]; [lia|]. cbn [shownAfter Nat.add].
    split; [|split].
    + unfold revealing. eapply (bubble_setBubble _ _ base). exact Hbase.
    + reflexivity.
    + unfold revealing, tickTimer. cbn [timers set_timers takeTimer timer_id].
      rewrite Nat.eqb_refl. eauto.
  - destruct (fireTimes_revealed id period container text base (timers st)
                0 (clock st + period)%N (clock st) (InnerHTML []))
      as (now' & E); [lia|].
    rewrite Nat.sub_0_r in E. rewrite E.
    assert (Hgone : takeTimer id (timers
              (revealed id container text base (timers st) now')) = None)
      by apply takeTimer_cleared.
    repeat split.
    + unfold revealed. eapply (bubble_setBubble _ _ base). exact Hbase.
    + exact Hgone.
    + intros n. now apply fireTimes_absent.
Qed.

Lemma reveal_terminal_content_witness :
  let st := snd (createAIBubble (load script_js plainEnv)) in
  let text := lit "John Doe" in
  bubble 1 st = Some (InnerHTML [])
  /\ bubble 1 (fireTimes 9 (nextTimer st) (typeText 15 1 text st))
     = Some (InnerHTML (renderMarkdown plainEnv text)).
Proof.
  split; [reflexivity|].
  apply (reveal_terminal_content
           (snd (createAIBubble (load script_js plainEnv))) 15 1
           (lit "John Doe") (InnerHTML [])).
  reflexivity.
Defined.

Lemma append_escaped st text :
  last (chatLog (addUserMessage text st))
    = Some (MessageUser (InnerHTML (escapeHtml text)))
  /\ last (chatLog (addSystemMessage text st))
    = Some (MessageAi FaInfoCircle (InnerHTML (escapeHtml text))).
Proof.
  split.
  - apply (last_chatLog_appendChild
             (MessageUser (InnerHTML (escapeHtml text)))).
  - apply (last_chatLog_appendChild
             (MessageAi FaInfoCircle (InnerHTML (escapeHtml text)))).
Qed.

(** What the [catch] clause of the upload handler does at the moment it
    runs, in both variants: when the upload request fails (the network
    fails, the status is not a success, or the body does not parse) the
    handler alerts the user, shows the upload area again, hides the overlay
    and the results, writes the floor value to the indicator, leaves the
    chat controls as they were, issues no request, and neither schedules
    nor cancels a timer. *)
Theorem upload_failure_returns_to_idle (v : script) (st : state) (id : nat)
    (file : jsstring) (rest : list (nat * request)) (r : response) :
  takeRequest id (requests st) = Some (UploadRequest file, rest) ->
  uploadFails r = true ->
  let st' := handle v (Response id r) st in
  (exists shown,
     trace st' = Progress (floorValue v)
                 :: Alert (lit "Upload failed. Please try again.")
                 :: shown ++ Settled id r :: trace st)
  /\ uploadArea_display (page st') = DisplayBlock
  /\ processingOverlay_display (page st') = DisplayNone
  /\ resultsContainer_display (page st') = DisplayNone
  /\ progressPercent (page st') = floorValue v
  /\ chatInput_disabled (page st') = chatInput_disabled (page st)
  /\ sendButton_disabled (page st') = sendButton_disabled (page st)
  /\ requests st' = rest
  /\ timers st' = timers st
  /\ nodes st' = nodes st
  /\ chatMessages st' = chatMessages st.
Proof.
  intros Hreq Hfail st'. subst st'. unfold handle, settle. rewrite Hreq.
  destruct v, r as [|[] [d|]]; try discriminate Hfail; cbn;
    (split; [first [ now exists [] | now exists [Progress 100] ]|]);
    repeat split.
Qed.

Lemma upload_failure_returns_to_idle_witness :
  let st' := handle part_000 (Response 0 (Http false None)) rampOnly in
  takeRequest 0 (requests rampOnly) = Some (UploadRequest reportPdf, [])
  /\ uploadFails (Http false None) = true
  /\ uploadArea_display (page st') = DisplayBlock
  /\ progressPercent (page st') = 10
  /\ chatInput_disabled (page st') = true.
Proof.
  assert (Hreq : takeRequest 0 (requests rampOnly)
                 = Some (UploadRequest reportPdf, []))
    by (vm_compute; reflexivity).
  pose proof (upload_failure_returns_to_idle part_000 rampOnly 0 reportPdf
                [] (Http false None) Hreq eq_refl) as H.
  cbv zeta in H. destruct H as (_ & Harea & _ & _ & Hprogress & Hchat & _).
  cbv zeta. rewrite Hchat.
  split; [exact Hreq|]. split; [reflexivity|]. split; [exact Harea|].
  split; [exact Hprogress|]. vm_compute; reflexivity.
Defined.

(** C6 (failing input): in part_000 a failed upload does not leave the
    progress at the floor value.  [simulateSideLoading] is started with the
    upload and never stopped, and the [catch] clause cancels no timer.  The
    upload of report.pdf is answered with status 500 after 2.3 seconds,
    every timer firing when it falls due: the handler alerts the user,
    shows the upload area again and writes the floor value 10, while the
    next side-loading tick is still scheduled; 40 ms later that tick writes
    34, and the indicator climbs to 80, where it stays on a page that is
    otherwise back to idle.  script.js, which has no such timer, stays at
    its floor value on the same events. *)
Theorem upload_failure_floor_overwritten :
  (forall st, timers (Part000.uploadFailed st) = timers st)
  /\ (let events := [ (0%N, FileChange (Some reportPdf));
                      (2300%N, Response 0 (Http false None)) ] in
      let failed := run part_000 200 events (load part_000 plainEnv) in
      let later := advance 200 7000 failed in
      punctual part_000 200 (events ++ [(7000%N, Elapse 0)])
        (load part_000 plainEnv) = true
      /\ uploadFails (Http false None) = true
      /\ last (history failed) = Some (Progress 10)
      /\ progressPercent (page failed) = floorValue part_000
      /\ uploadArea_display (page failed) = DisplayBlock
      /\ map timer_callback (timers failed)
         = [UpdateProgress 33 9; UpdateSessionTime]
      /\ drop 44 (shownProgress (history later)) = 10 :: seq 34 47
      /\ progressPercent (page later) = 80
      /\ progressPercent (page later) <> floorValue part_000
      /\ uploadArea_display (page later) = DisplayBlock
      /\ processingOverlay_display (page later) = DisplayNone
      /\ chatInput_disabled (page later) = true
      /\ settledUntil 7000 later = true
      /\ progressPercent
           (page (advance 200 7000
                    (run script_js 200 events (load script_js plainEnv))))
         = floorValue script_js).
Proof.
  split; [reflexivity|].
  cbv zeta. do 8 (split; [vm_compute; reflexivity|]).
  split; [vm_compute; discriminate|].
  do 4 (split; [vm_compute; reflexivity|]). vm_compute; reflexivity.
Qed.

(** ** Clearing the chat *)

Lemma firstWelcome_isWelcome m children w :
  firstWelcome m children = Some w -> isWelcome w = true.
Proof.
  induction children as [|id children IH]; [discriminate|].
  cbn [firstWelcome]. destruct (m !! id) as [e|]; [|exact IH].
  destruct (isWelcome e) eqn:He; [|exact IH]. congruence.
Qed.

Lemma querySelector_welcome_isWelcome st w :
  querySelector_welcome st = Some w -> isWelcome w = true.
Proof.
  unfold querySelector_welcome.
  destruct (welcome_before (env st)); [intros [= <-]; reflexivity|].
  destruct (firstWelcome _ _) eqn:E.
  - intros [= <-]. eapply firstWelcome_isWelcome, E.
  - destruct (welcome_after (env st)); [intros [= <-]; reflexivity|].
    discriminate.
Qed.

(** The log right after a clear: the clone of the welcome message, when the
    page has one, and the notice. *)
Lemma chatLog_clearChatWith notice st :
  chatLog (clearChatWith notice st)
  = option_list (querySelector_welcome st)
    ++ [MessageAi FaInfoCircle (InnerHTML (escapeHtml notice))].
Proof.
  unfold clearChatWith. destruct (querySelector_welcome st) as [w|].
  - unfold chatLog, addSystemMessage, scrollBottom. cbn.
    rewrite lookup_insert_ne by lia. now rewrite !lookup_insert_eq.
  - unfold chatLog, addSystemMessage, scrollBottom. cbn.
    now rewrite lookup_insert_eq.
Qed.

(** A clear does not change what the next clear will clone. *)
Lemma querySelector_welcome_clearChatWith notice st :
  querySelector_welcome (clearChatWith notice st) = querySelector_welcome st.
Proof.
  destruct (querySelector_welcome st) as [w|] eqn:Hq.
  - pose proof (querySelector_welcome_isWelcome st w Hq) as Hw.
    unfold clearChatWith. rewrite Hq. revert Hq.
    unfold querySelector_welcome. cbn.
    destruct (welcome_before (env st)); [easy|]. intros _.
    rewrite lookup_insert_ne by lia. rewrite lookup_insert_eq.
    now rewrite Hw.
  - unfold clearChatWith. rewrite Hq. revert Hq.
    unfold querySelector_welcome. cbn.
    destruct (welcome_before (env st)); [easy|].
    destruct (firstWelcome _ _); [easy|].
    rewrite lookup_insert_eq. cbn. easy.
Qed.

(** C8 (as amended): clearing is idempotent on the displayed log.  What a
    clear leaves is the clone of the welcome message, when the page has
    one, followed by the notice that the chat was cleared; clearing again
    leaves the same.  A clear resets the input field and touches nothing
    else of the session: not the other DOM properties (chat enablement,
    summary, progress, displays), not the typing flag, the timers or the
    requests. *)
Theorem clearChat_idempotent (v : script) (st : state) :
  chatLog (clearChat v (clearChat v st)) = chatLog (clearChat v st)
  /\ chatLog (clearChat v st)
     = option_list (querySelector_welcome st)
       ++ [MessageAi FaInfoCircle (InnerHTML (escapeHtml (chatClearedText v)))]
  /\ page (clearChat v st) = page (set_chatInput_value [] st)
  /\ isTyping (clearChat v st) = isTyping st
  /\ timers (clearChat v st) = timers st
  /\ requests (clearChat v st) = requests st
  /\ trace (clearChat v st) = trace st.
Proof.
  assert (Hc : clearChat v = clearChatWith (chatClearedText v))
    by (destruct v; reflexivity).
  rewrite Hc. split; [|split].
  - now rewrite !chatLog_clearChatWith, querySelector_welcome_clearChatWith.
  - apply chatLog_clearChatWith.
  - unfold clearChatWith.
    destruct (querySelector_welcome st); repeat split.
Qed.

(** C8 as stated fails: after a clear the log holds the notice next to the
    welcome entry. *)
Lemma clearChat_leaves_notice :
  chatLog (load script_js plainEnv) = [Markup true (lit "Welcome")]
  /\ chatLog (clearChat script_js (load script_js plainEnv))
     = [Markup true (lit "Welcome");
        MessageAi FaInfoCircle (InnerHTML ScriptJs.chatClearedText)]
  /\ chatLog (clearChat script_js (load script_js plainEnv))
     <> [Markup true (lit "Welcome")].
Proof.
  split; [reflexivity|]. split; [reflexivity|]. discriminate.
Qed.

(** ** The summary *)

(** C9 (as amended): on a successful upload the summary pane shows the
    markdown rendering of the [summary] field of the response, or of a
    default when the field is absent or empty: the empty string in
    script.js, the text "Document processed successfully!" in part_000
    (where the pane is filled by the second of two delayed callbacks). *)
Theorem summary_rendered_with_default (v : script) (st : state) (id : nat)
    (file : jsstring) (rest : list (nat * request)) (d : data) :
  takeRequest id (requests st) = Some (UploadRequest file, rest) ->
  summaryContent (page (uploadShown v id d st))
  = renderMarkdown (env st) (orElse (summary d) (summaryDefault v))
  /\ orElse None (summaryDefault v) = summaryDefault v
  /\ orElse (Some []) (summaryDefault v) = summaryDefault v.
Proof.
  intros Hreq. split; [|split; reflexivity].
  unfold uploadShown, handle, settle. rewrite Hreq.
  destruct v; [reflexivity|].
  unfold upload_settled, Part000.upload_settled. cbn [negb].
  unfold fire. cbn. rewrite Nat.eqb_refl. cbn. rewrite Nat.eqb_refl.
  reflexivity.
Qed.

Lemma summary_rendered_with_default_witness :
  let st := handle script_js (FileChange (Some reportPdf))
              (load script_js plainEnv) in
  takeRequest 0 (requests st) = Some (UploadRequest reportPdf, [])
  /\ summaryContent (page (uploadShown script_js 0 caseClosed st))
     = lit "Case closed.".
Proof.
  split; [reflexivity|].
  apply (summary_rendered_with_default script_js
           (handle script_js (FileChange (Some reportPdf))
              (load script_js plainEnv)) 0 reportPdf [] caseClosed eq_refl).
Defined.

(** C9 as stated fails in part_000: the upload succeeds with a body that
    has no [summary], and the pane does not show the rendering of the empty
    string. *)
Lemma summary_default_not_empty :
  summary noFields = None
  /\ summaryContent (page (uploaded000 noFields))
     = lit "Document processed successfully!"
  /\ summaryContent (page (uploaded000 noFields))
     <> renderMarkdown plainEnv [].
Proof.
  split; [reflexivity|]. split; [vm_compute; reflexivity|].
  vm_compute. discriminate.
Qed.

(** ** Guarded submissions *)

(** C4 (as amended): a chat submission (a click on the send button, Enter
    in the input field, a quick prompt) made while the chat is disabled,
    with a question that is empty once trimmed, or while an answer is
    awaited or revealed, adds neither a user nor an assistant message.  It
    leaves the page as it was, except that a quick prompt adds one advisory
    system message when the input field is disabled, and otherwise leaves
    its text in the input field. *)
Theorem blocked_submission_is_noop (v : script) (ev : event) (st : state) :
  isSubmission ev = true ->
  blocked ev st = true ->
  handle v ev st = st
  \/ (exists prompt,
        ev = QuickPrompt prompt
        /\ chatInput_disabled (page st) = true
        /\ handle v ev st = addSystemMessage (uploadFirstText v) st)
  \/ (exists prompt,
        ev = QuickPrompt prompt
        /\ chatInput_disabled (page st) = false
        /\ handle v ev st = set_chatInput_value prompt st).
Proof.
  intros Hsub Hblocked. unfold blocked, chatDisabled in Hblocked.
  destruct ev; try discriminate Hsub; cbn [handle questionOf] in *.
  - (* click on the send button *)
    left. destruct (sendButton_disabled (page st)); [reflexivity|].
    rewrite andb_false_r in Hblocked. cbn [orb] in Hblocked.
    destruct v; cbn [sendMessage];
      unfold ScriptJs.sendMessage, Part000.sendMessage; cbv zeta;
      now rewrite Hblocked.
  - (* Enter in the input field *)
    left. destruct (chatInput_disabled (page st)); [reflexivity|].
    cbn [andb orb] in Hblocked.
    destruct v; cbn [chatInput_keydown];
      [|destruct shiftKey; [reflexivity|]; cbn [negb]];
      unfold ScriptJs.sendMessage, Part000.sendMessage; cbv zeta;
      now rewrite Hblocked.
  - (* quick prompt *)
    right. destruct (chatInput_disabled (page st)) eqn:Hdis.
    + left. exists prompt. repeat split.
      destruct v; cbn [sendQuickPrompt uploadFirstText];
        unfold ScriptJs.sendQuickPrompt, Part000.sendQuickPrompt;
        now rewrite Hdis.
    + right. exists prompt. repeat split.
      cbn [andb orb] in Hblocked.
      destruct v; cbn [sendQuickPrompt];
        unfold ScriptJs.sendQuickPrompt, Part000.sendQuickPrompt;
        rewrite Hdis;
        unfold ScriptJs.sendMessage, Part000.sendMessage; cbv zeta;
        cbn [page set_chatInput_value upd_page chatInput_value isTyping];
        now rewrite Hblocked.
Qed.

Lemma blocked_submission_is_noop_witness :
  let st := load part_000 plainEnv in
  let ev := QuickPrompt (lit "Summarize") in
  isSubmission ev = true
  /\ blocked ev st = true
  /\ (handle part_000 ev st = st
      \/ (exists prompt,
            ev = QuickPrompt prompt
            /\ chatInput_disabled (page st) = true
            /\ handle part_000 ev st
               = addSystemMessage (uploadFirstText part_000) st)
      \/ (exists prompt,
            ev = QuickPrompt prompt
            /\ chatInput_disabled (page st) = false
            /\ handle part_000 ev st = set_chatInput_value prompt st)).
Proof.
  cbv zeta. split; [reflexivity|]. split; [reflexivity|].
  apply (blocked_submission_is_noop part_000
           (QuickPrompt (lit "Summarize")) (load part_000 plainEnv));
    reflexivity.
Defined.

(** C4 as stated fails: while an answer is awaited a quick prompt is not
    sent, but its text replaces the content of the input field. *)
Lemma quick_prompt_overwrites_input :
  let st := run script_js 200
              [ (4000%N, UserTypes question); (4001%N, ClickSend) ]
              (uploadedJs caseClosed) in
  let ev := QuickPrompt (lit "Summarize") in
  isTyping st = true
  /\ isSubmission ev = true
  /\ blocked ev st = true
  /\ chatInput_value (page st) = []
  /\ chatInput_value (page (handle script_js ev st)) = lit "Summarize"
  /\ chatLog (handle script_js ev st) = chatLog st.
Proof.
  cbv zeta. do 5 (split; [vm_compute; reflexivity|]).
  vm_compute; reflexivity.
Qed.

(** ** Upload progress *)

Lemma history_extends st st' news :
  trace st' = news ++ trace st -> history st' = history st ++ rev news.
Proof. unfold history. intros ->. apply rev_app_distr. Qed.

Lemma fireChain_add a : forall b id st,
  fireChain (a + b) id st = fireChain b (id + a) (fireChain a id st).
Proof.
  induction a as [|a IH]; intros b id st; cbn [fireChain Nat.add].
  - now rewrite Nat.add_0_r.
  - rewrite IH. f_equal. lia.
Qed.

Lemma fireChain_one id st : fireChain 1 id st = fire id st.
Proof. reflexivity. Qed.

Section ProgressRamp.

Variables (resolve : continuation) (rest : list timer).

(** One tick of [simulateProgress]. *)
Lemma fire_update_step st id progress d :
  timers st = updateTimer id progress resolve d :: rest ->
  nextTimer st = S id ->
  progress < 100 ->
  exists d',
    let st' := fire id st in
    timers st' = updateTimer (S id) (S progress) resolve d' :: rest
    /\ nextTimer st' = S (S id)
    /\ history st' = history st ++ [Progress (S progress)]
    /\ requests st' = requests st
    /\ nextRequest st' = nextRequest st.
Proof.
  intros Ht Hn Hp. unfold fire. rewrite Ht. unfold updateTimer.
  cbn [takeTimer timer_id]. rewrite Nat.eqb_refl.
  unfold runCallback. cbn [timer_callback]. unfold Part000.update.
  cbv zeta. replace (progress + 1) with (S progress) by lia.
  assert ((100 <? S progress) = false) as -> by (apply Nat.ltb_ge; lia).
  eexists. cbn. rewrite Hn. split; [reflexivity|].
  split; [reflexivity|]. auto.
Qed.

(** The ramp from [progress] up to [progress + n], when no other timer
    fires in between. *)
Lemma fireChain_update n : forall st id progress d,
  timers st = updateTimer id progress resolve d :: rest ->
  nextTimer st = S id ->
  progress + n <= 100 ->
  exists d',
    let st' := fireChain n id st in
    timers st' = updateTimer (id + n) (progress + n) resolve d' :: rest
    /\ nextTimer st' = S (id + n)
    /\ history st' = history st ++ map Progress (seq (S progress) n)
    /\ requests st' = requests st
    /\ nextRequest st' = nextRequest st.
Proof.
  induction n as [|n IH]; intros st id progress d Ht Hn Hp.
  - exists d. cbn. rewrite !Nat.add_0_r, app_nil_r. auto.
  - destruct (fire_update_step st id progress d Ht Hn)
      as (d1 & Ht1 & Hn1 & Hh1 & Hr1 & Hq1); [lia|].
    destruct (IH (fire id st) (S id) (S progress) d1 Ht1 Hn1)
      as (d' & Ht' & Hn' & Hh' & Hr' & Hq'); [lia|].
    exists d'. cbn [fireChain]. cbv zeta in *.
    replace (id + S n) with (S id + n) by lia.
    replace (progress + S n) with (S progress + n) by lia.
    rewrite Ht', Hn', Hh', Hh1, Hr', Hr1, Hq', Hq1.
    cbn [seq map]. rewrite <- app_assoc. auto.
Qed.

(** The last tick: 100 is shown once more and the awaiting handler
    resumes. *)
Lemma fire_update_last st id d file :
  resolve = AfterProgress file ->
  timers st = updateTimer id 100 resolve d :: rest ->
  let st' := fire id st in
  history st'
  = history st ++ [Progress 100; Fetch (nextRequest st) (UploadRequest file)]
  /\ requests st' = requests st ++ [(nextRequest st, UploadRequest file)].
Proof.
  intros -> Ht. unfold fire. rewrite Ht. unfold updateTimer.
  cbn [takeTimer timer_id]. rewrite Nat.eqb_refl.
  split; [|reflexivity].
  apply (history_extends _ _
           [Fetch (nextRequest st) (UploadRequest file); Progress 100]).
  reflexivity.
Qed.

End ProgressRamp.

(** The ramp of part_000 after a file was selected on the page [st0], taken
    by itself: 81, 82, ... and no request before it ends. *)
Lemma ramp_after_selection st0 file n :
  n <= 20 ->
  exists d',
    let st' := fireChain n (S (nextTimer st0))
                 (handle part_000 (FileChange (Some file)) st0) in
    timers st'
    = updateTimer (S (nextTimer st0) + n) (80 + n) (AfterProgress file) d'
      :: {| timer_id := nextTimer st0; due := (clock st0 + 500)%N;
            interval := None; timer_callback := UpdateProgress 10 5 |}
      :: timers st0
    /\ history st' = history st0 ++ map Progress (seq 81 n)
    /\ requests st' = requests st0
    /\ nextRequest st' = nextRequest st0.
Proof.
  intros Hn.
  destruct (fireChain_update (AfterProgress file)
              ({| timer_id := nextTimer st0; due := (clock st0 + 500)%N;
                  interval := None; timer_callback := UpdateProgress 10 5 |}
               :: timers st0)
              n (handle part_000 (FileChange (Some file)) st0)
              (S (nextTimer st0)) 80 (clock st0 + 1000)%N)
    as (d' & Ht & _ & Hh & Hr & Hq);
    [reflexivity|reflexivity|lia|].
  exists d'. cbv zeta in *. rewrite Ht, Hh, Hr, Hq. auto.
Qed.

Lemma ramp_complete st0 file :
  history (fireChain 21 (S (nextTimer st0))
             (handle part_000 (FileChange (Some file)) st0))
  = history st0 ++ map Progress (seq 81 20)
    ++ [Progress 100; Fetch (nextRequest st0) (UploadRequest file)].
Proof.
  destruct (ramp_after_selection st0 file 20 (le_n 20))
    as (d' & Ht & Hh & _ & Hq).
  cbv zeta in Ht, Hh, Hq.
  replace 21 with (20 + 1) by reflexivity.
  rewrite fireChain_add, fireChain_one.
  destruct (fire_update_last (AfterProgress file) _ _ _ d' file
              eq_refl Ht) as (Hh' & _).
  cbv zeta in Hh'. rewrite Hh', Hh, Hq. now rewrite <- app_assoc.
Qed.

Lemma history_settle v st id file rest r :
  takeRequest id (requests st) = Some (UploadRequest file, rest) ->
  history (handle v (Response id r) st)
  = history st ++ Settled id r :: shownOnSettle v r.
Proof.
  intros Hreq.
  rewrite <- (rev_involutive (Settled id r :: shownOnSettle v r)).
  apply history_extends. unfold handle, settle. rewrite Hreq.
  destruct v, r as [|[] [d|]]; reflexivity.
Qed.

(** In part_000 the upload request is issued by the last tick of the ramp,
    right after that tick has shown 100, on whatever schedule. *)
Lemma fetchAfterFull_sendMessage st :
  fetchAfterFull (trace st) = true ->
  fetchAfterFull (trace (Part000.sendMessage st)) = true.
Proof.
  intros H. unfold Part000.sendMessage. cbv zeta.
  destruct (_ || _); [exact H|]. destruct (uriEncodable _); exact H.
Qed.

Lemma fetchAfterFull_settle id r st :
  fetchAfterFull (trace st) = true ->
  fetchAfterFull (trace (settle part_000 id r st)) = true.
Proof.
  intros H. unfold settle.
  destruct (takeRequest id (requests st)) as [[rq rest]|]; [|exact H].
  destruct rq, r as [|[] [d|]]; exact H.
Qed.

Lemma fetchAfterFull_fire id st :
  fetchAfterFull (trace st) = true ->
  fetchAfterFull (trace (fire id st)) = true.
Proof.
  intros H. unfold fire.
  destruct (takeTimer id (timers st)) as [[t rest]|]; [|exact H].
  unfold runCallback.
  destruct t as [tid d p cb]; destruct cb; cbn [timer_callback timer_id].
  - unfold Part000.updateProgress. cbv zeta. case_cond; exact H.
  - unfold Part000.update. cbv zeta. destruct resolve. case_cond; exact H.
  - exact H.
  - exact H.
  - unfold typeTick, scrollBottom, reschedule. cbv zeta. cbn [interval].
    destruct p; case_cond; exact H.
  - unfold reschedule, updateSessionTime. cbn [interval].
    destruct p; exact H.
Qed.

Lemma reachable_fetchAfterFull e st :
  reachable part_000 e st -> fetchAfterFull (trace st) = true.
Proof.
  induction 1 as [|st ev _ IH]; [reflexivity|].
  destruct ev; cbn [handle].
  - exact IH.
  - destruct file; exact IH.
  - destruct (chatInput_disabled _); exact IH.
  - destruct (sendButton_disabled _);
      [exact IH|now apply fetchAfterFull_sendMessage].
  - destruct (chatInput_disabled _); [exact IH|].
    cbn [chatInput_keydown]. destruct shiftKey; [exact IH|].
    now apply fetchAfterFull_sendMessage.
  - cbn [sendQuickPrompt]. unfold Part000.sendQuickPrompt.
    destruct (chatInput_disabled _); [exact IH|].
    now apply (fetchAfterFull_sendMessage (set_chatInput_value prompt st)).
  - cbn [clearChat]. unfold Part000.clearChat, clearChatWith.
    destruct (querySelector_welcome _); exact IH.
  - cbn [startNewSession]. unfold Part000.startNewSession, block.
    cbn [foldl]. unfold Part000.clearChat, clearChatWith.
    destruct (querySelector_welcome _); exact IH.
  - now apply fetchAfterFull_settle.
  - now apply fetchAfterFull_fire.
Qed.

(** In script.js 100 is shown only by the upload handler, right after the
    response has settled, on whatever schedule. *)
Lemma takeTimer_Forall id ts t rest (P : timer -> Prop) :
  takeTimer id ts = Some (t, rest) -> Forall P ts -> P t /\ Forall P rest.
Proof.
  revert rest. induction ts as [|u ts IH]; intros rest; [discriminate|].
  cbn [takeTimer]. destruct (Nat.eqb (timer_id u) id).
  - intros [= <- <-] H. now apply Forall_cons.
  - destruct (takeTimer id ts) as [[found rest']|]; [|discriminate].
    intros [= <- <-] H. apply Forall_cons in H. destruct H as [Hu Hts].
    destruct (IH rest' eq_refl Hts). split; [assumption|].
    now constructor.
Qed.

Lemma scriptJsInv_sendMessage st :
  scriptJsInv st -> scriptJsInv (ScriptJs.sendMessage st).
Proof.
  intros [H Ht]. unfold ScriptJs.sendMessage. cbv zeta.
  destruct (_ || _); [now split|].
  destruct (uriEncodable _); (split; [exact H|]); cbn;
    [exact Ht|now constructor].
Qed.

Lemma scriptJsInv_settle id r st :
  scriptJsInv st -> scriptJsInv (settle script_js id r st).
Proof.
  intros [H Ht]. unfold settle.
  destruct (takeRequest id (requests st)) as [[rq rest]|]; [|now split].
  destruct rq, r as [|[] [d|]]; (split; [exact H|]); cbn;
    first [exact Ht | now constructor].
Qed.

Lemma scriptJsInv_fire id st :
  scriptJsInv st -> scriptJsInv (fire id st).
Proof.
  intros [H Ht]. unfold fire.
  destruct (takeTimer id (timers st)) as [[t rest]|] eqn:Htake;
    [|now split].
  destruct (takeTimer_Forall _ _ _ _ _ Htake Ht) as [Htick Hrest].
  unfold runCallback. unfold isTick in Htick.
  destruct t as [tid d p cb]; destruct cb; try discriminate Htick.
  cbn [timer_callback]. unfold typeTick, scrollBottom, reschedule.
  cbv zeta. cbn [interval].
  destruct p; case_cond; (split; [exact H|]); cbn;
    first [ exact Hrest
          | now constructor
          | apply Forall_forall; intros x [_ Hx]%list_elem_of_filter;
            revert x Hx; now apply Forall_forall ].
Qed.

Lemma reachable_scriptJsInv e st :
  reachable script_js e st -> scriptJsInv st.
Proof.
  induction 1 as [|st ev _ IH]; [split; [reflexivity|constructor]|].
  destruct ev; cbn [handle].
  - exact IH.
  - destruct file; exact IH.
  - destruct (chatInput_disabled _); exact IH.
  - destruct (sendButton_disabled _);
      [exact IH|now apply scriptJsInv_sendMessage].
  - destruct (chatInput_disabled _); [exact IH|].
    now apply scriptJsInv_sendMessage.
  - cbn [sendQuickPrompt]. unfold ScriptJs.sendQuickPrompt.
    destruct (chatInput_disabled _); [exact IH|].
    now apply (scriptJsInv_sendMessage (set_chatInput_value prompt st)).
  - cbn [clearChat]. unfold ScriptJs.clearChat, clearChatWith.
    destruct (querySelector_welcome _); exact IH.
  - destruct IH as [H _]. split; [exact H|constructor].
  - now apply scriptJsInv_settle.
  - now apply scriptJsInv_fire.
Qed.

(** What script.js has written to the indicator, read off the trace. *)
Lemma shownProgress_history st :
  shownProgress (history st)
  = rev (omap (fun o => match o with Progress n => Some n | _ => None end)
           (trace st)).
Proof.
  unfold shownProgress, history.
  induction (trace st) as [|o tr IH]; [reflexivity|].
  cbn [rev]. rewrite omap_app, IH.
  destruct o; cbn; now rewrite ?app_nil_r.
Qed.

Lemma scriptJs_sendMessage_silent st :
  shownProgress (history (ScriptJs.sendMessage st))
  = shownProgress (history st) ++ []
  /\ progressPercent (page (ScriptJs.sendMessage st))
     = progressPercent (page st).
Proof.
  rewrite !shownProgress_history, app_nil_r.
  unfold ScriptJs.sendMessage. cbv zeta.
  destruct (_ || _); [now split|].
  destruct (uriEncodable _); split; reflexivity.
Qed.

(** In script.js an event writes to the indicator exactly what
    [progressOf] says, on every page that events lead to. *)
Lemma scriptJs_progress_step e st ev :
  reachable script_js e st ->
  shownProgress (history (handle script_js ev st))
  = shownProgress (history st) ++ progressOf ev st
  /\ progressPercent (page (handle script_js ev st)) = progressAfter ev st.
Proof.
  intros Hreach. destruct (reachable_scriptJsInv e st Hreach) as [_ Hticks].
  destruct ev; cbn [handle progressOf progressAfter last].
  - split; [now rewrite app_nil_r|reflexivity].
  - destruct file as [file|]; cbn [fileInput_change last].
    + split; [|reflexivity]. rewrite !shownProgress_history. reflexivity.
    + split; [now rewrite app_nil_r|reflexivity].
  - destruct (chatInput_disabled _);
      (split; [now rewrite app_nil_r|reflexivity]).
  - destruct (sendButton_disabled _);
      [split; [now rewrite app_nil_r|reflexivity]|].
    apply scriptJs_sendMessage_silent.
  - destruct (chatInput_disabled _);
      [split; [now rewrite app_nil_r|reflexivity]|].
    apply scriptJs_sendMessage_silent.
  - cbn [sendQuickPrompt]. unfold ScriptJs.sendQuickPrompt.
    destruct (chatInput_disabled _).
    + split; [now rewrite app_nil_r|reflexivity].
    + apply (scriptJs_sendMessage_silent (set_chatInput_value prompt st)).
  - cbn [clearChat]. unfold ScriptJs.clearChat, clearChatWith.
    destruct (querySelector_welcome _);
      (split; [now rewrite app_nil_r|reflexivity]).
  - split; [now rewrite app_nil_r|reflexivity].
  - rewrite !shownProgress_history. unfold settle.
    destruct (takeRequest id (requests st)) as [[rq rest]|];
      [|split; [now rewrite app_nil_r|reflexivity]].
    destruct rq as [file|aiBubble q]; destruct r as [|[] [d|]];
      (split; [cbn; now rewrite ?app_nil_r, <- ?app_assoc|reflexivity]).
  - rewrite !shownProgress_history. unfold fire.
    destruct (takeTimer id (timers st)) as [[t rest]|] eqn:Htake;
      [|split; [now rewrite app_nil_r|reflexivity]].
    destruct (takeTimer_Forall _ _ _ _ _ Htake Hticks) as [Htick _].
    unfold runCallback. unfold isTick in Htick.
    destruct t as [tid d p cb]; destruct cb; try discriminate Htick.
    cbn [timer_callback]. unfold typeTick, scrollBottom, reschedule.
    cbv zeta. cbn [interval].
    destruct p; case_cond;
      (split; [cbn; now rewrite app_nil_r|reflexivity]).
Qed.

Lemma scriptJs_progress_run e evs : forall st,
  reachable script_js e st ->
  shownProgress (history (handles script_js evs st))
  = shownProgress (history st) ++ progressOfAll evs st.
Proof.
  induction evs as [|ev evs IH]; intros st Hreach.
  - cbn. now rewrite app_nil_r.
  - change (handles script_js (ev :: evs) st)
      with (handles script_js evs (handle script_js ev st)).
    cbn [progressOfAll]. rewrite IH by now apply reachable_step.
    rewrite (proj1 (scriptJs_progress_step e st ev Hreach)).
    now rewrite app_assoc.
Qed.

(** C1 (as amended): in script.js the indicator shows 30 when the file is
    selected and nothing more until the request has settled; then 100 on
    success, 100 and then the floor 0 when a body arrives with a status
    that is not a success, the floor alone on any other failure.  No other
    event of script.js writes to the indicator: on every page that events
    lead to, what an event adds to the percentages shown and what the
    indicator reads afterwards are given by [progressOf] and
    [progressAfter], for one event and for any sequence of events, and 100
    was shown only right after a response had settled.  In part_000 the upload request is issued by the last tick of
    the simulated ramp, right after that tick has shown 100: on every page
    that events lead to, 100 was on display when the request was sent,
    before any response existed.  Once the request has settled the handler
    of part_000 shows 100 on success and the floor 10 on failure. *)
Theorem upload_progress_sequence (v : script) (e : environment)
    (st0 : state) (file : jsstring) (st : state) (id : nat)
    (file' : jsstring) (rest : list (nat * request)) (r : response)
    (st1 st2 : state) :
  takeRequest id (requests st) = Some (UploadRequest file', rest) ->
  reachable part_000 e st1 ->
  reachable script_js e st2 ->
  history (handle script_js (FileChange (Some file)) st0)
  = history st0 ++ [Progress 30; Fetch (nextRequest st0) (UploadRequest file)]
  /\ history (handle v (Response id r) st)
     = history st ++ Settled id r :: shownOnSettle v r
  /\ fetchAfterFull (trace st1) = true
  /\ fullAfterSettled (trace st2) = true
  /\ (forall ev,
        shownProgress (history (handle script_js ev st2))
        = shownProgress (history st2) ++ progressOf ev st2
        /\ progressPercent (page (handle script_js ev st2))
           = progressAfter ev st2)
  /\ (forall evs,
        shownProgress (history (handles script_js evs st2))
        = shownProgress (history st2) ++ progressOfAll evs st2).
Proof.
  intros Hreq Hreach1 Hreach2.
  split; [|split; [|split; [|split; [|split]]]].
  - apply (history_extends _ _
             [Fetch (nextRequest st0) (UploadRequest file); Progress 30]).
    reflexivity.
  - eapply history_settle, Hreq.
  - eapply reachable_fetchAfterFull, Hreach1.
  - eapply reachable_scriptJsInv, Hreach2.
  - intros ev. eapply scriptJs_progress_step, Hreach2.
  - intros evs. eapply scriptJs_progress_run, Hreach2.
Qed.

Lemma upload_progress_sequence_witness :
  let st := handle script_js (FileChange (Some reportPdf))
              (load script_js plainEnv) in
  takeRequest 0 (requests st) = Some (UploadRequest reportPdf, [])
  /\ reachable part_000 plainEnv rampOnly
  /\ reachable script_js plainEnv (uploadedJs caseClosed)
  /\ history (handle script_js (Response 0 (Http true (Some caseClosed))) st)
     = [Progress 30; Fetch 0 (UploadRequest reportPdf);
        Settled 0 (Http true (Some caseClosed)); Progress 100]
  /\ fetchAfterFull (trace rampOnly) = true
  /\ fullAfterSettled (trace (uploadedJs caseClosed)) = true
  /\ shownProgress
       (history (handle script_js ClickClear (uploadedJs caseClosed)))
     = shownProgress (history (uploadedJs caseClosed)) ++ [].
Proof.
  assert (Hreach1 : reachable part_000 plainEnv rampOnly)
    by apply reachable_advance, reachable_step, reachable_load.
  assert (Hreach2 : reachable script_js plainEnv (uploadedJs caseClosed))
    by apply reachable_run, reachable_load.
  cbv zeta. split; [reflexivity|]. split; [exact Hreach1|].
  split; [exact Hreach2|].
  pose proof (upload_progress_sequence script_js plainEnv
                (load script_js plainEnv) reportPdf
                (handle script_js (FileChange (Some reportPdf))
                   (load script_js plainEnv))
                0 reportPdf [] (Http true (Some caseClosed)) rampOnly
                (uploadedJs caseClosed) eq_refl Hreach1 Hreach2)
    as (_ & Hsettle & Hfull1 & Hfull2 & Hstep & _).
  split; [exact Hsettle|]. split; [exact Hfull1|]. split; [exact Hfull2|].
  exact (proj1 (Hstep ClickClear)).
Defined.

(** C1 as stated fails in part_000: 2.2 seconds after the file was
    selected 100 has been shown twice, no response has been observed, and
    the request has only just been issued. *)
Lemma progress_full_before_response :
  In (Progress 100) (history rampOnly)
  /\ existsb isSettled (history rampOnly) = false
  /\ last (history rampOnly) = Some (Fetch 0 (UploadRequest reportPdf))
  /\ fullOnlyAfterResponse false (history rampOnly) = false
  /\ settledUntil 2200 rampOnly = true.
Proof.
  split.
  - vm_compute. repeat ((left; reflexivity) || right).
  - do 3 (split; [vm_compute; reflexivity|]). vm_compute; reflexivity.
Qed.

(** ** Failed questions *)

(** A reveal that has started runs to its end. *)
Lemma typeText_completes st period container text b :
  bubble container st = Some b ->
  let st' := fireTimes (S (length text)) (nextTimer st)
               (typeText period container text st) in
  bubble container st' = Some (InnerHTML (renderMarkdown (env st) text))
  /\ isTyping st' = false
  /\ sendButton_disabled (page st') = false.
Proof.
  intros Hb. cbv zeta. rewrite typeText_revealing.
  destruct (fireTimes_revealed (nextTimer st) period container text
              (set_nextTimer (S (nextTimer st)) st) (timers st)
              0 (clock st + period)%N (clock st) (InnerHTML []))
    as (now' & E); [lia|].
  rewrite Nat.sub_0_r in E. rewrite E.
  split; [|split; reflexivity].
  unfold revealed.
  eapply (bubble_setBubble _ _ (set_nextTimer (S (nextTimer st)) st)).
  exact Hb.
Qed.

(** What the [catch] clause of [sendMessage] does. *)
Lemma askFailed_typeText v st id aiBubble question rest r :
  takeRequest id (requests st) = Some (AskRequest aiBubble question, rest) ->
  askFails v r = true ->
  exists st1,
    handle v (Response id r) st
    = typeText (typingPeriod v) aiBubble (fallbackText v st) st1
    /\ nodes st1 = nodes st /\ timers st1 = timers st
    /\ nextTimer st1 = nextTimer st /\ clock st1 = clock st
    /\ env st1 = env st.
Proof.
  intros Hreq Hfail. unfold handle, settle. rewrite Hreq.
  destruct v.
  - exists (observe (Settled id r) (set_requests rest st)).
    destruct r as [|ok [d|]]; try discriminate Hfail; repeat split.
  - exists (set_randomCalls (S (randomCalls st))
              (observe (Settled id r) (set_requests rest st))).
    destruct r as [|[] [d|]]; try discriminate Hfail; repeat split.
Qed.

(** C2 (as amended): when the ask request fails by a network error or a
    body that does not parse (and, in part_000, by a status that is not a
    success) the reveal starts on the assistant bubble of the exchange with
    a text that does not depend on the failure: the fixed error string in
    script.js, one of the four canned responses, drawn at random, in
    part_000.  The reveal then runs to its end, where the bubble holds that
    text rendered and the typing flag is cleared. *)
Theorem ask_failure_reveals_fallback (v : script) (st : state) (id : nat)
    (aiBubble : nat) (question : jsstring) (rest : list (nat * request))
    (r : response) (b : content) :
  takeRequest id (requests st) = Some (AskRequest aiBubble question, rest) ->
  askFails v r = true ->
  bubble aiBubble st = Some b ->
  let st' := handle v (Response id r) st in
  let text := fallbackText v st in
  let done := fireTimes (S (length text)) (nextTimer st) st' in
  timers st'
  = tickTimer (nextTimer st) (typingPeriod v) aiBubble text 0
      (clock st + typingPeriod v)%N :: timers st
  /\ (text = ScriptJs.errorText \/ exists i, text = Part000.responses i)
  /\ bubble aiBubble done = Some (InnerHTML (renderMarkdown (env st) text))
  /\ isTyping done = false.
Proof.
  intros Hreq Hfail Hb. cbv zeta.
  destruct (askFailed_typeText v st id aiBubble question rest r Hreq Hfail)
    as (st1 & -> & Hnodes & Htimers & Hnext & Hclock & Henv).
  split; [|split].
  - rewrite typeText_revealing. unfold revealing.
    cbn [timers set_timers]. now rewrite Htimers, Hnext, Hclock.
  - destruct v; [left; reflexivity|right; eexists; reflexivity].
  - rewrite <- Hnext, <- Henv.
    assert (Hb1 : bubble aiBubble st1 = Some b)
      by (unfold bubble; now rewrite Hnodes).
    destruct (typeText_completes st1 (typingPeriod v) aiBubble
                (fallbackText v st) b Hb1) as (H1 & H2 & _).
    auto.
Qed.

Lemma ask_failure_reveals_fallback_witness :
  let st := run script_js 200
              [ (4000%N, UserTypes question); (4001%N, ClickSend) ]
              (uploadedJs caseClosed) in
  takeRequest 1 (requests st) = Some (AskRequest 3 question, [])
  /\ askFails script_js NetworkError = true
  /\ bubble 3 st = Some (InnerHTML [])
  /\ bubble 3 (fireTimes (S (length ScriptJs.errorText)) (nextTimer st)
                 (handle script_js (Response 1 NetworkError) st))
     = Some (InnerHTML ScriptJs.errorText).
Proof.
  cbv zeta. do 3 (split; [vm_compute; reflexivity|]).
  apply (ask_failure_reveals_fallback script_js
           (run script_js 200
              [ (4000%N, UserTypes question); (4001%N, ClickSend) ]
              (uploadedJs caseClosed))
           1 3 question [] NetworkError (InnerHTML [])).
  - vm_compute; reflexivity.
  - reflexivity.
  - vm_compute; reflexivity.
Defined.

(** C2 as stated fails.  In part_000 two questions that fail in the same
    way are answered with different texts; in script.js a response with a
    status that is not a success but a body that parses is treated as an
    answer. *)
Lemma ask_failure_text_not_fixed :
  let first := asked part_000 12000 1 NetworkError (uploaded000 caseClosed) in
  let second := asked part_000 30000 2 NetworkError first in
  let other := asked script_js 4000 1 (Http false (Some johnDoe))
                 (uploadedJs caseClosed) in
  map timer_callback (reveals first)
    = [TypeTick 3 (Part000.responses R0) 0]
  /\ map timer_callback (reveals second)
    = [TypeTick 5 (Part000.responses R1) 0]
  /\ Part000.responses R0 <> Part000.responses R1
  /\ map timer_callback (reveals other) = [TypeTick 3 (lit "John Doe") 0]
  /\ lit "John Doe" <> ScriptJs.errorText.
Proof.
  cbv zeta. do 2 (split; [vm_compute; reflexivity|]).
  split; [discriminate|]. split; [vm_compute; reflexivity|discriminate].
Qed.

(** ** New session *)

Lemma querySelector_welcome_frame st' st :
  env st' = env st -> nodes st' = nodes st ->
  chatMessages st' = chatMessages st ->
  querySelector_welcome st' = querySelector_welcome st.
Proof.
  intros He Hn Hc. unfold querySelector_welcome. now rewrite He, Hn, Hc.
Qed.

(** What [startNewSession] of part_000 resets. *)
Lemma startNewSession_resets st :
  let st' := Part000.startNewSession st in
  uploadArea_display (page st') = DisplayBlock
  /\ processingOverlay_display (page st') = DisplayNone
  /\ successMessage_display (page st') = DisplayNone
  /\ resultsContainer_display (page st') = DisplayNone
  /\ chatInput_disabled (page st') = true
  /\ sendButton_disabled (page st') = true
  /\ chatInput_value (page st') = []
  /\ summaryContent (page st') = Part000.summaryPlaceholder
  /\ chatLog st'
     = option_list (querySelector_welcome st)
       ++ [MessageAi FaInfoCircle
             (InnerHTML (escapeHtml Part000.chatClearedText));
           MessageAi FaInfoCircle
             (InnerHTML (escapeHtml Part000.newSessionText))].
Proof.
  cbv zeta. unfold Part000.startNewSession, block. cbn [foldl].
  unfold Part000.clearChat, clearChatWith.
  rewrite (querySelector_welcome_frame
             (set_fileInput_value []
                (set_resultsContainer_display DisplayNone
                   (set_successMessage_display DisplayNone
                      (set_processingOverlay_display DisplayNone
                         (set_uploadArea_display DisplayBlock st))))) st)
    by reflexivity.
  destruct (querySelector_welcome st) as [w|];
    (do 8 (split; [reflexivity|]));
    unfold chatLog; cbn.
  - rewrite !lookup_insert_eq.
    rewrite !(lookup_insert_ne _ (S (S (nextNode st)))) by lia.
    rewrite !lookup_insert_eq.
    rewrite !(lookup_insert_ne _ (S (nextNode st))) by lia.
    now rewrite !lookup_insert_eq.
  - rewrite !lookup_insert_eq.
    rewrite !(lookup_insert_ne _ (S (nextNode st))) by lia.
    now rewrite !lookup_insert_eq.
Qed.

(** C7 (failing input): [startNewSession] of part_000 does not touch the
    progress indicator.  After an upload has completed it shows 100, and it
    still does once a new session was started, where [resetUploadUI] would
    have put it back to 10; the rest of the page is reset. *)
Theorem new_session_keeps_progress :
  (forall st,
     progressPercent (page (Part000.startNewSession st))
     = progressPercent (page st))
  /\ (let st := uploaded000 caseClosed in
      let st' := handle part_000 ClickNewSession st in
      progressPercent (page st) = 100
      /\ progressPercent (page st') = 100
      /\ progressPercent (page (Part000.resetUploadUI st)) = 10
      /\ chatInput_disabled (page st') = true
      /\ summaryContent (page st') = Part000.summaryPlaceholder).
Proof.
  split.
  - intros st. unfold Part000.startNewSession, block. cbn [foldl].
    unfold Part000.clearChat, clearChatWith.
    destruct (querySelector_welcome _); reflexivity.
  - cbv zeta. do 4 (split; [vm_compute; reflexivity|]).
    vm_compute; reflexivity.
Qed.

(** ** One reveal at a time *)

Arguments lit : simpl never.
Arguments escapeHtml : simpl never.
Arguments ticking : simpl never.
Arguments asking : simpl never.

Lemma takeTimer_Some id ts t rest :
  takeTimer id ts = Some (t, rest) ->
  exists pre post,
    ts = pre ++ t :: post /\ rest = pre ++ post /\ timer_id t = id.
Proof.
  revert rest. induction ts as [|u ts IH]; intros rest; [discriminate|].
  cbn [takeTimer]. destruct (Nat.eqb_spec (timer_id u) id) as [Hid|Hid].
  - intros [= <- <-]. now exists [], ts.
  - destruct (takeTimer id ts) as [[found rest']|]; [|discriminate].
    intros [= <- <-].
    destruct (IH rest' eq_refl) as (pre & post & -> & -> & Hfound).
    now exists (u :: pre), post.
Qed.

Lemma takeRequest_Some id rs r rest :
  takeRequest id rs = Some (r, rest) ->
  exists pre post, rs = pre ++ (id, r) :: post /\ rest = pre ++ post.
Proof.
  revert rest. induction rs as [|[k q] rs IH]; intros rest; [discriminate|].
  cbn [takeRequest]. destruct (Nat.eqb_spec k id) as [->|Hid].
  - intros [= <- <-]. now exists [], rs.
  - destruct (takeRequest id rs) as [[found rest']|]; [|discriminate].
    intros [= <- <-].
    destruct (IH rest' eq_refl) as (pre & post & -> & ->).
    now exists ((k, q) :: pre), post.
Qed.

Lemma ticking_take id ts t rest :
  takeTimer id ts = Some (t, rest) ->
  ticking ts = (if isTick t then 1 else 0) + ticking rest.
Proof.
  intros H. destruct (takeTimer_Some _ _ _ _ H) as (pre & post & -> & -> & _).
  unfold ticking. rewrite !List.filter_app, !length_app. cbn [List.filter].
  destruct (isTick t); cbn [length]; lia.
Qed.

Lemma asking_take id rs r rest :
  takeRequest id rs = Some (r, rest) ->
  asking rs = (if isAsk (id, r) then 1 else 0) + asking rest.
Proof.
  intros H. destruct (takeRequest_Some _ _ _ _ H) as (pre & post & -> & ->).
  unfold asking. rewrite !List.filter_app, !length_app. cbn [List.filter].
  destruct (isAsk (id, r)); cbn [length]; lia.
Qed.

Lemma asking_snoc rs k r :
  asking (rs ++ [(k, r)]) = asking rs + (if isAsk (k, r) then 1 else 0).
Proof.
  unfold asking. rewrite List.filter_app, length_app. cbn [List.filter].
  now destruct (isAsk (k, r)).
Qed.

Lemma ticking_cons t ts :
  ticking (t :: ts) = (if isTick t then 1 else 0) + ticking ts.
Proof. unfold ticking. cbn [List.filter]. now destruct (isTick t). Qed.

Lemma ticking_cleared id ts : ticking ts = 0 ->
  ticking (filter (fun t => timer_id t <> id) ts) = 0.
Proof.
  unfold ticking. induction ts as [|t ts IH]; [reflexivity|].
  cbn [List.filter]. rewrite filter_cons.
  destruct (isTick t) eqn:Ht; [discriminate|]. intros H.
  case_decide; [cbn [List.filter]; rewrite Ht|]; now apply IH.
Qed.

Ltac solve_ticks :=
  repeat match goal with
  | |- Forall tickOk [] => constructor
  | |- Forall tickOk (_ :: _) => constructor
  | |- Forall tickOk _ => assumption
  | |- tickOk _ =>
      unfold tickOk; cbn [timer_callback interval];
      first [ exact I | split; [eauto | cbn [length]; lia] ]
  end.

Ltac solve_reveal :=
  cbn; rewrite ?asking_snoc, ?ticking_cons; cbn;
  split; [lia | solve_ticks].

Lemma revealInv_sendMessage v st :
  revealInv st -> revealInv (sendMessage v st).
Proof.
  unfold revealInv, singleReveal. intros [H Hok].
  destruct v; cbn [sendMessage];
    unfold ScriptJs.sendMessage, Part000.sendMessage; cbv zeta;
    (destruct (isEmpty _); [now split|]);
    (destruct (isTyping st) eqn:Ht; cbn [orb];
     [rewrite Ht; now split|]);
    destruct (uriEncodable _); solve_reveal.
Qed.

Lemma revealInv_settle v id r st :
  revealInv st -> revealInv (settle v id r st).
Proof.
  unfold revealInv, singleReveal, settle. intros [H Hok].
  destruct (takeRequest id (requests st)) as [[rq rest]|] eqn:Hreq;
    [|now split].
  rewrite (asking_take _ _ _ _ Hreq) in H.
  destruct rq as [file|aiBubble q]; cbn [isAsk snd] in H;
    destruct v, r as [|[] [d|]]; solve_reveal.
Qed.

Lemma revealInv_fire id st :
  revealInv st -> revealInv (fire id st).
Proof.
  unfold revealInv, singleReveal, fire. intros [H Hok].
  destruct (takeTimer id (timers st)) as [[t rest]|] eqn:Htake;
    [|now split].
  rewrite (ticking_take _ _ _ _ Htake) in H. unfold isTick in H.
  destruct (takeTimer_Forall _ _ _ _ _ Htake Hok) as [Ht Hrest].
  unfold tickOk in Ht. unfold runCallback.
  destruct t as [tid d p cb]; destruct cb; cbn [timer_callback interval] in *.
  - unfold Part000.updateProgress. cbv zeta. case_cond; solve_reveal.
  - unfold Part000.update. cbv zeta. destruct resolve.
    case_cond; solve_reveal.
  - solve_reveal.
  - solve_reveal.
  - destruct Ht as [[period ->] Hi].
    unfold typeTick, scrollBottom. cbv zeta.
    destruct (Nat.ltb_spec (length text) (S i)).
    + assert (Hzero : ticking rest = 0) by (destruct (isTyping st); lia).
      cbn. rewrite (ticking_cleared tid rest Hzero).
      split; [destruct (isTyping st); lia|].
      apply Forall_forall. intros x [_ Hx]%list_elem_of_filter.
      revert x Hx. now apply Forall_forall.
    + solve_reveal.
  - unfold reschedule, updateSessionTime. cbn [interval].
    destruct p; solve_reveal.
Qed.

(** Every page that events lead to has at most one reveal in progress. *)
Lemma reachable_revealInv v e st : reachable v e st -> revealInv st.
Proof.
  induction 1 as [|st ev _ IH].
  - destruct v; (split; [reflexivity|]); cbn; solve_ticks.
  - destruct ev; cbn [handle].
    + exact IH.
    + destruct v, file; cbn [fileInput_change];
        first [exact IH
              | unfold revealInv, singleReveal in *; destruct IH;
                solve_reveal].
    + destruct (chatInput_disabled _); exact IH.
    + destruct (sendButton_disabled _);
        [exact IH|now apply revealInv_sendMessage].
    + destruct (chatInput_disabled _); [exact IH|].
      destruct v; cbn [chatInput_keydown negb].
      * now apply (revealInv_sendMessage script_js).
      * destruct shiftKey; [exact IH|].
        now apply (revealInv_sendMessage part_000).
    + destruct v; cbn [sendQuickPrompt];
        unfold ScriptJs.sendQuickPrompt, Part000.sendQuickPrompt;
        (destruct (chatInput_disabled _);
         [exact IH|]).
      * apply (revealInv_sendMessage script_js). exact IH.
      * apply (revealInv_sendMessage part_000). exact IH.
    + destruct v; cbn [clearChat];
        unfold ScriptJs.clearChat, Part000.clearChat, clearChatWith;
        destruct (querySelector_welcome _); exact IH.
    + destruct v; cbn [startNewSession].
      * split; [reflexivity|]. cbn. solve_ticks.
      * unfold Part000.startNewSession, block. cbn [foldl].
        unfold Part000.clearChat, clearChatWith.
        unfold revealInv, singleReveal in *.
        destruct (querySelector_welcome _); destruct IH; solve_reveal.
    + now apply revealInv_settle.
    + now apply revealInv_fire.
Qed.

(** ** Timer handles *)

Lemma timerPool_push next ts t :
  timer_id t = next -> timerPool next ts -> timerPool (S next) (t :: ts).
Proof.
  intros Hid [Hlt Hnd]. split.
  - constructor; [lia|]. eapply Forall_impl; [exact Hlt|]. cbn. lia.
  - cbn [map]. constructor; [|exact Hnd].
    rewrite Hid. intros Hin. apply list_elem_of_fmap in Hin.
    destruct Hin as (u & Hu & Hin).
    rewrite Forall_forall in Hlt. specialize (Hlt u Hin). lia.
Qed.

Lemma timerPool_take next ts id t rest :
  takeTimer id ts = Some (t, rest) -> timerPool next ts ->
  timerPool next rest /\ timer_id t < next
  /\ timer_id t ∉ map timer_id rest.
Proof.
  intros Htake [Hlt Hnd].
  destruct (takeTimer_Some _ _ _ _ Htake) as (pre & post & -> & -> & _).
  rewrite Forall_app, Forall_cons in Hlt. destruct Hlt as (Hpre & Ht & Hpost).
  unfold timerPool. rewrite map_app in *. cbn [map] in Hnd.
  apply NoDup_app in Hnd. destruct Hnd as (Hnpre & Hdisj & Hnpost).
  apply NoDup_cons in Hnpost. destruct Hnpost as [Hnt Hnpost].
  repeat split.
  - apply Forall_app. now split.
  - apply NoDup_app. repeat split; [assumption| |assumption].
    intros x Hx Hx'. apply (Hdisj x Hx). now right.
  - exact Ht.
  - intros Hin. apply elem_of_app in Hin. destruct Hin as [Hin|Hin].
    + apply (Hdisj _ Hin). now left.
    + contradiction.
Qed.

(** A timer that was taken out of the queue can be put back, with a new
    due time and callback. *)
Lemma timerPool_put_back next rest id t' :
  timerPool next rest -> id < next ->
  id ∉ map timer_id rest -> timer_id t' = id ->
  timerPool next (t' :: rest).
Proof.
  intros [Hlt Hnd] Ht Hnot Hid. split.
  - constructor; [lia|exact Hlt].
  - cbn [map]. constructor; [now rewrite Hid|exact Hnd].
Qed.

Lemma timerPool_cleared next ts id :
  timerPool next ts ->
  timerPool next (filter (fun t => timer_id t <> id) ts).
Proof.
  intros [Hlt Hnd]. split.
  - apply Forall_forall. intros x [_ Hx]%list_elem_of_filter.
    revert x Hx. now apply Forall_forall.
  - eapply sublist_NoDup; [exact Hnd|].
    apply (fmap_sublist timer_id), sublist_filter.
Qed.

(** In a pool the handle of a timer finds that timer. *)
Lemma takeTimer_In next ts t :
  timerPool next ts -> t ∈ ts ->
  exists rest, takeTimer (timer_id t) ts = Some (t, rest).
Proof.
  intros [_ Hnd]. induction ts as [|u ts IH]; intros Hin.
  - now apply elem_of_nil in Hin.
  - cbn [map] in Hnd. apply NoDup_cons in Hnd. destruct Hnd as [Hu Hnd].
    cbn [takeTimer]. apply elem_of_cons in Hin.
    destruct Hin as [->|Hin].
    + rewrite Nat.eqb_refl. eauto.
    + destruct (Nat.eqb_spec (timer_id u) (timer_id t)) as [Heq|Hne].
      * exfalso. apply Hu. rewrite Heq. now apply list_elem_of_fmap_2.
      * destruct (IH Hnd Hin) as (rest & ->). eauto.
Qed.

Arguments timerPool : simpl never.

Ltac solve_pool :=
  cbn;
  repeat first
    [ assumption
    | apply timerPool_cleared
    | apply timerPool_push; [reflexivity|]
    | eapply timerPool_put_back; [|eassumption|eassumption|reflexivity] ].

Lemma poolInv_sendMessage v e st :
  poolInv e st -> poolInv e (sendMessage v st).
Proof.
  unfold poolInv. intros [He Hpool].
  destruct v; cbn [sendMessage];
    unfold ScriptJs.sendMessage, Part000.sendMessage; cbv zeta;
    (destruct (_ || _); [now split|]);
    destruct (uriEncodable _); (split; [exact He|solve_pool]).
Qed.

Lemma poolInv_settle v e id r st :
  poolInv e st -> poolInv e (settle v id r st).
Proof.
  unfold poolInv, settle. intros [He Hpool].
  destruct (takeRequest id (requests st)) as [[rq rest]|]; [|now split].
  destruct rq as [file|aiBubble q];
    destruct v, r as [|[] [d|]]; (split; [exact He|solve_pool]).
Qed.

Lemma poolInv_fire e id st :
  poolInv e st -> poolInv e (fire id st).
Proof.
  unfold poolInv, fire. intros [He Hpool].
  destruct (takeTimer id (timers st)) as [[t rest]|] eqn:Htake;
    [|now split].
  destruct (timerPool_take _ _ _ _ _ Htake Hpool) as (Hrest & Hlt & Hnot).
  unfold runCallback.
  destruct t as [tid d p cb]; destruct cb; cbn [timer_callback timer_id] in *.
  - unfold Part000.updateProgress. cbv zeta.
    case_cond; (split; [exact He|solve_pool]).
  - unfold Part000.update. cbv zeta. destruct resolve.
    case_cond; (split; [exact He|solve_pool]).
  - split; [exact He|solve_pool].
  - split; [exact He|solve_pool].
  - unfold typeTick, scrollBottom, reschedule. cbv zeta. cbn [interval].
    destruct p; case_cond; (split; [exact He|solve_pool]).
  - unfold reschedule, updateSessionTime. cbn [interval].
    destruct p; (split; [exact He|solve_pool]).
Qed.

Lemma reachable_poolInv v e st : reachable v e st -> poolInv e st.
Proof.
  induction 1 as [|st ev _ IH].
  - destruct v; (split; [reflexivity|]); cbn.
    + split; constructor.
    + apply (timerPool_push 0 []); [reflexivity|]. split; constructor.
  - destruct ev; cbn [handle].
    + exact IH.
    + destruct IH as [He Hpool].
      destruct v, file; cbn [fileInput_change];
        (split; [exact He|solve_pool]).
    + destruct (chatInput_disabled _); exact IH.
    + destruct (sendButton_disabled _);
        [exact IH|now apply poolInv_sendMessage].
    + destruct (chatInput_disabled _); [exact IH|].
      destruct v; cbn [chatInput_keydown negb].
      * now apply (poolInv_sendMessage script_js).
      * destruct shiftKey; [exact IH|].
        now apply (poolInv_sendMessage part_000).
    + destruct v; cbn [sendQuickPrompt];
        unfold ScriptJs.sendQuickPrompt, Part000.sendQuickPrompt;
        (destruct (chatInput_disabled _); [exact IH|]).
      * apply (poolInv_sendMessage script_js). exact IH.
      * apply (poolInv_sendMessage part_000). exact IH.
    + destruct v; cbn [clearChat];
        unfold ScriptJs.clearChat, Part000.clearChat, clearChatWith;
        destruct (querySelector_welcome _); exact IH.
    + destruct IH as [He Hpool]. destruct v; cbn [startNewSession].
      * split; [exact He|]. split; constructor.
      * unfold Part000.startNewSession, block. cbn [foldl].
        unfold Part000.clearChat, clearChatWith.
        destruct (querySelector_welcome _);
          (split; [exact He|solve_pool]).
    + now apply poolInv_settle.
    + now apply poolInv_fire.
Qed.

(** ** A reveal in progress runs to its end *)

Lemma fire_tick_first st id period container text i d rest :
  takeTimer id (timers st)
  = Some (tickTimer id period container text i d, rest) ->
  i < length text ->
  fire id st
  = revealing id period container text st rest (S i) (d + period)%N
      (N.max (clock st) d) (TextContent (take i text)).
Proof.
  intros Htake Hi. unfold fire. rewrite Htake.
  unfold runCallback, tickTimer. cbn [timer_callback].
  unfold typeTick, scrollBottom. cbv zeta.
  assert ((length text <? S i) = false) as -> by (apply Nat.ltb_ge; lia).
  reflexivity.
Qed.

Lemma fire_tick_only st id period container text i d rest :
  takeTimer id (timers st)
  = Some (tickTimer id period container text i d, rest) ->
  length text <= i ->
  fire id st = revealed id container text st rest (N.max (clock st) d).
Proof.
  intros Htake Hi. unfold fire. rewrite Htake.
  unfold runCallback, tickTimer. cbn [timer_callback].
  unfold typeTick, scrollBottom. cbv zeta.
  assert ((length text <? S i) = true) as -> by (apply Nat.ltb_lt; lia).
  unfold revealed.
  rewrite <- (setBubble_twice container
                (InnerHTML (renderMarkdown (env st) text))
                (TextContent (take i text)) st).
  reflexivity.
Qed.

Lemma reveal_completes st id period container text i d rest :
  takeTimer id (timers st)
  = Some (tickTimer id period container text i d, rest) ->
  i <= length text ->
  exists now',
    fireTimes (S (length text - i)) id st
    = revealed id container text st rest now'.
Proof.
  intros Htake Hi. destruct (decide (i = length text)) as [->|Hne].
  - rewrite Nat.sub_diag. cbn [fireTimes]. eexists.
    now apply (fire_tick_only _ _ period _ _ (length text) d).
  - replace (S (length text - i)) with (S (S (length text - S i))) by lia.
    cbn [fireTimes].
    rewrite (fire_tick_first _ _ period container text i d rest Htake)
      by lia.
    destruct (fireTimes_revealed id period container text st rest (S i)
                (d + period)%N (N.max (clock st) d)
                (TextContent (take i text))) as (now' & E); [lia|].
    exists now'. exact E.
Qed.

(** C5: at most one reveal runs at any time.  On every page that events
    lead to, the reveals in progress and the answers awaited number one
    when the typing flag is set and none otherwise; as [sendMessage] starts
    an exchange only when the flag is clear, a reveal is never started
    while another is active, and no timer has to be cancelled.  The one
    reveal in progress writes to its own bubble and, tick after tick,
    arrives at the rendering of its own full text, after which no reveal
    is left and the flag is clear. *)
Theorem single_reveal_at_a_time (v : script) (e : environment) (st : state) :
  reachable v e st ->
  ticking (timers st) + asking (requests st)
    = (if isTyping st then 1 else 0)
  /\ ticking (timers st) <= 1
  /\ forall t container text i b,
       t ∈ timers st ->
       timer_callback t = TypeTick container text i ->
       bubble container st = Some b ->
       i <= length text
       /\ let st' := fireTimes (S (length text - i)) (timer_id t) st in
          bubble container st'
            = Some (InnerHTML (renderMarkdown e text))
          /\ ticking (timers st') = 0
          /\ isTyping st' = false.
Proof.
  intros Hreach.
  destruct (reachable_revealInv v e st Hreach) as [Hsingle Hok].
  destruct (reachable_poolInv v e st Hreach) as [He Hpool].
  unfold singleReveal in Hsingle.
  split; [exact Hsingle|]. split; [destruct (isTyping st); lia|].
  intros t container text i b Hin Hcb Hb.
  rewrite Forall_forall in Hok. pose proof (Hok t Hin) as Ht.
  unfold tickOk in Ht. rewrite Hcb in Ht. destruct Ht as [[period Hp] Hi].
  split; [exact Hi|].
  destruct (takeTimer_In _ _ t Hpool Hin) as (rest & Htake).
  assert (Htick : t = tickTimer (timer_id t) period container text i (due t))
    by (destruct t; cbn in *; now subst).
  pose proof Htake as Htake'. rewrite Htick in Htake' at 2.
  destruct (reveal_completes st (timer_id t) period container text i
              (due t) rest Htake' Hi) as (now' & E).
  cbv zeta. rewrite E, <- He. unfold revealed.
  split; [|split; [|reflexivity]].
  - now apply (bubble_setBubble _ _ st b).
  - cbn. apply ticking_cleared.
    rewrite (ticking_take _ _ _ _ Htake) in Hsingle.
    assert (isTick t = true) as Hisk by (unfold isTick; now rewrite Hcb).
    rewrite Hisk in Hsingle. destruct (isTyping st); lia.
Qed.

Lemma single_reveal_at_a_time_witness :
  let st := asked script_js 4000 1 (Http true (Some johnDoe))
              (uploadedJs caseClosed) in
  reachable script_js plainEnv st
  /\ ticking (timers st) = 1
  /\ ticking (timers (handle script_js (QuickPrompt question) st)) <= 1.
Proof.
  assert (Hreach : reachable script_js plainEnv
            (asked script_js 4000 1 (Http true (Some johnDoe))
               (uploadedJs caseClosed))).
  { apply reachable_run, reachable_run, reachable_load. }
  cbv zeta. split; [exact Hreach|]. split; [vm_compute; reflexivity|].
  apply (single_reveal_at_a_time script_js plainEnv
           (handle script_js (QuickPrompt question)
              (asked script_js 4000 1 (Http true (Some johnDoe))
                 (uploadedJs caseClosed)))).
  apply reachable_step, Hreach.
Defined.

(** ** What the chat log holds *)

Section Heap.

Variable e : environment.

Lemma isRobot_alter (m : gmap nat element) v c c' :
  isRobot (m !! c') -> isRobot (alter (writeBubble v) c m !! c').
Proof.
  intros [b Hb]. unfold isRobot. rewrite lookup_alter.
  case_decide as Hc; [|eauto]. subst c'. rewrite Hb. cbn. eauto.
Qed.

Lemma heap_fresh m next ts rs id :
  heapInv e m next ts rs -> is_Some (m !! id) -> id < next.
Proof. intros (Hm & _) [el Hel]. now apply (Hm id el). Qed.

Lemma isRobot_insert (m : gmap nat element) next ts rs el c :
  heapInv e m next ts rs ->
  isRobot (m !! c) -> isRobot (<[next := el]> m !! c).
Proof.
  intros Hinv [b Hb].
  assert (c < next) by (eapply heap_fresh; eauto).
  unfold isRobot. rewrite lookup_insert_ne by lia. eauto.
Qed.

Lemma heap_insert m next ts rs el :
  heapInv e m next ts rs -> nodeOk e el ->
  heapInv e (<[next := el]> m) (S next) ts rs.
Proof.
  intros Hinv Hel. pose proof Hinv as (Hm & Hts & Hrs).
  split; [|split].
  - intros id el'. rewrite lookup_insert. case_decide as Hid.
    + intros [= <-]. split; [lia|exact Hel].
    + intros Hl. destruct (Hm id el' Hl). split; [lia|assumption].
  - eapply Forall_impl; [exact Hts|]. intros t. unfold targetsRobot.
    destruct (timer_callback t); try easy.
    apply (isRobot_insert m next ts rs el _ Hinv).
  - eapply Forall_impl; [exact Hrs|]. intros r. unfold asksRobot.
    destruct (r.2); try easy.
    apply (isRobot_insert m next ts rs el _ Hinv).
Qed.

Lemma heap_write m next ts rs c v :
  heapInv e m next ts rs -> isRobot (m !! c) -> robotContent e v ->
  heapInv e (alter (writeBubble v) c m) next ts rs.
Proof.
  intros (Hm & Hts & Hrs) [b Hb] Hv. split; [|split].
  - intros id el. rewrite lookup_alter. case_decide as Hid.
    + subst id. rewrite Hb. cbn. intros [= <-].
      split; [now apply (Hm c _ Hb)|exact Hv].
    + apply Hm.
  - eapply Forall_impl; [exact Hts|]. intros t. unfold targetsRobot.
    destruct (timer_callback t); try easy. apply isRobot_alter.
  - eapply Forall_impl; [exact Hrs|]. intros r. unfold asksRobot.
    destruct (r.2); try easy. apply isRobot_alter.
Qed.

Lemma heap_timer m next ts rs t :
  heapInv e m next ts rs -> targetsRobot m t ->
  heapInv e m next (t :: ts) rs.
Proof.
  intros (Hm & Hts & Hrs) Ht.
  split; [exact Hm|]. split; [now constructor|exact Hrs].
Qed.

Lemma heap_take_timer m next ts rs id t rest :
  takeTimer id ts = Some (t, rest) -> heapInv e m next ts rs ->
  heapInv e m next rest rs /\ targetsRobot m t.
Proof.
  intros Htake (Hm & Hts & Hrs).
  destruct (takeTimer_Forall _ _ _ _ _ Htake Hts) as [Ht Hrest].
  split; [|exact Ht]. split; [exact Hm|]. split; assumption.
Qed.

Lemma heap_cleared m next ts rs id :
  heapInv e m next ts rs ->
  heapInv e m next (filter (fun t => timer_id t <> id) ts) rs.
Proof.
  intros (Hm & Hts & Hrs). split; [exact Hm|]. split; [|exact Hrs].
  apply Forall_forall. intros x [_ Hx]%list_elem_of_filter.
  revert x Hx. now apply Forall_forall.
Qed.

Lemma heap_request m next ts rs r :
  heapInv e m next ts rs -> asksRobot m r ->
  heapInv e m next ts (rs ++ [r]).
Proof.
  intros (Hm & Hts & Hrs) Hr. split; [exact Hm|]. split; [exact Hts|].
  apply Forall_app. split; [exact Hrs|]. now constructor.
Qed.

Lemma heap_take_request m next ts rs id r rest :
  takeRequest id rs = Some (r, rest) -> heapInv e m next ts rs ->
  heapInv e m next ts rest /\ asksRobot m (id, r).
Proof.
  intros Htake (Hm & Hts & Hrs).
  destruct (takeRequest_Some _ _ _ _ Htake) as (pre & post & -> & ->).
  rewrite Forall_app, Forall_cons in Hrs. destruct Hrs as (Hpre & Hr & Hpost).
  split; [|exact Hr]. split; [exact Hm|]. split; [exact Hts|].
  apply Forall_app. now split.
Qed.

Lemma heap_loaded (chat : list (bool * jsstring)) :
  heapInv e (map_seq 0 (map (fun m => Markup m.1 m.2) chat)) (length chat)
    [] [].
Proof.
  split; [|split; constructor].
  intros id el Hl. apply lookup_map_seq_Some in Hl. destruct Hl as [_ Hl].
  split.
  - apply lookup_lt_Some in Hl. rewrite length_map in Hl. lia.
  - rewrite list_lookup_fmap in Hl.
    destruct (chat !! (id - 0)); [|discriminate].
    now injection Hl as <-.
Qed.

End Heap.

Arguments heapInv : simpl never.

Ltac solve_robot :=
  repeat first
    [ eassumption
    | apply isRobot_alter
    | (unfold isRobot; rewrite lookup_insert_eq; eexists; reflexivity) ].

Ltac solve_content :=
  first [ left; reflexivity
        | right; left; eexists; reflexivity
        | right; right; eexists; reflexivity ].

Ltac solve_heap :=
  cbn;
  repeat first
    [ assumption
    | apply heap_cleared
    | apply heap_timer;
        [|first [exact I | unfold targetsRobot; cbn [timer_callback];
                          solve_robot]]
    | apply heap_request;
        [|first [exact I | unfold asksRobot; cbn [snd]; solve_robot]]
    | apply heap_write; [|solve_robot|solve_content]
    | apply heap_insert;
        [|first [exact I | eexists; reflexivity | solve_content]] ].

Lemma nodeInv_sendMessage v e st :
  nodeInv e st -> nodeInv e (sendMessage v st).
Proof.
  unfold nodeInv. intros H.
  destruct v; cbn [sendMessage];
    unfold ScriptJs.sendMessage, Part000.sendMessage; cbv zeta;
    (destruct (_ || _); [exact H|]);
    destruct (uriEncodable _); solve_heap.
Qed.

Lemma nodeInv_settle v e id r st :
  env st = e -> nodeInv e st -> nodeInv e (settle v id r st).
Proof.
  unfold nodeInv, settle. intros He H.
  destruct (takeRequest id (requests st)) as [[rq rest]|] eqn:Hreq;
    [|exact H].
  destruct (heap_take_request _ _ _ _ _ _ _ _ Hreq H) as [Hrest Hr].
  unfold asksRobot in Hr. cbn [snd] in Hr.
  destruct rq as [file|aiBubble q];
    destruct v, r as [|[] [d|]]; solve_heap.
Qed.

Lemma nodeInv_fire e id st :
  env st = e -> nodeInv e st -> nodeInv e (fire id st).
Proof.
  unfold nodeInv, fire. intros He H.
  destruct (takeTimer id (timers st)) as [[t rest]|] eqn:Htake;
    [|exact H].
  destruct (heap_take_timer _ _ _ _ _ _ _ _ Htake H) as [Hrest Ht].
  unfold targetsRobot in Ht. unfold runCallback.
  destruct t as [tid d p cb]; destruct cb; cbn [timer_callback timer_id] in *.
  - unfold Part000.updateProgress. cbv zeta. case_cond; solve_heap.
  - unfold Part000.update. cbv zeta. destruct resolve. case_cond; solve_heap.
  - solve_heap.
  - solve_heap.
  - unfold typeTick, scrollBottom, reschedule. cbv zeta. cbn [interval].
    destruct p; case_cond; cbn; rewrite ?He; solve_heap.
  - unfold reschedule, updateSessionTime. cbn [interval].
    destruct p; solve_heap.
Qed.

Lemma reachable_nodeInv v e st : reachable v e st -> nodeInv e st.
Proof.
  intros Hreach. pose proof (reachable_poolInv v e st Hreach) as Hpool.
  revert Hpool. induction Hreach as [|st ev Hreach IH]; intros _.
  - destruct v; unfold nodeInv; cbn.
    + apply heap_loaded.
    + apply heap_timer; [apply heap_loaded|exact I].
  - pose proof (reachable_poolInv v e st Hreach) as [He _].
    specialize (IH (reachable_poolInv v e st Hreach)).
    destruct ev; cbn [handle].
    + exact IH.
    + unfold nodeInv in *.
      destruct v, file; cbn [fileInput_change]; solve_heap.
    + destruct (chatInput_disabled _); exact IH.
    + destruct (sendButton_disabled _);
        [exact IH|now apply nodeInv_sendMessage].
    + destruct (chatInput_disabled _); [exact IH|].
      destruct v; cbn [chatInput_keydown negb].
      * now apply (nodeInv_sendMessage script_js).
      * destruct shiftKey; [exact IH|].
        now apply (nodeInv_sendMessage part_000).
    + destruct v; cbn [sendQuickPrompt];
        unfold ScriptJs.sendQuickPrompt, Part000.sendQuickPrompt;
        destruct (chatInput_disabled _).
      * unfold nodeInv in *. solve_heap.
      * apply (nodeInv_sendMessage script_js). exact IH.
      * unfold nodeInv in *. solve_heap.
      * apply (nodeInv_sendMessage part_000). exact IH.
    + unfold nodeInv in *. destruct v; cbn [clearChat];
        unfold ScriptJs.clearChat, Part000.clearChat, clearChatWith;
        destruct (querySelector_welcome _) as [w|] eqn:Hw;
        try (apply querySelector_welcome_isWelcome in Hw;
             destruct w as [| |[] html]; try discriminate Hw);
        solve_heap.
    + destruct v; cbn [startNewSession].
      * unfold nodeInv. cbn. rewrite He. apply heap_loaded.
      * unfold nodeInv in *. unfold Part000.startNewSession, block.
        cbn [foldl]. unfold Part000.clearChat, clearChatWith.
        destruct (querySelector_welcome _) as [w|] eqn:Hw;
          try (apply querySelector_welcome_isWelcome in Hw;
               destruct w as [| |[] html]; try discriminate Hw);
          solve_heap.
    + now apply nodeInv_settle.
    + now apply nodeInv_fire.
Qed.

Arguments below : simpl never.

Lemma below_snoc next children :
  below next children -> below (S next) (children ++ [next]).
Proof.
  intros H. apply Forall_app. split.
  - eapply Forall_impl; [exact H|]. cbn. lia.
  - constructor; [lia|constructor].
Qed.

Lemma below_seq n : below n (seq 0 n).
Proof. apply Forall_forall. intros id Hin%elem_of_seq. lia. Qed.

Ltac solve_below :=
  cbn;
  repeat first
    [ assumption
    | apply below_snoc
    | solve [unfold below; repeat (constructor; [lia|]); constructor] ].

Lemma childrenInv_sendMessage v st :
  childrenInv st -> childrenInv (sendMessage v st).
Proof.
  unfold childrenInv. intros H.
  destruct v; cbn [sendMessage];
    unfold ScriptJs.sendMessage, Part000.sendMessage; cbv zeta;
    (destruct (_ || _); [exact H|]);
    destruct (uriEncodable _); solve_below.
Qed.

Lemma childrenInv_settle v id r st :
  childrenInv st -> childrenInv (settle v id r st).
Proof.
  unfold childrenInv, settle. intros H.
  destruct (takeRequest id (requests st)) as [[rq rest]|]; [|exact H].
  destruct rq as [file|aiBubble q];
    destruct v, r as [|[] [d|]]; solve_below.
Qed.

Lemma childrenInv_fire id st :
  childrenInv st -> childrenInv (fire id st).
Proof.
  unfold childrenInv, fire. intros H.
  destruct (takeTimer id (timers st)) as [[t rest]|]; [|exact H].
  unfold runCallback.
  destruct t as [tid d p cb]; destruct cb; cbn [timer_callback timer_id] in *.
  - unfold Part000.updateProgress. cbv zeta. case_cond; solve_below.
  - unfold Part000.update. cbv zeta. destruct resolve.
    case_cond; solve_below.
  - solve_below.
  - solve_below.
  - unfold typeTick, scrollBottom, reschedule. cbv zeta. cbn [interval].
    destruct p; case_cond; solve_below.
  - unfold reschedule, updateSessionTime. cbn [interval].
    destruct p; solve_below.
Qed.

Lemma reachable_childrenInv v e st : reachable v e st -> childrenInv st.
Proof.
  induction 1 as [|st ev _ IH].
  - destruct v; unfold childrenInv; cbn; apply below_seq.
  - destruct ev; cbn [handle].
    + exact IH.
    + unfold childrenInv in *.
      destruct v, file; cbn [fileInput_change]; solve_below.
    + destruct (chatInput_disabled _); exact IH.
    + destruct (sendButton_disabled _);
        [exact IH|now apply childrenInv_sendMessage].
    + destruct (chatInput_disabled _); [exact IH|].
      destruct v; cbn [chatInput_keydown negb].
      * now apply (childrenInv_sendMessage script_js).
      * destruct shiftKey; [exact IH|].
        now apply (childrenInv_sendMessage part_000).
    + destruct v; cbn [sendQuickPrompt];
        unfold ScriptJs.sendQuickPrompt, Part000.sendQuickPrompt;
        destruct (chatInput_disabled _).
      * unfold childrenInv in *. solve_below.
      * apply (childrenInv_sendMessage script_js). exact IH.
      * unfold childrenInv in *. solve_below.
      * apply (childrenInv_sendMessage part_000). exact IH.
    + unfold childrenInv in *. destruct v; cbn [clearChat];
        unfold ScriptJs.clearChat, Part000.clearChat, clearChatWith;
        destruct (querySelector_welcome _); solve_below.
    + destruct v; cbn [startNewSession].
      * unfold childrenInv. cbn. apply below_seq.
      * unfold childrenInv in *. unfold Part000.startNewSession, block.
        cbn [foldl]. unfold Part000.clearChat, clearChatWith.
        destruct (querySelector_welcome _); solve_below.
    + now apply childrenInv_settle.
    + now apply childrenInv_fire.
Qed.

(** Appending to a log whose children exist leaves the entries shown so
    far as they are. *)
Lemma chatLog_appendChild_fresh el st :
  childrenInv st ->
  chatLog (snd (appendChild el st)) = chatLog st ++ [el].
Proof.
  intros H. rewrite chatLog_appendChild. f_equal. unfold chatLog.
  unfold childrenInv, below in H. induction H as [|id ids Hid _ IH].
  - reflexivity.
  - cbn [omap list_omap]. rewrite IH. rewrite lookup_insert_ne by lia.
    reflexivity.
Qed.

Lemma chatLog_nodes st el :
  el ∈ chatLog st -> exists id, nodes st !! id = Some el.
Proof.
  unfold chatLog. intros Hin. apply list_elem_of_omap in Hin.
  destruct Hin as (id & _ & Hid). eauto.
Qed.

(** C10: user and system messages enter the chat log escaped, and stay so.
    [addUserMessage] and [addSystemMessage] append one entry whose bubble
    holds [escapeHtml text]; escaped text contains no markup, the parser
    reads it back as the text itself.  On every page that events lead to,
    each user and each system message of the log holds escaped text, while
    the bubble of an assistant message is empty, shows a prefix as plain
    text, or holds the markdown rendering of an answer: the renderer is
    applied to assistant answers only. *)
Theorem chat_log_is_escaped (v : script) (e : environment) (st : state) :
  reachable v e st ->
  (forall text,
     chatLog (addUserMessage text st)
       = chatLog st ++ [MessageUser (InnerHTML (escapeHtml text))]
     /\ chatLog (addSystemMessage text st)
       = chatLog st
         ++ [MessageAi FaInfoCircle (InnerHTML (escapeHtml text))]
     /\ parsedText (escapeHtml text) = Some text)
  /\ (forall el, el ∈ chatLog st ->
        match el with
        | MessageUser b | MessageAi FaInfoCircle b =>
            exists text,
              b = InnerHTML (escapeHtml text)
              /\ parsedText (escapeHtml text) = Some text
        | MessageAi FaRobot b =>
            b = InnerHTML []
            \/ (exists s, b = TextContent s)
            \/ (exists text, b = InnerHTML (renderMarkdown e text))
        | Markup _ _ => True
        end).
Proof.
  intros Hreach. split.
  - intros text. pose proof (reachable_childrenInv v e st Hreach) as Hc.
    split; [|split].
    + apply (chatLog_appendChild_fresh
               (MessageUser (InnerHTML (escapeHtml text))) st Hc).
    + apply (chatLog_appendChild_fresh
               (MessageAi FaInfoCircle (InnerHTML (escapeHtml text))) st Hc).
    + apply parsedText_escapeHtml.
  - intros el Hin. destruct (chatLog_nodes st el Hin) as (id & Hid).
    destruct (reachable_nodeInv v e st Hreach) as (Hm & _).
    destruct (Hm id el Hid) as [_ Hok].
    destruct el as [b|[] b|w html]; cbn in Hok.
    + destruct Hok as [text ->]. exists text.
      split; [reflexivity|apply parsedText_escapeHtml].
    + exact Hok.
    + destruct Hok as [text ->]. exists text.
      split; [reflexivity|apply parsedText_escapeHtml].
    + exact I.
Qed.

Lemma chat_log_is_escaped_witness :
  let st := uploadedJs caseClosed in
  let text := lit "<b>Who</b> & why?" in
  reachable script_js plainEnv st
  /\ escapeHtml text = lit "&lt;b&gt;Who&lt;/b&gt; &amp; why?"
  /\ chatLog (addUserMessage text st)
     = chatLog st ++ [MessageUser (InnerHTML (escapeHtml text))].
Proof.
  assert (Hreach : reachable script_js plainEnv (uploadedJs caseClosed))
    by apply reachable_run, reachable_load.
  cbv zeta. split; [exact Hreach|]. split; [reflexivity|].
  pose proof (chat_log_is_escaped script_js plainEnv
                (uploadedJs caseClosed) Hreach) as [Happend _].
  exact (proj1 (Happend (lit "<b>Who</b> & why?"))).
Defined.

(** ** The scenarios of the specification, and two races of part_000 *)

(** In the sample runs every timer fires when it falls due. *)
Example sample_runs_punctual :
  punctual part_000 200
    [ (0%N, FileChange (Some reportPdf));
      (7000%N, Response 0 (Http true (Some caseClosed)));
      (11000%N, Elapse 0) ]
    (load part_000 plainEnv) = true
  /\ punctual script_js 200
       [ (0%N, FileChange (Some reportPdf));
         (3000%N, Response 0 (Http true (Some caseClosed))) ]
       (load script_js plainEnv) = true
  /\ punctual part_000 400
       [ (12000%N, UserTypes question); (12001%N, ClickSend);
         (12500%N, Response 1 NetworkError);
         (30000%N, UserTypes question); (30001%N, ClickSend);
         (30500%N, Response 2 NetworkError) ]
       (uploaded000 caseClosed) = true
  /\ punctual script_js 400
       [ (4000%N, UserTypes question); (4001%N, ClickSend);
         (4500%N, Response 1 (Http true (Some johnDoe)));
         (6000%N, Elapse 0) ]
       (uploadedJs caseClosed) = true.
Proof.
  do 3 (split; [vm_compute; reflexivity|]). vm_compute; reflexivity.
Qed.

(** Scenario A: [report.pdf] is selected, the upload answers with the
    summary "Case closed."; the summary pane shows it and the chat is
    enabled. *)
Example scenario_upload_succeeds :
  let st := uploadedJs caseClosed in
  summaryContent (page st) = lit "Case closed."
  /\ chatInput_disabled (page st) = false
  /\ sendButton_disabled (page st) = false
  /\ shownProgress (history st) = [30; 100].
Proof.
  cbv zeta. do 3 (split; [vm_compute; reflexivity|]).
  vm_compute; reflexivity.
Qed.

(** Scenario B: with the chat enabled the question is put and answered
    with "John Doe"; once the reveal is over the last message of the log is
    the rendered answer and the send button is enabled again. *)
Example scenario_question_answered :
  let st := advance 400 6000
              (asked script_js 4000 1 (Http true (Some johnDoe))
                 (uploadedJs caseClosed)) in
  last (chatLog st) = Some (MessageAi FaRobot (InnerHTML (lit "John Doe")))
  /\ isTyping st = false
  /\ sendButton_disabled (page st) = false
  /\ timers st = [].
Proof.
  cbv zeta. do 3 (split; [vm_compute; reflexivity|]).
  vm_compute; reflexivity.
Qed.

(** Scenario C: the upload answers with status 500; the page is as before
    the upload, the chat still disabled, the progress at the floor. *)
Example scenario_upload_fails :
  let st := run script_js 200
              [ (0%N, FileChange (Some reportPdf));
                (3000%N, Response 0 (Http false None)) ]
              (load script_js plainEnv) in
  uploadArea_display (page st) = DisplayBlock
  /\ processingOverlay_display (page st) = DisplayNone
  /\ chatInput_disabled (page st) = true
  /\ progressPercent (page st) = 0
  /\ shownProgress (history st) = [30; 0].
Proof.
  cbv zeta. do 4 (split; [vm_compute; reflexivity|]).
  vm_compute; reflexivity.
Qed.

(** In part_000 [simulateSideLoading] is started but not awaited: its ticks
    fall between those of [simulateProgress], and the percentages shown go
    up and down. *)
Example side_loading_interleaves :
  take 12 (shownProgress (history rampOnly))
    = [11; 12; 13; 14; 15; 16; 17; 81; 18; 82; 83; 19]
  /\ nondecreasing (shownProgress (history rampOnly)) = false.
Proof. split; vm_compute; reflexivity. Qed.

(** The same timer outlives the response: when the upload completes after
    three seconds the 100 that the handler shows is overwritten, and so is
    the floor value after a failure. *)
Example side_loading_outlives_response :
  let start := handle part_000 (FileChange (Some reportPdf))
                 (load part_000 plainEnv) in
  let ok := run part_000 200
              [ (3000%N, Response 0 (Http true (Some caseClosed)));
                (10000%N, Elapse 0) ] start in
  let failed := run part_000 200
                  [ (3000%N, Response 0 NetworkError);
                    (10000%N, Elapse 0) ] start in
  progressPercent (page ok) = 80
  /\ progressPercent (page failed) = 80.
Proof. cbv zeta. split; vm_compute; reflexivity. Qed.

(** ** The theme *)

Section Theme.

Lemma mode_classes_differ : darkMode <> lightMode.
Proof. discriminate. Qed.

Lemma dark_is_dark : bool_decide (dark = dark) = true.
Proof. now apply bool_decide_eq_true_2. Qed.

Lemma light_not_dark : bool_decide (light = dark) = false.
Proof. now apply bool_decide_eq_false_2. Qed.

Ltac theme_fields :=
  cbn [body_classList localStorage_theme themeToggleBtn sunIcon_opacity
       moonIcon_opacity negb];
  rewrite ?dark_is_dark, ?light_not_dark.

Ltac solve_classes :=
  repeat first [ rewrite elem_of_union | rewrite elem_of_difference
               | rewrite elem_of_singleton ];
  intuition congruence.

(** X1: whatever classes the body had and whatever string is passed,
    [applyTheme] leaves exactly one of the two mode classes on the body,
    dark-mode for the string dark and light-mode for every other string,
    keeps all other classes, and stores the string as it was passed. *)
Theorem applyTheme_one_mode theme ts :
  let ts' := applyTheme theme ts in
  (darkMode ∈ body_classList ts' <-> theme = dark)
  /\ (lightMode ∈ body_classList ts' <-> theme <> dark)
  /\ (forall c, c <> darkMode -> c <> lightMode ->
        (c ∈ body_classList ts' <-> c ∈ body_classList ts))
  /\ localStorage_theme ts' = Some theme.
Proof.
  pose proof mode_classes_differ as Hne.
  unfold applyTheme. theme_fields.
  destruct (bool_decide_reflect (theme = dark)) as [Heq|Hneq];
    (split; [solve_classes|]); (split; [solve_classes|]);
    (split; [|reflexivity]); intros c Hd Hl; solve_classes.
Qed.

Lemma themed_dark_class ts :
  darkMode ∈ body_classList (themed dark ts).
Proof.
  unfold themed, updateThemeIcon, applyTheme. theme_fields.
  destruct (themeToggleBtn ts); theme_fields; solve_classes.
Qed.

Lemma themed_light_class ts :
  darkMode ∉ body_classList (themed light ts).
Proof.
  pose proof mode_classes_differ as Hne.
  unfold themed, updateThemeIcon, applyTheme. theme_fields.
  destruct (themeToggleBtn ts); theme_fields; solve_classes.
Qed.

Lemma themed_button theme ts :
  themeToggleBtn (themed theme ts) = themeToggleBtn ts.
Proof.
  unfold themed, updateThemeIcon, applyTheme. theme_fields.
  now destruct (themeToggleBtn ts).
Qed.

Lemma themed_themed a b ts :
  (b = dark \/ b = light) ->
  themed b (themed a ts) = themed b ts.
Proof.
  pose proof mode_classes_differ as Hne.
  intros Hb. unfold themed, updateThemeIcon, applyTheme. theme_fields.
  destruct (themeToggleBtn ts) eqn:Hbtn; theme_fields;
    rewrite ?Hbtn; theme_fields;
    f_equal; apply set_eq; intros c;
    destruct Hb as [-> | ->];
    theme_fields; destruct (bool_decide (a = dark)); solve_classes.
Qed.

Lemma click_themed_dark ts :
  themeToggleBtn ts = true ->
  themeToggle_click (themed dark ts) = themed light ts.
Proof.
  intros Hbtn. unfold themeToggle_click.
  rewrite themed_button, Hbtn. cbn [negb].
  rewrite (bool_decide_eq_true_2 _ (themed_dark_class ts)).
  apply themed_themed. now right.
Qed.

Lemma click_themed_light ts :
  themeToggleBtn ts = true ->
  themeToggle_click (themed light ts) = themed dark ts.
Proof.
  intros Hbtn. unfold themeToggle_click.
  rewrite themed_button, Hbtn. cbn [negb].
  rewrite (bool_decide_eq_false_2 _ (themed_light_class ts)).
  apply themed_themed. now left.
Qed.

(** X2: once the script has set the theme to dark or to light, a click
    on the toggle switches to the other theme (class, stored value and
    icons), and a second click restores the state exactly. *)
Theorem toggle_twice_restores theme ts :
  themeToggleBtn ts = true ->
  theme = dark \/ theme = light ->
  let other := if bool_decide (theme = dark) then light else dark in
  themeToggle_click (themed theme ts) = themed other ts
  /\ themeToggle_click (themeToggle_click (themed theme ts))
     = themed theme ts.
Proof.
  intros Hbtn [-> | ->]; rewrite ?dark_is_dark, ?light_not_dark; cbv zeta.
  - rewrite (click_themed_dark _ Hbtn). split; [reflexivity|].
    now apply click_themed_light.
  - rewrite (click_themed_light _ Hbtn). split; [reflexivity|].
    now apply click_themed_dark.
Qed.

Lemma toggle_twice_restores_witness :
  themeToggleBtn freshTheme = true
  /\ themeToggle_click (themed dark freshTheme) = themed light freshTheme
  /\ themeToggle_click (themeToggle_click (themed dark freshTheme))
     = themed dark freshTheme.
Proof.
  split; [reflexivity|].
  apply (toggle_twice_restores dark freshTheme); [reflexivity|now left].
Defined.

(** X3: the theme at page load when nothing usable is stored.  With no
    stored theme, or with the empty string stored, the page comes up in the
    dark theme and the string dark is written to the store. *)
Theorem loadTheme_default ts :
  localStorage_theme ts = None \/ localStorage_theme ts = Some [] ->
  loadTheme ts = themed dark ts
  /\ darkMode ∈ body_classList (loadTheme ts)
  /\ localStorage_theme (loadTheme ts) = Some dark.
Proof.
  intros Hstored.
  assert (Hload : loadTheme ts = themed dark ts)
    by (unfold loadTheme; destruct Hstored as [-> | ->]; reflexivity).
  rewrite Hload. split; [reflexivity|]. split; [apply themed_dark_class|].
  unfold themed, updateThemeIcon, applyTheme. theme_fields.
  now destruct (themeToggleBtn ts).
Qed.

Lemma loadTheme_default_witness :
  loadTheme freshTheme = themed dark freshTheme
  /\ darkMode ∈ body_classList (loadTheme freshTheme)
  /\ localStorage_theme (loadTheme freshTheme) = Some dark.
Proof. apply (loadTheme_default freshTheme). now left. Defined.

(** X4: the theme at page load when a string other than dark is stored,
    whether light or a string the script never writes.  The page comes up
    in the light theme with the sun icon shown, the stored string is written
    back as it is, and the first click on the toggle leads to the dark
    theme. *)
Theorem loadTheme_unknown ts s :
  localStorage_theme ts = Some s -> s <> [] -> s <> dark ->
  let ts' := loadTheme ts in
  lightMode ∈ body_classList ts'
  /\ (darkMode ∉ body_classList ts')
  /\ localStorage_theme ts' = Some s
  /\ (themeToggleBtn ts = true ->
        sunIcon_opacity ts' = lit "1"
        /\ moonIcon_opacity ts' = lit "0"
        /\ themeToggle_click ts' = themed dark ts).
Proof.
  pose proof mode_classes_differ as Hne.
  intros Hs Hnil Hdark. unfold loadTheme. rewrite Hs.
  assert (orElse (Some s) dark = s) as ->
    by (destruct s; [contradiction|reflexivity]).
  fold (themed s ts).
  assert (Hcls : darkMode ∉ body_classList (themed s ts)).
  { unfold themed, updateThemeIcon, applyTheme. theme_fields.
    rewrite (bool_decide_eq_false_2 _ Hdark).
    destruct (themeToggleBtn ts); theme_fields; solve_classes. }
  cbv zeta. split; [|split; [exact Hcls|split]].
  - unfold themed, updateThemeIcon, applyTheme. theme_fields.
    rewrite (bool_decide_eq_false_2 _ Hdark).
    destruct (themeToggleBtn ts); theme_fields; solve_classes.
  - unfold themed, updateThemeIcon, applyTheme. theme_fields.
    now destruct (themeToggleBtn ts).
  - intros Hbtn. split; [|split].
    + unfold themed, updateThemeIcon, applyTheme. theme_fields.
      rewrite Hbtn. theme_fields.
      now rewrite (bool_decide_eq_false_2 _ Hdark).
    + unfold themed, updateThemeIcon, applyTheme. theme_fields.
      rewrite Hbtn. theme_fields.
      now rewrite (bool_decide_eq_false_2 _ Hdark).
    + unfold themeToggle_click. rewrite themed_button, Hbtn. cbn [negb].
      rewrite (bool_decide_eq_false_2 _ Hcls).
      apply themed_themed. now left.
Qed.

Lemma loadTheme_unknown_witness :
  localStorage_theme sepiaTheme = Some (lit "sepia")
  /\ lightMode ∈ body_classList (loadTheme sepiaTheme)
  /\ (darkMode ∉ body_classList (loadTheme sepiaTheme))
  /\ localStorage_theme (loadTheme sepiaTheme) = Some (lit "sepia")
  /\ (themeToggleBtn sepiaTheme = true ->
        sunIcon_opacity (loadTheme sepiaTheme) = lit "1"
        /\ moonIcon_opacity (loadTheme sepiaTheme) = lit "0"
        /\ themeToggle_click (loadTheme sepiaTheme)
           = themed dark sepiaTheme).
Proof.
  split; [reflexivity|].
  apply (loadTheme_unknown sepiaTheme (lit "sepia"));
    [reflexivity|discriminate|discriminate].
Defined.

End Theme.

(** ** An exchange, step by step *)

Lemma omap_lookup_insert_below (m : gmap nat element) k el children :
  below k children ->
  omap (fun id => <[k := el]> m !! id) children
  = omap (fun id => m !! id) children.
Proof.
  unfold below. induction 1 as [|id ids Hid _ IH]; [reflexivity|].
  cbn [omap list_omap]. rewrite IH, lookup_insert_ne by lia. reflexivity.
Qed.

Lemma below_weaken k k' children :
  k <= k' -> below k children -> below k' children.
Proof.
  intros Hle H. unfold below in *. eapply Forall_impl; [exact H|].
  cbn. lia.
Qed.

(** The log after two nodes have been appended. *)
Lemma chatLog_two (m : gmap nat element) n children a b :
  below n children ->
  omap (fun id => <[S n := b]> (<[n := a]> m) !! id)
    ((children ++ [n]) ++ [S n])
  = omap (fun id => m !! id) children ++ [a; b].
Proof.
  intros Hb. rewrite !omap_app.
  rewrite (omap_lookup_insert_below _ (S n))
    by (apply (below_weaken n); [lia|exact Hb]).
  rewrite (omap_lookup_insert_below _ n) by exact Hb.
  cbn [omap list_omap]. rewrite lookup_insert_eq.
  rewrite lookup_insert_ne by lia. rewrite lookup_insert_eq.
  now rewrite <- app_assoc.
Qed.

(** X8: a submission that passes the guard.  When the trimmed input is not
    empty, no answer is in progress and the question can be encoded,
    [sendMessage] appends the escaped question and an empty assistant
    bubble at the end of the log, clears the input field, sets the typing
    flag, disables the send button and issues exactly one request, which
    carries the trimmed question and the new bubble; no timer is started
    before the request settles. *)
Theorem sendMessage_accepted (v : script) (e : environment) (st : state) :
  reachable v e st ->
  isEmpty (trim (chatInput_value (page st))) = false ->
  isTyping st = false ->
  uriEncodable (trim (chatInput_value (page st))) = true ->
  let q := trim (chatInput_value (page st)) in
  let rq := AskRequest (S (nextNode st)) q in
  let st' := sendMessage v st in
  chatLog st'
  = chatLog st ++ [MessageUser (InnerHTML (escapeHtml q));
                   MessageAi FaRobot (InnerHTML [])]
  /\ chatInput_value (page st') = []
  /\ isTyping st' = true
  /\ sendButton_disabled (page st') = true
  /\ requests st' = requests st ++ [(nextRequest st, rq)]
  /\ trace st' = Fetch (nextRequest st) rq :: trace st
  /\ timers st' = timers st.
Proof.
  intros Hreach Hq Htyping Henc. cbv zeta.
  pose proof (reachable_childrenInv v e st Hreach) as Hc.
  assert (Hsend :
    sendMessage v st
    = fetch (AskRequest (S (nextNode st))
               (trim (chatInput_value (page st))))
        (snd (createAIBubble
                (block [ addUserMessage (trim (chatInput_value (page st)));
                         set_chatInput_value [];
                         set_isTyping true;
                         set_sendButton_disabled true ] st)))).
  { destruct v; cbn [sendMessage];
      unfold ScriptJs.sendMessage, Part000.sendMessage; cbv zeta;
      rewrite Hq, Htyping; cbn [orb];
      unfold createAIBubble, appendChild; cbv zeta;
      now rewrite Henc. }
  rewrite Hsend. split; [|repeat split].
  unfold chatLog. cbn. now apply chatLog_two.
Qed.

Lemma sendMessage_accepted_witness :
  let st := handle script_js (UserTypes (lit "  Who?  "))
              (uploadedJs caseClosed) in
  reachable script_js plainEnv st
  /\ chatLog (sendMessage script_js st)
     = chatLog st ++ [MessageUser (InnerHTML (escapeHtml (lit "Who?")));
                      MessageAi FaRobot (InnerHTML [])]
  /\ requests (sendMessage script_js st)
     = requests st ++ [(nextRequest st, AskRequest (S (nextNode st))
                                          (lit "Who?"))].
Proof.
  assert (Hreach : reachable script_js plainEnv
            (handle script_js (UserTypes (lit "  Who?  "))
               (uploadedJs caseClosed)))
    by apply reachable_step, reachable_run, reachable_load.
  cbv zeta. split; [exact Hreach|].
  pose proof (sendMessage_accepted script_js plainEnv _ Hreach
                eq_refl eq_refl eq_refl) as (Hlog & _ & _ & _ & Hrq & _).
  split; [exact Hlog|exact Hrq].
Defined.

(** What [sendMessage] does when [encodeURIComponent] throws. *)
Lemma sendMessage_unencodable v st :
  isEmpty (trim (chatInput_value (page st))) = false ->
  isTyping st = false ->
  uriEncodable (trim (chatInput_value (page st))) = false ->
  exists st1,
    sendMessage v st
    = typeText (typingPeriod v) (S (nextNode st)) (fallbackText v st) st1
    /\ nodes st1 !! S (nextNode st) = Some (MessageAi FaRobot (InnerHTML []))
    /\ timers st1 = timers st /\ nextTimer st1 = nextTimer st
    /\ clock st1 = clock st /\ env st1 = env st
    /\ requests st1 = requests st /\ trace st1 = trace st.
Proof.
  intros Hq Htyping Henc.
  destruct v; cbn [sendMessage];
    unfold ScriptJs.sendMessage, Part000.sendMessage; cbv zeta;
    rewrite Hq, Htyping; cbn [orb];
    unfold createAIBubble, appendChild; cbv zeta; rewrite Henc.
  - eexists. split; [reflexivity|]. cbn.
    split; [apply lookup_insert_eq|repeat split].
  - unfold Part000.askFailed, drawRandom. eexists.
    split; [reflexivity|]. cbn.
    split; [apply lookup_insert_eq|repeat split].
Qed.

(** X9: a question that cannot be encoded.  When the trimmed input holds a
    lone surrogate, [encodeURIComponent] throws inside the [try]: no request
    is issued and nothing is observed from outside, the [catch] clause
    starts the reveal of the fallback text at once on the new bubble, and
    the reveal runs to its end, where the typing flag is clear again. *)
Theorem unencodable_question_not_sent (v : script) (st : state) :
  isEmpty (trim (chatInput_value (page st))) = false ->
  isTyping st = false ->
  uriEncodable (trim (chatInput_value (page st))) = false ->
  let st' := sendMessage v st in
  let text := fallbackText v st in
  let aiBubble := S (nextNode st) in
  let done := fireTimes (S (length text)) (nextTimer st) st' in
  requests st' = requests st
  /\ trace st' = trace st
  /\ timers st'
     = tickTimer (nextTimer st) (typingPeriod v) aiBubble text 0
         (clock st + typingPeriod v)%N :: timers st
  /\ bubble aiBubble done = Some (InnerHTML (renderMarkdown (env st) text))
  /\ isTyping done = false
  /\ sendButton_disabled (page done) = false.
Proof.
  intros Hq Htyping Henc. cbv zeta.
  destruct (sendMessage_unencodable v st Hq Htyping Henc)
    as (st1 & -> & Hnode & Htimers & Hnext & Hclock & Henv & Hreq & Htr).
  split; [exact Hreq|]. split; [exact Htr|]. split.
  - rewrite typeText_revealing. unfold revealing.
    cbn [timers set_timers]. now rewrite Htimers, Hnext, Hclock.
  - rewrite <- Hnext, <- Henv.
    apply (typeText_completes st1 _ _ _ (InnerHTML [])).
    unfold bubble. now rewrite Hnode.
Qed.

Lemma unencodable_question_not_sent_witness :
  let st := handle script_js (UserTypes [97%N; 55357%N])
              (uploadedJs caseClosed) in
  let st' := sendMessage script_js st in
  requests st' = requests st
  /\ trace st' = trace st
  /\ map timer_callback (timers st')
     = [TypeTick (S (nextNode st)) ScriptJs.errorText 0].
Proof.
  cbv zeta.
  pose proof (unencodable_question_not_sent script_js
                (handle script_js (UserTypes [97%N; 55357%N])
                   (uploadedJs caseClosed))
                eq_refl eq_refl eq_refl) as (Hrq & Htr & Htimers & _).
  split; [exact Hrq|]. split; [exact Htr|].
  cbv zeta in Htimers. rewrite Htimers. reflexivity.
Defined.

(** What [sendMessage] does with an answer. *)
Lemma askAnswered_typeText v st id aiBubble question rest ok d :
  takeRequest id (requests st) = Some (AskRequest aiBubble question, rest) ->
  askFails v (Http ok (Some d)) = false ->
  handle v (Response id (Http ok (Some d))) st
  = typeText (typingPeriod v) aiBubble
      (orElse (answer d) (answerDefault v))
      (observe (Settled id (Http ok (Some d))) (set_requests rest st)).
Proof.
  intros Hreq Hfail. unfold handle, settle. rewrite Hreq.
  destruct v; [reflexivity|].
  destruct ok; [reflexivity|discriminate Hfail].
Qed.

Lemma orElse_not_empty o dflt : dflt <> [] -> orElse o dflt <> [].
Proof. intros Hd. now destruct o as [[|c s]|]. Qed.

(** X10: an answer.  When the ask request settles with a body that parses
    (and, in part_000, a success status), the reveal starts on the bubble
    of the exchange with the [answer] field, or with the placeholder of the
    variant when the field is absent or empty, so the text revealed is never
    empty; the reveal runs to its end, where the bubble holds that text
    rendered, the typing flag is clear and the send button enabled. *)
Theorem ask_success_reveals_answer (v : script) (st : state) (id : nat)
    (aiBubble : nat) (question : jsstring) (rest : list (nat * request))
    (ok : bool) (d : data) (b : content) :
  takeRequest id (requests st) = Some (AskRequest aiBubble question, rest) ->
  askFails v (Http ok (Some d)) = false ->
  bubble aiBubble st = Some b ->
  let st' := handle v (Response id (Http ok (Some d))) st in
  let text := orElse (answer d) (answerDefault v) in
  let done := fireTimes (S (length text)) (nextTimer st) st' in
  text <> []
  /\ timers st'
     = tickTimer (nextTimer st) (typingPeriod v) aiBubble text 0
         (clock st + typingPeriod v)%N :: timers st
  /\ bubble aiBubble done = Some (InnerHTML (renderMarkdown (env st) text))
  /\ isTyping done = false
  /\ sendButton_disabled (page done) = false.
Proof.
  intros Hreq Hfail Hb. cbv zeta.
  rewrite (askAnswered_typeText v st id aiBubble question rest ok d
             Hreq Hfail).
  split; [apply orElse_not_empty; now destruct v|].
  split; [reflexivity|].
  apply (typeText_completes
           (observe (Settled id (Http ok (Some d))) (set_requests rest st))
           _ _ _ b).
  exact Hb.
Qed.

Lemma ask_success_reveals_answer_witness :
  let st := run part_000 400
              [ (12000%N, UserTypes question); (12001%N, ClickSend) ]
              (uploaded000 caseClosed) in
  takeRequest 1 (requests st) = Some (AskRequest 3 question, [])
  /\ answer caseClosed = None
  /\ bubble 3 (fireTimes (S (length Part000.noAnswerText)) (nextTimer st)
                 (handle part_000
                    (Response 1 (Http true (Some caseClosed))) st))
     = Some (InnerHTML (renderMarkdown (env st) Part000.noAnswerText)).
Proof.
  cbv zeta. do 2 (split; [vm_compute; reflexivity|]).
  apply (ask_success_reveals_answer part_000
           (run part_000 400
              [ (12000%N, UserTypes question); (12001%N, ClickSend) ]
              (uploaded000 caseClosed))
           1 3 question [] true caseClosed (InnerHTML [])).
  - vm_compute; reflexivity.
  - reflexivity.
  - vm_compute; reflexivity.
Defined.

(** X11: a successful upload opens the chat.  When the upload request
    settles with a success status and a body that parses, the handler
    writes 100 to the progress indicator at once.  Once the page is shown
    (in part_000: once the two delayed callbacks have run) the processing
    overlay is hidden and the results are shown, the input field and the
    send button are enabled, and the last entry of the log is the notice
    that the document was uploaded.  In part_000 the second delayed
    callback does this on whatever page it meets, whatever has fired in
    between, and leaves the indicator as it finds it: what the indicator
    reads by then is not stated, as side-loading ticks that are still
    scheduled write to it in between. *)
Theorem upload_success_opens_chat (v : script) (st : state) (id : nat)
    (file : jsstring) (rest : list (nat * request)) (d : data) :
  takeRequest id (requests st) = Some (UploadRequest file, rest) ->
  let settled := handle v (Response id (Http true (Some d))) st in
  let st' := uploadShown v id d st in
  progressPercent (page settled) = 100
  /\ head (trace settled) = Some (Progress 100)
  /\ (v = script_js -> st' = settled)
  /\ processingOverlay_display (page st') = DisplayNone
  /\ resultsContainer_display (page st') = DisplayBlock
  /\ chatInput_disabled (page st') = false
  /\ sendButton_disabled (page st') = false
  /\ last (chatLog st')
     = Some (MessageAi FaInfoCircle
               (InnerHTML (escapeHtml (documentUploadedText v))))
  /\ isTyping st' = isTyping st
  /\ (forall st2 id2 t rest2,
        takeTimer id2 (timers st2) = Some (t, rest2) ->
        timer_callback t = ShowResults d ->
        let opened := fire id2 st2 in
        resultsContainer_display (page opened) = DisplayBlock
        /\ chatInput_disabled (page opened) = false
        /\ sendButton_disabled (page opened) = false
        /\ last (chatLog opened)
           = Some (MessageAi FaInfoCircle
                     (InnerHTML (escapeHtml Part000.documentUploadedText)))
        /\ progressPercent (page opened) = progressPercent (page st2)).
Proof.
  intros Hreq. cbv zeta.
  assert (Hopen : forall st2 id2 t rest2,
            takeTimer id2 (timers st2) = Some (t, rest2) ->
            timer_callback t = ShowResults d ->
            resultsContainer_display (page (fire id2 st2)) = DisplayBlock
            /\ chatInput_disabled (page (fire id2 st2)) = false
            /\ sendButton_disabled (page (fire id2 st2)) = false
            /\ last (chatLog (fire id2 st2))
               = Some (MessageAi FaInfoCircle
                         (InnerHTML
                            (escapeHtml Part000.documentUploadedText)))
            /\ progressPercent (page (fire id2 st2))
               = progressPercent (page st2)).
  { intros st2 id2 t rest2 Htake Hcb. unfold fire. rewrite Htake.
    unfold runCallback. rewrite Hcb.
    do 3 (split; [reflexivity|]). split; [|reflexivity].
    apply (last_chatLog_appendChild
             (MessageAi FaInfoCircle
                (InnerHTML (escapeHtml Part000.documentUploadedText)))). }
  unfold uploadShown, handle, settle. rewrite Hreq.
  destruct v.
  - cbn [upload_settled ScriptJs.upload_settled negb].
    do 7 (split; [reflexivity|]). split; [|split; [reflexivity|exact Hopen]].
    apply (last_chatLog_appendChild
             (MessageAi FaInfoCircle
                (InnerHTML (escapeHtml ScriptJs.documentUploadedText)))).
  - unfold upload_settled, Part000.upload_settled. cbn [negb].
    do 2 (split; [reflexivity|]). split; [discriminate|].
    unfold fire. cbn. rewrite Nat.eqb_refl. cbn. rewrite Nat.eqb_refl.
    do 4 (split; [reflexivity|]).
    split; [|split; [reflexivity|exact Hopen]].
    apply (last_chatLog_appendChild
             (MessageAi FaInfoCircle
                (InnerHTML (escapeHtml Part000.documentUploadedText)))).
Qed.

Lemma upload_success_opens_chat_witness :
  takeRequest 0 (requests rampOnly) = Some (UploadRequest reportPdf, [])
  /\ chatInput_disabled (page rampOnly) = true
  /\ chatInput_disabled (page (uploadShown part_000 0 caseClosed rampOnly))
     = false.
Proof.
  assert (Hreq : takeRequest 0 (requests rampOnly)
                 = Some (UploadRequest reportPdf, []))
    by (vm_compute; reflexivity).
  split; [exact Hreq|]. split; [vm_compute; reflexivity|].
  pose proof (upload_success_opens_chat part_000 rampOnly 0 reportPdf []
                caseClosed Hreq) as Hopen.
  cbv zeta in Hopen.
  exact (proj1 (proj2 (proj2 (proj2 (proj2 (proj2 Hopen)))))).
Defined.

(** ** What the script shows and sends *)

Lemma Forall_cleared {A} (P Q : A -> Prop) `{!forall x, Decision (Q x)} l :
  Forall P l -> Forall P (filter Q l).
Proof.
  intros Hall. apply Forall_forall. intros x [_ Hx]%list_elem_of_filter.
  revert x Hx. now apply Forall_forall.
Qed.

Lemma takeRequest_Forall id rs r rest (P : nat * request -> Prop) :
  takeRequest id rs = Some (r, rest) ->
  Forall P rs -> P (id, r) /\ Forall P rest.
Proof.
  intros Htake H.
  destruct (takeRequest_Some _ _ _ _ Htake) as (pre & post & -> & ->).
  rewrite Forall_app, Forall_cons in H. destruct H as (Hpre & Hr & Hpost).
  split; [exact Hr|]. apply Forall_app. now split.
Qed.

Lemma floorValue_le v : floorValue v <= 10.
Proof. destruct v; cbn; lia. Qed.

Arguments obsOk : simpl never.
Arguments timerRange : simpl never.
Arguments floorValue : simpl never.

Ltac solve_trace :=
  cbn;
  repeat match goal with
  | |- _ /\ _ => split
  | |- Forall _ [] => constructor
  | |- Forall _ (_ :: _) => constructor
  | |- Forall _ (filter _ _) => apply Forall_cleared
  | |- Forall _ _ => assumption
  | |- obsOk _ _ =>
      unfold obsOk;
      first [ exact I
            | apply trim_cleanQuestion; assumption
            | match goal with v : script |- _ =>
                pose proof (floorValue_le v) end; lia
            | unfold floorValue; lia ]
  | |- timerRange _ =>
      unfold timerRange; cbn [timer_callback]; first [exact I | lia]
  end.

Lemma traceInv_sendMessage v st :
  traceInv v st -> traceInv v (sendMessage v st).
Proof.
  unfold traceInv. intros [Htr Htm].
  destruct v; cbn [sendMessage];
    unfold ScriptJs.sendMessage, Part000.sendMessage; cbv zeta;
    (destruct (isEmpty _) eqn:Hq; [now split|]);
    (destruct (isTyping st); cbn [orb]; [now split|]);
    destruct (uriEncodable _); solve_trace.
Qed.

Lemma traceInv_settle v id r st :
  traceInv v st -> traceInv v (settle v id r st).
Proof.
  unfold traceInv, settle. intros [Htr Htm].
  destruct (takeRequest id (requests st)) as [[rq rest]|]; [|now split].
  destruct rq as [file|aiBubble q];
    destruct v, r as [|[] [d|]]; solve_trace.
Qed.

Lemma traceInv_fire v id st :
  traceInv v st -> traceInv v (fire id st).
Proof.
  unfold traceInv, fire. intros [Htr Htm].
  destruct (takeTimer id (timers st)) as [[t rest]|] eqn:Htake;
    [|now split].
  destruct (takeTimer_Forall _ _ _ _ _ Htake Htm) as [Ht Hrest].
  unfold runCallback.
  destruct t as [tid d p cb]; destruct cb;
    unfold timerRange in Ht; cbn [timer_callback timer_id] in *.
  - unfold Part000.updateProgress. cbv zeta.
    assert ((100 <? progress + 1) = false) as -> by (apply Nat.ltb_ge; lia).
    destruct (Nat.ltb_spec (progress + 1) 80);
      destruct (_ =? 0); solve_trace.
  - unfold Part000.update. cbv zeta. destruct resolve.
    destruct (Nat.ltb_spec 100 (progress + 1)); solve_trace.
  - solve_trace.
  - solve_trace.
  - unfold typeTick, scrollBottom, reschedule. cbv zeta. cbn [interval].
    destruct p; case_cond; solve_trace.
  - unfold reschedule, updateSessionTime. cbn [interval].
    destruct p; solve_trace.
Qed.

Lemma reachable_traceInv v e st : reachable v e st -> traceInv v st.
Proof.
  induction 1 as [|st ev _ IH].
  - destruct v; unfold traceInv; solve_trace.
  - destruct ev; cbn [handle].
    + exact IH.
    + destruct IH as [Htr Htm]. unfold traceInv.
      destruct v, file; cbn [fileInput_change]; solve_trace.
    + destruct (chatInput_disabled _); exact IH.
    + destruct (sendButton_disabled _);
        [exact IH|now apply traceInv_sendMessage].
    + destruct (chatInput_disabled _); [exact IH|].
      destruct v; cbn [chatInput_keydown negb].
      * now apply (traceInv_sendMessage script_js).
      * destruct shiftKey; [exact IH|].
        now apply (traceInv_sendMessage part_000).
    + destruct v; cbn [sendQuickPrompt];
        unfold ScriptJs.sendQuickPrompt, Part000.sendQuickPrompt;
        (destruct (chatInput_disabled _); [exact IH|]).
      * apply (traceInv_sendMessage script_js). exact IH.
      * apply (traceInv_sendMessage part_000). exact IH.
    + destruct v; cbn [clearChat];
        unfold ScriptJs.clearChat, Part000.clearChat, clearChatWith;
        destruct (querySelector_welcome _); exact IH.
    + destruct IH as [Htr Htm]. unfold traceInv.
      destruct v; cbn [startNewSession].
      * solve_trace.
      * unfold Part000.startNewSession, block. cbn [foldl].
        unfold Part000.clearChat, clearChatWith.
        destruct (querySelector_welcome _); solve_trace.
    + now apply traceInv_settle.
    + now apply traceInv_fire.
Qed.

(** X12: the progress indicator stays in range.  On every page that events
    lead to, whatever the order in which timers fire and requests settle,
    each percentage that the script has written lies between the floor
    value of the variant and 100: the side-loading callback never counts
    past 80 and the ramp never past 100. *)
Theorem progress_within_range (v : script) (e : environment) (st : state) :
  reachable v e st ->
  Forall (fun n => floorValue v <= n <= 100) (shownProgress (history st))
  /\ Forall (fun t => match timer_callback t with
                      | UpdateProgress progress _ => 10 <= progress < 80
                      | Update progress _ => 80 <= progress <= 100
                      | _ => True
                      end) (timers st).
Proof.
  intros Hreach.
  destruct (reachable_traceInv v e st Hreach) as [Htr Htm].
  split; [|exact Htm].
  apply Forall_forall. intros n Hin. unfold shownProgress in Hin.
  apply list_elem_of_omap in Hin. destruct Hin as (o & Ho & Hn).
  unfold history in Ho. apply list_elem_of_In, in_rev in Ho.
  apply list_elem_of_In in Ho.
  rewrite Forall_forall in Htr. specialize (Htr o Ho).
  destruct o; try discriminate Hn. injection Hn as ->. exact Htr.
Qed.

Lemma progress_within_range_witness :
  reachable part_000 plainEnv rampOnly
  /\ Forall (fun n => 10 <= n <= 100) (shownProgress (history rampOnly)).
Proof.
  assert (Hreach : reachable part_000 plainEnv rampOnly)
    by apply reachable_advance, reachable_step, reachable_load.
  split; [exact Hreach|].
  apply (progress_within_range part_000 plainEnv rampOnly Hreach).
Defined.

(** X13: what is asked.  On every page that events lead to, each question
    that the script has sent to the ask endpoint is the trimmed input: it
    is not empty and neither starts nor ends with white space.  Input that
    is empty or all white space is never sent. *)
Theorem questions_are_trimmed (v : script) (e : environment) (st : state) :
  reachable v e st ->
  forall id aiBubble q,
    Fetch id (AskRequest aiBubble q) ∈ history st ->
    q <> []
    /\ (forall c, head q = Some c -> isWhiteSpace c = false)
    /\ (forall c, last q = Some c -> isWhiteSpace c = false)
    /\ trim q = q.
Proof.
  intros Hreach id aiBubble q Hin.
  destruct (reachable_traceInv v e st Hreach) as [Htr _].
  unfold history in Hin. apply list_elem_of_In, in_rev in Hin.
  apply list_elem_of_In in Hin.
  rewrite Forall_forall in Htr. specialize (Htr _ Hin).
  destruct Htr as (Hne & Hhead & Hlast).
  split; [exact Hne|]. split; [exact Hhead|]. split; [exact Hlast|].
  unfold trim. rewrite (trimStart_clean q Hhead). unfold trimEnd.
  rewrite trimStart_clean; [apply rev_involutive|].
  intros c. rewrite head_of_rev. apply Hlast.
Qed.

Lemma questions_are_trimmed_witness :
  let st := run script_js 200
              [ (4000%N, UserTypes (lit "  Who?  ")); (4001%N, ClickSend) ]
              (uploadedJs caseClosed) in
  reachable script_js plainEnv st
  /\ Fetch 1 (AskRequest 3 (lit "Who?")) ∈ history st
  /\ trim (lit "Who?") = lit "Who?".
Proof.
  assert (Hreach : reachable script_js plainEnv
            (run script_js 200
               [ (4000%N, UserTypes (lit "  Who?  ")); (4001%N, ClickSend) ]
               (uploadedJs caseClosed)))
    by apply reachable_run, reachable_run, reachable_load.
  assert (Hin : Fetch 1 (AskRequest 3 (lit "Who?"))
                ∈ history (run script_js 200
                    [ (4000%N, UserTypes (lit "  Who?  "));
                      (4001%N, ClickSend) ]
                    (uploadedJs caseClosed))).
  { apply list_elem_of_In. vm_compute. tauto. }
  cbv zeta. split; [exact Hreach|]. split; [exact Hin|].
  apply (questions_are_trimmed script_js plainEnv _ Hreach 1 3 (lit "Who?")
           Hin).
Defined.

(** ** The chat stays closed until an upload has succeeded (part_000) *)

(** Observations are never taken back. *)
Lemma trace_grows v ev st : trace st `suffix_of` trace (handle v ev st).
Proof.
  assert (Hsend : forall v st, trace st `suffix_of` trace (sendMessage v st)).
  { clear. intros v st.
    destruct v; cbn [sendMessage];
      unfold ScriptJs.sendMessage, Part000.sendMessage; cbv zeta;
      (destruct (_ || _); [reflexivity|]);
      destruct (uriEncodable _); cbn;
      repeat first [reflexivity | apply suffix_cons_r]. }
  destruct ev; cbn [handle].
  - reflexivity.
  - destruct v, file; cbn;
      repeat first [reflexivity | apply suffix_cons_r].
  - destruct (chatInput_disabled _); reflexivity.
  - destruct (sendButton_disabled _); [reflexivity|apply Hsend].
  - destruct (chatInput_disabled _); [reflexivity|].
    destruct v; cbn [chatInput_keydown]; [apply (Hsend script_js)|].
    destruct shiftKey; [reflexivity|apply (Hsend part_000)].
  - destruct v; cbn [sendQuickPrompt];
      unfold ScriptJs.sendQuickPrompt, Part000.sendQuickPrompt;
      (destruct (chatInput_disabled _); [reflexivity|]).
    + apply (Hsend script_js (set_chatInput_value prompt st)).
    + apply (Hsend part_000 (set_chatInput_value prompt st)).
  - destruct v; cbn [clearChat];
      unfold ScriptJs.clearChat, Part000.clearChat, clearChatWith;
      destruct (querySelector_welcome _); reflexivity.
  - destruct v; cbn [startNewSession]; [reflexivity|].
    unfold Part000.startNewSession, block. cbn [foldl].
    unfold Part000.clearChat, clearChatWith.
    destruct (querySelector_welcome _); reflexivity.
  - unfold settle.
    destruct (takeRequest id (requests st)) as [[rq rest]|]; [|reflexivity].
    destruct rq as [file|aiBubble q];
      destruct v, r as [|[] [d|]]; cbn;
      repeat first [reflexivity | apply suffix_cons_r].
  - unfold fire.
    destruct (takeTimer id (timers st)) as [[t rest]|]; [|reflexivity].
    unfold runCallback.
    destruct t as [tid d p cb]; destruct cb; cbn [timer_callback timer_id].
    + unfold Part000.updateProgress. cbv zeta.
      case_cond; cbn; repeat first [reflexivity | apply suffix_cons_r].
    + unfold Part000.update. cbv zeta. destruct resolve.
      case_cond; cbn; repeat first [reflexivity | apply suffix_cons_r].
    + reflexivity.
    + reflexivity.
    + unfold typeTick, scrollBottom, reschedule. cbv zeta. cbn [interval].
      destruct p; case_cond; reflexivity.
    + unfold reschedule, updateSessionTime. cbn [interval].
      destruct p; reflexivity.
Qed.

Lemma uploadSucceeded_earlier v ev st :
  uploadSucceeded (handle v ev st) = false -> uploadSucceeded st = false.
Proof.
  unfold uploadSucceeded. destruct (trace_grows v ev st) as [news ->].
  rewrite existsb_app. now intros [_ H]%orb_false_iff.
Qed.

Lemma quiet_markup (l : list (bool * jsstring)) :
  map_Forall (fun _ el => quietNode el)
    (map_seq 0 (map (fun m => Markup m.1 m.2) l) : gmap nat element).
Proof.
  intros i x [_ Hx]%lookup_map_seq_Some.
  apply list_lookup_fmap_Some in Hx. destruct Hx as (m & -> & _).
  exact I.
Qed.

Arguments uploadSucceeded : simpl never.

Ltac solve_gated :=
  cbn;
  repeat match goal with
  | |- _ /\ _ => split
  | |- _ = _ => first [assumption | reflexivity]
  | |- Forall _ [] => constructor
  | |- Forall _ (_ :: _) => constructor
  | |- Forall _ (_ ++ _) => apply Forall_app
  | |- Forall _ _ => assumption
  | |- map_Forall _ (<[_ := _]> _) => apply map_Forall_insert_2
  | |- map_Forall _ _ => assumption
  | |- quietTimer _ => exact I
  | |- quietNode _ => exact I
  | |- quietObs _ => exact I
  end.

Lemma gated_step ev st :
  gated st -> uploadSucceeded (handle part_000 ev st) = false ->
  gated (handle part_000 ev st).
Proof.
  intros (Hin & Hbtn & Hty & Htm & Hrq & Hnd & Htr) Hno.
  unfold gated. destruct ev; cbn [handle] in *.
  - solve_gated.
  - destruct file; cbn [fileInput_change]; solve_gated.
  - rewrite Hin. solve_gated.
  - rewrite Hbtn. solve_gated.
  - rewrite Hin. solve_gated.
  - cbn [sendQuickPrompt]. unfold Part000.sendQuickPrompt. rewrite Hin.
    solve_gated.
  - cbn [clearChat]. unfold Part000.clearChat, clearChatWith.
    destruct (querySelector_welcome st) as [w|] eqn:Hw.
    + apply querySelector_welcome_isWelcome in Hw.
      destruct w as [b|icon b|[] html]; try discriminate Hw. solve_gated.
    + solve_gated.
  - cbn [startNewSession]. unfold Part000.startNewSession, block.
    cbn [foldl]. unfold Part000.clearChat, clearChatWith.
    destruct (querySelector_welcome _) as [w|] eqn:Hw.
    + apply querySelector_welcome_isWelcome in Hw.
      destruct w as [b|icon b|[] html]; try discriminate Hw. solve_gated.
    + solve_gated.
  - unfold settle in *.
    destruct (takeRequest id (requests st)) as [[rq rest]|] eqn:Hreq;
      [|solve_gated].
    destruct (takeRequest_Forall _ _ _ _ _ Hreq Hrq) as [Hq Hrest].
    destruct rq as [file|aiBubble q]; [|discriminate Hq].
    destruct r as [|[] [d|]]; try discriminate Hno; solve_gated.
  - unfold fire in *.
    destruct (takeTimer id (timers st)) as [[t rest]|] eqn:Htake;
      [|solve_gated].
    destruct (takeTimer_Forall _ _ _ _ _ Htake Htm) as [Ht Hrest].
    unfold runCallback.
    destruct t as [tid d p cb]; destruct cb;
      unfold quietTimer in Ht; cbn [timer_callback timer_id] in *;
      try contradiction.
    + unfold Part000.updateProgress. cbv zeta. case_cond; solve_gated.
    + unfold Part000.update. cbv zeta. destruct resolve.
      case_cond; solve_gated.
    + unfold reschedule, updateSessionTime. cbn [interval].
      destruct p; solve_gated.
Qed.

Lemma reachable_gated e st :
  reachable part_000 e st -> uploadSucceeded st = false -> gated st.
Proof.
  induction 1 as [|st ev _ IH]; intros Hno.
  - unfold gated. cbn.
    repeat split; try (repeat constructor). apply quiet_markup.
  - apply gated_step; [|exact Hno].
    apply IH. now apply (uploadSucceeded_earlier part_000 ev).
Qed.

(** X14: the chat of part_000 stays closed until an upload has succeeded.
    On every page that events lead to before any upload request has settled
    with a success status and a body that parses, the input field and the
    send button are disabled, the typing flag is clear, the log holds only
    markup and system notices, no question has been sent and none is
    awaited, and no reveal runs. *)
Theorem chat_closed_before_upload (e : environment) (st : state) :
  reachable part_000 e st ->
  uploadSucceeded st = false ->
  chatInput_disabled (page st) = true
  /\ sendButton_disabled (page st) = true
  /\ isTyping st = false
  /\ (forall el, el ∈ chatLog st ->
        match el with
        | Markup _ _ | MessageAi FaInfoCircle _ => True
        | _ => False
        end)
  /\ (forall id aiBubble q, Fetch id (AskRequest aiBubble q) ∉ history st)
  /\ asking (requests st) = 0
  /\ ticking (timers st) = 0.
Proof.
  intros Hreach Hno.
  destruct (reachable_gated e st Hreach Hno)
    as (Hin & Hbtn & Hty & Htm & Hrq & Hnd & Htr).
  do 3 (split; [assumption|]). split; [|split; [|split]].
  - intros el Hel. destruct (chatLog_nodes st el Hel) as (id & Hid).
    exact (Hnd id el Hid).
  - intros id aiBubble q Hin'. unfold history in Hin'.
    apply list_elem_of_In, in_rev in Hin'. apply list_elem_of_In in Hin'.
    rewrite Forall_forall in Htr. exact (Htr _ Hin').
  - unfold asking. induction Hrq as [|r rs Hr _ IH]; [reflexivity|].
    cbn [List.filter]. now rewrite Hr.
  - unfold ticking. induction Htm as [|t ts Ht _ IH]; [reflexivity|].
    cbn [List.filter]. unfold quietTimer in Ht. unfold isTick.
    destruct (timer_callback t); try contradiction; exact IH.
Qed.

Lemma chat_closed_before_upload_witness :
  let st := handle part_000 (QuickPrompt question)
              (handle part_000 (Response 0 (Http false (Some caseClosed)))
                 rampOnly) in
  reachable part_000 plainEnv st
  /\ uploadSucceeded st = false
  /\ chatInput_disabled (page st) = true
  /\ length (chatLog st) = 2.
Proof.
  assert (Hreach : reachable part_000 plainEnv
            (handle part_000 (QuickPrompt question)
               (handle part_000 (Response 0 (Http false (Some caseClosed)))
                  rampOnly))).
  { do 2 apply reachable_step.
    apply reachable_advance, reachable_step, reachable_load. }
  cbv zeta. split; [exact Hreach|]. split; [vm_compute; reflexivity|].
  split; [|vm_compute; reflexivity].
  apply (chat_closed_before_upload plainEnv _ Hreach).
  vm_compute; reflexivity.
Defined.

(** ** The session clock (part_000) *)

Lemma sessionClocks_cons t ts :
  sessionClocks (t :: ts)
  = (if isSessionClock t then 1 else 0) + sessionClocks ts.
Proof.
  unfold sessionClocks. cbn [List.filter]. now destruct (isSessionClock t).
Qed.

Lemma sessionClocks_take id ts t rest :
  takeTimer id ts = Some (t, rest) ->
  sessionClocks ts = (if isSessionClock t then 1 else 0) + sessionClocks rest.
Proof.
  intros H. destruct (takeTimer_Some _ _ _ _ H) as (pre & post & -> & -> & _).
  unfold sessionClocks. rewrite !List.filter_app, !length_app.
  cbn [List.filter]. destruct (isSessionClock t); cbn [length]; lia.
Qed.

(** Clearing a handle that no scheduled timer carries clears nothing. *)
Lemma clearInterval_absent id (ts : list timer) :
  id ∉ map timer_id ts -> filter (fun t => timer_id t <> id) ts = ts.
Proof.
  induction ts as [|t ts IH]; [reflexivity|]. cbn [map]. intros Hnot.
  apply not_elem_of_cons in Hnot. destruct Hnot as [Hne Hnot].
  rewrite filter_cons_True by congruence. now rewrite IH.
Qed.

Arguments sessionClocks : simpl never.

Ltac solve_clockOk :=
  repeat match goal with
  | |- Forall clockOk [] => constructor
  | |- Forall clockOk (_ :: _) => constructor
  | |- Forall clockOk _ => assumption
  | |- clockOk _ =>
      unfold clockOk, isSessionClock; cbn [timer_callback interval];
      first [ discriminate | intros _; eauto ]
  end.

Ltac solve_clock :=
  cbn; rewrite ?sessionClocks_cons;
  cbn [isSessionClock timer_callback newSessions];
  split; [solve_clockOk | lia].

Lemma clock_sendMessage st :
  Forall clockOk (timers st) ->
  Forall clockOk (timers (Part000.sendMessage st))
  /\ sessionClocks (timers (Part000.sendMessage st))
     = sessionClocks (timers st) + 0.
Proof.
  intros Hok. unfold Part000.sendMessage. cbv zeta.
  destruct (_ || _); [split; [assumption|lia]|].
  destruct (uriEncodable _); solve_clock.
Qed.

Lemma clock_step ev st :
  timerPool (nextTimer st) (timers st) ->
  Forall clockOk (timers st) ->
  Forall clockOk (timers (handle part_000 ev st))
  /\ sessionClocks (timers (handle part_000 ev st))
     = sessionClocks (timers st) + newSessions ev.
Proof.
  intros Hpool Hok. destruct ev; cbn [handle].
  - solve_clock.
  - destruct file; cbn [fileInput_change]; solve_clock.
  - destruct (chatInput_disabled _); solve_clock.
  - destruct (sendButton_disabled _);
      [solve_clock|now apply clock_sendMessage].
  - destruct (chatInput_disabled _); [solve_clock|].
    cbn [chatInput_keydown]. destruct shiftKey; cbn [negb];
      [solve_clock|now apply clock_sendMessage].
  - cbn [sendQuickPrompt]. unfold Part000.sendQuickPrompt.
    destruct (chatInput_disabled _); [solve_clock|].
    now apply (clock_sendMessage (set_chatInput_value prompt st)).
  - cbn [clearChat]. unfold Part000.clearChat, clearChatWith.
    destruct (querySelector_welcome _); solve_clock.
  - cbn [startNewSession]. unfold Part000.startNewSession, block.
    cbn [foldl]. unfold Part000.clearChat, clearChatWith.
    destruct (querySelector_welcome _); solve_clock.
  - unfold settle.
    destruct (takeRequest id (requests st)) as [[rq rest]|]; [|solve_clock].
    destruct rq as [file|aiBubble q]; destruct r as [|[] [d|]]; solve_clock.
  - unfold fire.
    destruct (takeTimer id (timers st)) as [[t rest]|] eqn:Htake;
      [|solve_clock].
    pose proof (sessionClocks_take _ _ _ _ Htake) as Hcount.
    destruct (takeTimer_Forall _ _ _ _ _ Htake Hok) as [Ht Hrest].
    destruct (timerPool_take _ _ _ _ _ Htake Hpool) as (_ & _ & Hnot).
    rewrite Hcount. unfold runCallback.
    destruct t as [tid d p cb]; destruct cb;
      unfold clockOk in Ht;
      cbn [timer_callback timer_id interval isSessionClock] in *.
    + unfold Part000.updateProgress. cbv zeta. case_cond; solve_clock.
    + unfold Part000.update. cbv zeta. destruct resolve.
      case_cond; solve_clock.
    + solve_clock.
    + solve_clock.
    + unfold typeTick, scrollBottom, reschedule. cbv zeta. cbn [interval].
      destruct p; case_cond; cbn;
        rewrite ?(clearInterval_absent _ _ Hnot); solve_clock.
    + destruct (Ht eq_refl) as [period ->].
      unfold reschedule, updateSessionTime. cbn [interval]. solve_clock.
Qed.

Lemma reachable_clockInv e st :
  reachable part_000 e st ->
  Forall clockOk (timers st) /\ 1 <= sessionClocks (timers st).
Proof.
  induction 1 as [|st ev Hreach [IHok IHn]].
  - cbn. split; [solve_clockOk|]. rewrite sessionClocks_cons.
    cbn [isSessionClock timer_callback]. lia.
  - destruct (reachable_poolInv _ _ _ Hreach) as [_ Hpool].
    destruct (clock_step ev st Hpool IHok) as [Hok Hn].
    split; [exact Hok|]. rewrite Hn. lia.
Qed.

(** X15: session clocks pile up in part_000.  [startSessionTimer] sets a
    one-minute interval at page load and again in every [startNewSession],
    and nothing ever clears one: on every page that events lead to at
    least one such interval is scheduled, a new session adds exactly one,
    and no other event, a firing of the interval itself included, changes
    their number. *)
Theorem session_clocks_pile_up (e : environment) (st : state) :
  reachable part_000 e st ->
  1 <= sessionClocks (timers st)
  /\ forall ev,
       sessionClocks (timers (handle part_000 ev st))
       = sessionClocks (timers st) + newSessions ev.
Proof.
  intros Hreach.
  destruct (reachable_clockInv e st Hreach) as [Hok Hn].
  destruct (reachable_poolInv _ _ _ Hreach) as [_ Hpool].
  split; [exact Hn|]. intros ev. now apply clock_step.
Qed.

Lemma session_clocks_pile_up_witness :
  let st := uploaded000 caseClosed in
  reachable part_000 plainEnv st
  /\ sessionClocks (timers st) = 1
  /\ sessionClocks
       (timers (handle part_000 ClickNewSession
                  (handle part_000 ClickNewSession st))) = 3.
Proof.
  assert (Hreach : reachable part_000 plainEnv (uploaded000 caseClosed))
    by apply reachable_run, reachable_load.
  cbv zeta. split; [exact Hreach|]. split; [vm_compute; reflexivity|].
  destruct (session_clocks_pile_up plainEnv _
              (reachable_step _ _ _ ClickNewSession Hreach)) as [_ Hstep].
  rewrite (Hstep ClickNewSession).
  destruct (session_clocks_pile_up plainEnv _ Hreach) as [_ Hstep0].
  rewrite (Hstep0 ClickNewSession). vm_compute; reflexivity.
Defined.

(** ** Questions and their bubbles *)

Lemma paired_app_bounded n : forall l l',
  length l <= n -> paired l = true -> paired (l ++ l') = paired l'.
Proof.
  induction n as [|n IH]; intros l l' Hlen Hp.
  - destruct l; [reflexivity|cbn in Hlen; lia].
  - destruct l as [|s l]; [reflexivity|]. cbn [length] in Hlen.
    destruct s.
    + destruct l as [|[] l]; try discriminate Hp.
      cbn [length] in Hlen. cbn [app paired] in *.
      apply IH; [lia|exact Hp].
    + discriminate Hp.
    + cbn [app paired] in *. apply IH; [lia|exact Hp].
Qed.

Lemma paired_app l l' :
  paired l = true -> paired (l ++ l') = paired l'.
Proof. now apply (paired_app_bounded (length l)). Qed.

Lemma paired_user_bounded n : forall l i,
  length l <= n -> paired l = true ->
  l !! i = Some ShapeUser -> l !! S i = Some ShapeRobot.
Proof.
  induction n as [|n IH]; intros l i Hlen Hp Hi.
  - destruct l; [discriminate Hi|cbn in Hlen; lia].
  - destruct l as [|s l]; [discriminate Hi|]. cbn [length] in Hlen.
    destruct s.
    + destruct l as [|[] l]; try discriminate Hp.
      cbn [length] in Hlen. cbn [paired] in Hp.
      destruct i as [|[|i]]; [reflexivity|discriminate Hi|].
      cbn in *. apply IH; [lia|exact Hp|exact Hi].
    + discriminate Hp.
    + cbn [paired] in Hp. destruct i as [|i]; [discriminate Hi|].
      cbn in *. apply IH; [lia|exact Hp|exact Hi].
Qed.

Lemma paired_robot_bounded n : forall l i,
  length l <= n -> paired l = true ->
  l !! i = Some ShapeRobot ->
  exists j, i = S j /\ l !! j = Some ShapeUser.
Proof.
  induction n as [|n IH]; intros l i Hlen Hp Hi.
  - destruct l; [discriminate Hi|cbn in Hlen; lia].
  - destruct l as [|s l]; [discriminate Hi|]. cbn [length] in Hlen.
    destruct s.
    + destruct l as [|[] l]; try discriminate Hp.
      cbn [length] in Hlen. cbn [paired] in Hp.
      destruct i as [|[|i]]; [discriminate Hi|now exists 0|].
      cbn in Hi. destruct (IH l i) as (j & -> & Hj); [lia|exact Hp|exact Hi|].
      now exists (S (S j)).
    + discriminate Hp.
    + cbn [paired] in Hp. destruct i as [|i]; [discriminate Hi|].
      cbn in Hi. destruct (IH l i) as (j & -> & Hj); [lia|exact Hp|exact Hi|].
      now exists (S j).
Qed.

Lemma paired_others l :
  Forall (fun s => s = ShapeOther) l -> paired l = true.
Proof. induction 1 as [|s l -> _ IH]; [reflexivity|exact IH]. Qed.

Lemma shapeOf_writeBubble v el : shapeOf (writeBubble v el) = shapeOf el.
Proof. now destruct el as [b|[] b|w html]. Qed.

Lemma logShapes_snoc m n el children :
  below n children ->
  logShapes (<[n := el]> m) (children ++ [n])
  = logShapes m children ++ [shapeOf el].
Proof.
  intros Hb. unfold logShapes. rewrite omap_app.
  rewrite (omap_lookup_insert_below _ n) by exact Hb.
  cbn [omap list_omap]. rewrite lookup_insert_eq. apply map_app.
Qed.

Lemma logShapes_alter v c m children :
  logShapes (alter (writeBubble v) c m) children = logShapes m children.
Proof.
  unfold logShapes. induction children as [|id ids IH]; [reflexivity|].
  cbn [omap list_omap]. destruct (decide (id = c)) as [->|Hne].
  - rewrite lookup_alter_eq. destruct (m !! c) as [el|]; cbn; [|exact IH].
    now rewrite shapeOf_writeBubble, IH.
  - rewrite lookup_alter_ne by congruence.
    destruct (m !! id); cbn; now rewrite IH.
Qed.

Lemma logShapes_cons m id children :
  logShapes m (id :: children)
  = match m !! id with
    | Some el => shapeOf el :: logShapes m children
    | None => logShapes m children
    end.
Proof. unfold logShapes. cbn. now destruct (m !! id). Qed.

Lemma logShapes_nil m : logShapes m [] = [].
Proof. reflexivity. Qed.

Lemma paired_loaded e t0 tr : pairedInv (loaded e t0 tr).
Proof.
  unfold pairedInv, logShapes. apply paired_others.
  apply Forall_forall. intros s Hs. apply list_elem_of_fmap in Hs.
  destruct Hs as (el & -> & Hel). apply list_elem_of_omap in Hel.
  destruct Hel as (id & _ & Hid). cbn in Hid.
  apply lookup_map_seq_Some in Hid. destruct Hid as [_ Hid].
  apply list_lookup_fmap_Some in Hid. now destruct Hid as (m & -> & _).
Qed.

Arguments logShapes : simpl never.

Ltac solve_paired :=
  cbn; rewrite ?logShapes_alter, ?logShapes_cons, ?logShapes_nil;
  repeat first [ rewrite lookup_insert_eq
               | rewrite lookup_insert_ne by lia ];
  repeat (rewrite logShapes_snoc by solve_below);
  rewrite <- ?app_assoc;
  try (rewrite paired_app by assumption);
  first [assumption | reflexivity].

Lemma pairedInv_sendMessage v st :
  childrenInv st -> pairedInv st -> pairedInv (sendMessage v st).
Proof.
  unfold childrenInv, pairedInv. intros Hb H.
  destruct v; cbn [sendMessage];
    unfold ScriptJs.sendMessage, Part000.sendMessage; cbv zeta;
    (destruct (_ || _); [exact H|]);
    destruct (uriEncodable _); solve_paired.
Qed.

Lemma pairedInv_settle v id r st :
  childrenInv st -> pairedInv st -> pairedInv (settle v id r st).
Proof.
  unfold childrenInv, pairedInv, settle. intros Hb H.
  destruct (takeRequest id (requests st)) as [[rq rest]|]; [|exact H].
  destruct rq as [file|aiBubble q];
    destruct v, r as [|[] [d|]]; solve_paired.
Qed.

Lemma pairedInv_fire id st :
  childrenInv st -> pairedInv st -> pairedInv (fire id st).
Proof.
  unfold childrenInv, pairedInv, fire. intros Hb H.
  destruct (takeTimer id (timers st)) as [[t rest]|]; [|exact H].
  unfold runCallback.
  destruct t as [tid d p cb]; destruct cb; cbn [timer_callback timer_id] in *.
  - unfold Part000.updateProgress. cbv zeta. case_cond; solve_paired.
  - unfold Part000.update. cbv zeta. destruct resolve.
    case_cond; solve_paired.
  - solve_paired.
  - solve_paired.
  - unfold typeTick, scrollBottom, reschedule. cbv zeta. cbn [interval].
    destruct p; case_cond; solve_paired.
  - unfold reschedule, updateSessionTime. cbn [interval].
    destruct p; solve_paired.
Qed.

Lemma reachable_pairedInv v e st : reachable v e st -> pairedInv st.
Proof.
  induction 1 as [|st ev Hreach IH].
  - destruct v; apply (paired_loaded e 0%N []).
  - pose proof (reachable_childrenInv _ _ _ Hreach) as Hb.
    destruct ev; cbn [handle].
    + exact IH.
    + destruct v, file; exact IH.
    + destruct (chatInput_disabled _); exact IH.
    + destruct (sendButton_disabled _);
        [exact IH|now apply pairedInv_sendMessage].
    + destruct (chatInput_disabled _); [exact IH|].
      destruct v; cbn [chatInput_keydown negb].
      * now apply (pairedInv_sendMessage script_js).
      * destruct shiftKey; [exact IH|].
        now apply (pairedInv_sendMessage part_000).
    + destruct v; cbn [sendQuickPrompt];
        unfold ScriptJs.sendQuickPrompt, Part000.sendQuickPrompt;
        destruct (chatInput_disabled _).
      * unfold childrenInv, pairedInv in *. solve_paired.
      * now apply (pairedInv_sendMessage script_js).
      * unfold childrenInv, pairedInv in *. solve_paired.
      * now apply (pairedInv_sendMessage part_000).
    + unfold pairedInv. destruct v; cbn [clearChat];
        unfold ScriptJs.clearChat, Part000.clearChat, clearChatWith;
        (destruct (querySelector_welcome st) as [w|] eqn:Hw;
         [apply querySelector_welcome_isWelcome in Hw;
          destruct w as [b|icon b|[] html]; try discriminate Hw|]);
        solve_paired.
    + destruct v; cbn [startNewSession].
      * apply paired_loaded.
      * unfold pairedInv. unfold Part000.startNewSession, block.
        cbn [foldl]. unfold Part000.clearChat, clearChatWith.
        destruct (querySelector_welcome _) as [w|] eqn:Hw;
         [apply querySelector_welcome_isWelcome in Hw;
          destruct w as [b|icon b|[] html]; try discriminate Hw|];
        solve_paired.
    + now apply pairedInv_settle.
    + now apply pairedInv_fire.
Qed.

(** X16: questions and assistant bubbles come in pairs.  On every page
    that events lead to, each question of the user in the displayed log is
    followed at once by an assistant bubble, and each assistant bubble is
    preceded at once by a question: notices, a clear or a new session never
    come in between or leave one of the two behind. *)
Theorem questions_paired_with_bubbles (v : script) (e : environment)
    (st : state) :
  reachable v e st ->
  (forall i b,
     chatLog st !! i = Some (MessageUser b) ->
     exists b', chatLog st !! S i = Some (MessageAi FaRobot b'))
  /\ (forall i b,
        chatLog st !! i = Some (MessageAi FaRobot b) ->
        exists j b',
          i = S j /\ chatLog st !! j = Some (MessageUser b')).
Proof.
  intros Hreach. pose proof (reachable_pairedInv v e st Hreach) as Hp.
  unfold pairedInv, logShapes in Hp. fold (chatLog st) in Hp.
  split.
  - intros i b Hi.
    assert (Hs : map shapeOf (chatLog st) !! i = Some ShapeUser)
      by (rewrite list_lookup_fmap, Hi; reflexivity).
    apply (paired_user_bounded _ _ _ (le_n _) Hp) in Hs.
    rewrite list_lookup_fmap in Hs.
    destruct (chatLog st !! S i) as [[b'|[] b'|w html]|];
      try discriminate Hs.
    now exists b'.
  - intros i b Hi.
    assert (Hs : map shapeOf (chatLog st) !! i = Some ShapeRobot)
      by (rewrite list_lookup_fmap, Hi; reflexivity).
    destruct (paired_robot_bounded _ _ _ (le_n _) Hp Hs) as (j & -> & Hj).
    rewrite list_lookup_fmap in Hj.
    destruct (chatLog st !! j) as [[b'|[] b'|w html]|] eqn:Hlook;
      try discriminate Hj.
    now exists j, b'.
Qed.

Lemma questions_paired_with_bubbles_witness :
  let st := asked script_js 4000 1 (Http true (Some johnDoe))
              (uploadedJs caseClosed) in
  reachable script_js plainEnv st
  /\ chatLog st !! 2 = Some (MessageUser (InnerHTML (escapeHtml question)))
  /\ exists b', chatLog st !! 3 = Some (MessageAi FaRobot b').
Proof.
  assert (Hreach : reachable script_js plainEnv
            (asked script_js 4000 1 (Http true (Some johnDoe))
               (uploadedJs caseClosed)))
    by apply reachable_run, reachable_run, reachable_load.
  assert (Hq : chatLog (asked script_js 4000 1 (Http true (Some johnDoe))
                          (uploadedJs caseClosed)) !! 2
               = Some (MessageUser (InnerHTML (escapeHtml question))))
    by (vm_compute; reflexivity).
  cbv zeta. split; [exact Hreach|]. split; [exact Hq|].
  apply (proj1 (questions_paired_with_bubbles script_js plainEnv _ Hreach)
           2 _ Hq).
Defined.

(** ** A reveal whose bubble has left the log *)

Lemma omap_lookup_alter_absent (m : gmap nat element) f c
    (children : list nat) :
  c ∉ children ->
  omap (fun id => alter f c m !! id) children
  = omap (fun id => m !! id) children.
Proof.
  induction children as [|id ids IH]; [reflexivity|]. intros Hnot.
  apply not_elem_of_cons in Hnot. destruct Hnot as [Hne Hnot].
  cbn [omap list_omap]. rewrite lookup_alter_ne by congruence.
  now rewrite IH.
Qed.

(** A reveal on a bubble that is not in the log runs to its end without
    showing anything. *)
Lemma detached_reveal_completes st id period container text i d rest :
  takeTimer id (timers st)
  = Some (tickTimer id period container text i d, rest) ->
  i <= length text ->
  container ∉ chatMessages st ->
  let done := fireTimes (S (length text - i)) id st in
  chatLog done = chatLog st
  /\ isTyping done = false
  /\ sendButton_disabled (page done) = false
  /\ chatInput_disabled (page done) = chatInput_disabled (page st).
Proof.
  intros Htake Hi Hnot. cbv zeta.
  destruct (reveal_completes st id period container text i d rest Htake Hi)
    as (now' & ->).
  unfold revealed. split; [|repeat split].
  unfold chatLog, setBubble. cbn.
  now apply omap_lookup_alter_absent.
Qed.

(** The reveal timers of a reachable page, with what the invariants say
    about them. *)
Lemma reveal_timer_found v e st t container text i :
  reachable v e st ->
  t ∈ timers st ->
  timer_callback t = TypeTick container text i ->
  exists period rest,
    takeTimer (timer_id t) (timers st)
    = Some (tickTimer (timer_id t) period container text i (due t), rest)
    /\ i <= length text
    /\ container < nextNode st
    /\ timer_id t < nextTimer st.
Proof.
  intros Hreach Hin Hcb.
  destruct (reachable_revealInv v e st Hreach) as [_ Hok].
  destruct (reachable_poolInv v e st Hreach) as [_ Hpool].
  destruct (reachable_nodeInv v e st Hreach) as (Hnodes & Htargets & _).
  rewrite Forall_forall in Hok. pose proof (Hok t Hin) as Ht.
  unfold tickOk in Ht. rewrite Hcb in Ht. destruct Ht as [[period Hp] Hi].
  rewrite Forall_forall in Htargets. pose proof (Htargets t Hin) as Hrobot.
  unfold targetsRobot in Hrobot. rewrite Hcb in Hrobot.
  destruct Hrobot as [b Hb]. destruct (Hnodes _ _ Hb) as [Hlt _].
  destruct (takeTimer_In _ _ t Hpool Hin) as (rest & Htake).
  destruct Hpool as [Hbelow _]. rewrite Forall_forall in Hbelow.
  exists period, rest. split; [|split; [exact Hi|split; [exact Hlt|]]].
  - rewrite Htake. f_equal. f_equal. destruct t; cbn in *. now subst.
  - now apply Hbelow.
Qed.

(** X17: clearing the chat during a reveal loses the answer.  [clearChat]
    empties the log but stops no timer: a reveal in progress keeps writing
    to its bubble, which is no longer in the log, and runs to its end, where
    the typing flag is cleared.  The log stays as the clear left it, a clone
    of the welcome message and the notice, and never shows the answer. *)
Theorem clear_during_reveal_loses_answer (v : script) (e : environment)
    (st : state) (t : timer) (container : nat) (text : jsstring) (i : nat) :
  reachable v e st ->
  t ∈ timers st ->
  timer_callback t = TypeTick container text i ->
  let cleared := clearChat v st in
  let done := fireTimes (S (length text - i)) (timer_id t) cleared in
  (container ∉ chatMessages cleared)
  /\ chatLog done = chatLog cleared
  /\ chatLog cleared
     = option_list (querySelector_welcome st)
       ++ [MessageAi FaInfoCircle
             (InnerHTML (escapeHtml (chatClearedText v)))]
  /\ isTyping done = false
  /\ sendButton_disabled (page done) = false.
Proof.
  intros Hreach Hin Hcb. cbv zeta.
  destruct (reveal_timer_found v e st t container text i Hreach Hin Hcb)
    as (period & rest & Htake & Hi & Hlt & _).
  assert (Hc : clearChat v = clearChatWith (chatClearedText v))
    by (destruct v; reflexivity).
  rewrite Hc.
  assert (Htimers : timers (clearChatWith (chatClearedText v) st)
                    = timers st)
    by (unfold clearChatWith; now destruct (querySelector_welcome st)).
  assert (Hnot : container
                 ∉ chatMessages (clearChatWith (chatClearedText v) st)).
  { unfold clearChatWith. destruct (querySelector_welcome st); cbn;
      intros Hel; repeat (apply elem_of_cons in Hel; destruct Hel as [?|Hel]);
      try lia; now apply elem_of_nil in Hel. }
  rewrite <- Htimers in Htake.
  destruct (detached_reveal_completes _ _ _ _ _ _ _ _ Htake Hi Hnot)
    as (Hlog & Hty & Hbtn & _).
  split; [exact Hnot|]. split; [exact Hlog|].
  split; [apply chatLog_clearChatWith|]. now split.
Qed.

Lemma clear_during_reveal_loses_answer_witness :
  let st := asked script_js 4000 1 (Http true (Some johnDoe))
              (uploadedJs caseClosed) in
  let text := lit "John Doe" in
  let t := tickTimer 0 15 3 text 0 4515 in
  let cleared := clearChat script_js st in
  reachable script_js plainEnv st
  /\ timers st = [t]
  /\ chatLog (fireTimes (S (length text - 0)) (timer_id t) cleared)
     = chatLog cleared.
Proof.
  assert (Hreach : reachable script_js plainEnv
            (asked script_js 4000 1 (Http true (Some johnDoe))
               (uploadedJs caseClosed)))
    by apply reachable_run, reachable_run, reachable_load.
  assert (Htimers : timers (asked script_js 4000 1 (Http true (Some johnDoe))
                              (uploadedJs caseClosed))
                    = [tickTimer 0 15 3 (lit "John Doe") 0 4515])
    by (vm_compute; reflexivity).
  cbv zeta. split; [exact Hreach|]. split; [exact Htimers|].
  assert (Hin : tickTimer 0 15 3 (lit "John Doe") 0 4515
                ∈ timers (asked script_js 4000 1 (Http true (Some johnDoe))
                            (uploadedJs caseClosed)))
    by (rewrite Htimers; apply list_elem_of_here).
  pose proof (clear_during_reveal_loses_answer script_js plainEnv _
                (tickTimer 0 15 3 (lit "John Doe") 0 4515) 3
                (lit "John Doe") 0 Hreach Hin eq_refl) as Hclear.
  cbv zeta in Hclear. exact (proj1 (proj2 Hclear)).
Defined.

Lemma reveals_timers st t : In t (reveals st) -> t ∈ timers st.
Proof.
  unfold reveals. intros [H _]%filter_In. now apply list_elem_of_In.
Qed.

(** X18: a new session in part_000 does not stop a reveal.
    [startNewSession] disables the input field and the send button and
    replaces the log, but leaves the interval of a reveal in progress
    running.  The reveal runs to its end out of sight and its last tick
    enables the send button again, while the input field stays disabled
    and the log stays as the new session left it. *)
Theorem new_session_during_reveal (e : environment) (st : state)
    (t : timer) (container : nat) (text : jsstring) (i : nat) :
  reachable part_000 e st ->
  t ∈ timers st ->
  timer_callback t = TypeTick container text i ->
  let fresh := startNewSession part_000 st in
  let done := fireTimes (S (length text - i)) (timer_id t) fresh in
  sendButton_disabled (page fresh) = true
  /\ chatInput_disabled (page fresh) = true
  /\ sendButton_disabled (page done) = false
  /\ chatInput_disabled (page done) = true
  /\ isTyping done = false
  /\ chatLog done = chatLog fresh.
Proof.
  intros Hreach Hin Hcb. cbv zeta.
  destruct (reveal_timer_found part_000 e st t container text i
              Hreach Hin Hcb)
    as (period & rest & Htake & Hi & Hlt & Htid).
  cbn [startNewSession].
  pose proof (startNewSession_resets st)
    as (_ & _ & _ & _ & Hinput & Hbutton & _).
  cbv zeta in Hinput, Hbutton.
  assert (Hnot : container ∉ chatMessages (Part000.startNewSession st)).
  { unfold Part000.startNewSession, block. cbn [foldl].
    unfold Part000.clearChat, clearChatWith.
    destruct (querySelector_welcome _); cbn;
      intros Hel; repeat (apply elem_of_cons in Hel; destruct Hel as [?|Hel]);
      try lia; now apply elem_of_nil in Hel. }
  assert (Htake' :
    takeTimer (timer_id t) (timers (Part000.startNewSession st))
    = Some (tickTimer (timer_id t) period container text i (due t),
            {| timer_id := nextTimer st; due := (clock st + 60000)%N;
               interval := Some 60000%N;
               timer_callback := UpdateSessionTime |} :: rest)).
  { unfold Part000.startNewSession, block. cbn [foldl].
    unfold Part000.clearChat, clearChatWith.
    destruct (querySelector_welcome _); cbn;
      (replace (nextTimer st =? timer_id t) with false
         by (symmetry; apply Nat.eqb_neq; lia));
      now rewrite Htake. }
  destruct (detached_reveal_completes _ _ _ _ _ _ _ _ Htake' Hi Hnot)
    as (Hlog & Hty & Hbtn & Hinp).
  split; [exact Hbutton|]. split; [exact Hinput|]. split; [exact Hbtn|].
  split; [now rewrite Hinp|]. now split.
Qed.

Lemma new_session_during_reveal_witness :
  let st := asked part_000 12000 1 (Http true (Some johnDoe))
              (uploaded000 caseClosed) in
  let text := lit "John Doe" in
  let t := tickTimer 94 20 3 text 0 12520 in
  let done := fireTimes (S (length text - 0)) (timer_id t)
                (startNewSession part_000 st) in
  reachable part_000 plainEnv st
  /\ reveals st = [t]
  /\ sendButton_disabled (page done) = false
  /\ chatInput_disabled (page done) = true.
Proof.
  assert (Hreach : reachable part_000 plainEnv
            (asked part_000 12000 1 (Http true (Some johnDoe))
               (uploaded000 caseClosed)))
    by apply reachable_run, reachable_run, reachable_load.
  assert (Hrev : reveals (asked part_000 12000 1 (Http true (Some johnDoe))
                            (uploaded000 caseClosed))
                 = [tickTimer 94 20 3 (lit "John Doe") 0 12520])
    by (vm_compute; reflexivity).
  cbv zeta. split; [exact Hreach|]. split; [exact Hrev|].
  assert (Hin : tickTimer 94 20 3 (lit "John Doe") 0 12520
                ∈ timers (asked part_000 12000 1 (Http true (Some johnDoe))
                            (uploaded000 caseClosed))).
  { apply reveals_timers. rewrite Hrev. now left. }
  pose proof (new_session_during_reveal plainEnv _
                (tickTimer 94 20 3 (lit "John Doe") 0 12520) 3
                (lit "John Doe") 0 Hreach Hin eq_refl) as Hnew.
  cbv zeta in Hnew.
  exact (conj (proj1 (proj2 (proj2 Hnew)))
              (proj1 (proj2 (proj2 (proj2 Hnew))))).
Defined.
